(** * ardmnova: the asset indexer, the material catalog and the AR viewer

    A shallow embedding of
    - [scripts/generate-asset-index.js], the build-time asset indexer,
    - [MaterialSelector.tsx], the static material catalog, and
    - the two variants of [ARCamera.tsx], the viewer component,
    and the properties the specification states about them.

    Conventions.
    - Strings are sequences of 8-bit code units ([string]); this covers the
      ASCII names the catalog and the indexer compare against.
    - Numbers are kept abstract ([JsNumber]); exact rational arithmetic is the
      instance used where a statement is about the algebra of the numbers.
    - A three.js object is referred to by a handle into a store shared by the
      scene graph and the placed models, so that writes through one reference
      are seen through the others.
    - An [async] function is cut at its [await]s: the part up to the first
      one runs in the handler of the request, and every later part runs when
      the awaited result arrives.  Every handler reads the state its render
      committed and runs to its next [await] without interruption.
    - Console output, the media stream and the render loop are left out: no
      function modelled here reads them. *)

From Stdlib Require Import Ascii String List ZArith QArith Qround Lia Lqa.
From Stdlib Require Import DecimalString DecimalN Sorted Permutation.
From Stdlib Require Floats.
From stdpp Require Import base option list gmap strings sorting.

Local Open Scope stdpp_scope.

(** ** JavaScript string primitives used by the sources *)

Module JsString.

(** [c.toLowerCase()] on one code unit: [A]..[Z] move down by 32. *)
Definition lowerChar (c : ascii) : ascii :=
  let n := nat_of_ascii c in
  if (65 <=? n)%nat && (n <=? 90)%nat then ascii_of_nat (n + 32) else c.

Fixpoint toLowerCase (s : string) : string :=
  match s with
  | EmptyString => EmptyString
  | String c r => String (lowerChar c) (toLowerCase r)
  end.

(** [s.startsWith(pat)] *)
Fixpoint startsWith (s pat : string) {struct pat} : bool :=
  match pat, s with
  | EmptyString, _ => true
  | String _ _, EmptyString => false
  | String p pat', String c s' =>
      if Ascii.eqb c p then startsWith s' pat' else false
  end.

(** [s.includes(pat)]: some suffix of [s] starts with [pat]. *)
Fixpoint includes (s pat : string) : bool :=
  startsWith s pat ||
  match s with
  | EmptyString => false
  | String _ s' => includes s' pat
  end.

(** [s.endsWith(pat)]: the last [length pat] code units of [s] are [pat]. *)
Definition endsWith (s pat : string) : bool :=
  let n := String.length s in
  let k := String.length pat in
  if (k <=? n)%nat then String.eqb (String.substring (n - k) k s) pat else false.

End JsString.

Import JsString.

(** ** The material catalog ([MaterialSelector.tsx]) *)

(** [interface Material]: [color] and [texture] are optional fields. *)
Module Material.
Record t := mk {
  id : string;
  name : string;
  color : option string;
  texture : option string;
  preview : string
}.
End Material.

Abbreviation mkMaterial := Material.mk.

Definition chairMaterials : list Material.t :=
  [ mkMaterial "leather-brown" "Brown Leather" (Some "#8B4513") None
      "linear-gradient(135deg, #8B4513, #A0522D)";
    mkMaterial "leather-black" "Black Leather" (Some "#1a1a1a") None
      "linear-gradient(135deg, #1a1a1a, #333333)";
    mkMaterial "fabric-gray" "Gray Fabric" (Some "#6B7280") None
      "linear-gradient(135deg, #6B7280, #9CA3AF)";
    mkMaterial "fabric-blue" "Blue Fabric" (Some "#3B82F6") None
      "linear-gradient(135deg, #3B82F6, #60A5FA)";
    mkMaterial "wood-oak" "Oak Wood" (Some "#DEB887") None
      "linear-gradient(135deg, #DEB887, #F5DEB3)";
    mkMaterial "wood-walnut" "Walnut" (Some "#654321") None
      "linear-gradient(135deg, #654321, #8B4513)";
    mkMaterial "metal-chrome" "Chrome" (Some "#C0C0C0") None
      "linear-gradient(135deg, #C0C0C0, #E6E6FA)";
    mkMaterial "metal-black" "Black Metal" (Some "#2C2C2C") None
      "linear-gradient(135deg, #2C2C2C, #4A4A4A)" ].

Definition sofaMaterials : list Material.t :=
  [ mkMaterial "velvet-emerald" "Emerald Velvet" (Some "#50C878") None
      "linear-gradient(135deg, #50C878, #7FFFD4)";
    mkMaterial "velvet-burgundy" "Burgundy Velvet" (Some "#800020") None
      "linear-gradient(135deg, #800020, #B22222)";
    mkMaterial "linen-beige" "Beige Linen" (Some "#F5F5DC") None
      "linear-gradient(135deg, #F5F5DC, #FFFACD)";
    mkMaterial "cotton-white" "White Cotton" (Some "#FFFFFF") None
      "linear-gradient(135deg, #FFFFFF, #F8F8FF)" ]
  ++ List.filter (fun m => includes (Material.id m) "leather") chairMaterials.

(** The list the [table] branch builds on every call. *)
Definition tableMaterials : list Material.t :=
  List.filter (fun m => includes (Material.id m) "wood" || includes (Material.id m) "metal")
    chairMaterials.

(** The literal returned when no predicate matches. *)
Definition defaultMaterials : list Material.t :=
  [ mkMaterial "default-red" "Red" (Some "#EF4444") None
      "linear-gradient(135deg, #EF4444, #F87171)";
    mkMaterial "default-blue" "Blue" (Some "#3B82F6") None
      "linear-gradient(135deg, #3B82F6, #60A5FA)";
    mkMaterial "default-green" "Green" (Some "#10B981") None
      "linear-gradient(135deg, #10B981, #34D399)";
    mkMaterial "default-purple" "Purple" (Some "#8B5CF6") None
      "linear-gradient(135deg, #8B5CF6, #A78BFA)" ].

Definition getModelMaterials (modelName : string) : list Material.t :=
  let lowerName := toLowerCase modelName in
  if includes lowerName "chair" then chairMaterials
  else if includes lowerName "sofa" || includes lowerName "couch" then sofaMaterials
  else if includes lowerName "table" then tableMaterials
  else defaultMaterials.


(** ** Numbers

    The viewer computes with JavaScript numbers.  The embedding is generic in
    the arithmetic: every definition below works for any interpretation of the
    operations, so the structural results hold for IEEE doubles as well as for
    exact arithmetic. *)

Class JsNumber (num : Type) := {
  nlit : Q -> num;              (* a numeric literal, named by its value *)
  nadd : num -> num -> num;
  nsub : num -> num -> num;
  nmul : num -> num -> num;
  ndiv : num -> num -> num;
  nround : num -> num;          (* [Math.round] *)
  truthy : num -> bool          (* [ToBoolean]: false on [0], [-0] and [NaN] *)
}.

Declare Scope num_scope.
Delimit Scope num_scope with num.
Infix "⊕" := nadd (at level 50, left associativity) : num_scope.
Infix "⊖" := nsub (at level 50, left associativity) : num_scope.
Infix "⊗" := nmul (at level 40, left associativity) : num_scope.
Infix "⊘" := ndiv (at level 40, left associativity) : num_scope.
Local Open Scope num_scope.

(** [a || b] on numbers. *)
Definition orElse {num} `{JsNumber num} (a b : num) : num :=
  if truthy a then a else b.

(** [o.f || 0] for an optional numeric field [f]: [undefined] is falsy. *)
Definition orZero {num} `{JsNumber num} (o : option num) : num :=
  match o with
  | Some v => orElse v (nlit 0)
  | None => nlit 0
  end.

(** Exact rational arithmetic, the idealisation of JavaScript numbers in which
    the algebraic statements of the specification are read. *)
#[export] Instance Q_JsNumber : JsNumber Q := {|
  nlit q := q;
  nadd := Qplus;
  nsub := Qminus;
  nmul := Qmult;
  ndiv := Qdiv;
  nround q := inject_Z (Qfloor (Qplus q (1 # 2)));
  truthy q := negb (Qeq_bool q 0)
|}.

(** IEEE 754 binary64, the numbers the program computes with: the kernel's
    primitive floats, rounding to nearest, ties to even. *)
Module Double.
(** The double nearest to an integer. *)
Definition ofZ (z : Z) : PrimFloat.float :=
  FloatOps.SF2Prim
    (SpecFloat.binary_normalize FloatOps.prec FloatOps.emax z 0 false).

(** A numeric literal.  For a literal whose numerator and denominator are
    below [2^53], as those of the sources are, the quotient is the double
    nearest to the literal's value, which is what JavaScript reads. *)
Definition lit (q : Q) : PrimFloat.float :=
  PrimFloat.div (ofZ (Qnum q)) (ofZ (Zpos (Qden q))).

(** [Math.round]: the nearest integer, ties towards [+Infinity]; [NaN], the
    infinities, the zeros and integers are returned as they are, and a
    result of zero keeps the sign of the argument. *)
Definition round (x : PrimFloat.float) : PrimFloat.float :=
  match FloatOps.Prim2SF x with
  | SpecFloat.S754_finite s m e =>
      if (0 <=? e)%Z then x
      else
        let k := (- e)%Z in
        let twice := if s then (- (2 * Zpos m))%Z else (2 * Zpos m)%Z in
        let n := ((twice + 2 ^ k) / 2 ^ (k + 1))%Z in
        if (n =? 0)%Z then (if s then PrimFloat.neg_zero else PrimFloat.zero)
        else ofZ n
  | _ => x
  end.

(** [ToBoolean]: false on [0], [-0] and [NaN]. *)
Definition truthy (x : PrimFloat.float) : bool :=
  negb (PrimFloat.is_nan x || PrimFloat.is_zero x).
End Double.

#[export] Instance Double_JsNumber : JsNumber PrimFloat.float := {|
  nlit := Double.lit;
  nadd := PrimFloat.add;
  nsub := PrimFloat.sub;
  nmul := PrimFloat.mul;
  ndiv := PrimFloat.div;
  nround := Double.round;
  truthy := Double.truthy
|}.


(** ** three.js values (the part of their interface the viewer uses) *)

Module Vector3.
Section WithNum.
Context {num : Type} `{JsNumber num}.

Record t := mk { x : num; y : num; z : num }.

(** [v.set(x, y, z)] *)
Definition set (_ : t) (x y z : num) : t := mk x y z.
(** [v.copy(w)] *)
Definition copy (_ w : t) : t := w.
(** [v.clone()] *)
Definition clone (v : t) : t := mk (x v) (y v) (z v).
(** [v.add(w)] *)
Definition add (v w : t) : t := mk (x v ⊕ x w) (y v ⊕ y w) (z v ⊕ z w).
(** [v.multiplyScalar(k)] *)
Definition multiplyScalar (v : t) (k : num) : t :=
  mk (x v ⊗ k) (y v ⊗ k) (z v ⊗ k).
End WithNum.
Arguments t : clear implicits.
End Vector3.

Module Euler.
Section WithNum.
Context {num : Type}.
Record t := mk { x : num; y : num; z : num }.
Definition clone (e : t) : t := mk (x e) (y e) (z e).
End WithNum.
Arguments t : clear implicits.
End Euler.

Module Object3D.
(** [Mesh hex]: a [THREE.Mesh] whose material colour was last given as the
    number [hex] ([None] stands for [NaN]); [Group]: any other object, such
    as the [gltf.scene] a loader returns. *)
Inductive kind := Group | Mesh (hex : option Z).

Section WithNum.
Context {num : Type}.
Record t := mk {
  position : Vector3.t num;
  rotation : Euler.t num;
  scale : Vector3.t num;
  castShadow : bool;
  receiveShadow : bool;
  kind_of : kind
}.

Definition isMesh (o : t) : bool :=
  match kind_of o with Mesh _ => true | Group => false end.

Definition with_position (p : Vector3.t num) (o : t) : t :=
  mk p (rotation o) (scale o) (castShadow o) (receiveShadow o) (kind_of o).
Definition with_rotation (r : Euler.t num) (o : t) : t :=
  mk (position o) r (scale o) (castShadow o) (receiveShadow o) (kind_of o).
Definition with_scale (s : Vector3.t num) (o : t) : t :=
  mk (position o) (rotation o) s (castShadow o) (receiveShadow o) (kind_of o).
Definition with_shadows (c r : bool) (o : t) : t :=
  mk (position o) (rotation o) (scale o) c r (kind_of o).
(** [o.material.color.setHex(hex)] *)
Definition setHex (hex : option Z) (o : t) : t :=
  mk (position o) (rotation o) (scale o) (castShadow o) (receiveShadow o)
     (Mesh hex).
End WithNum.
Arguments t : clear implicits.
End Object3D.

(** [PerspectiveCamera]: its position and what [getWorldDirection] yields. *)
Module Camera.
Record t {num : Type} := mk {
  position : Vector3.t num;
  worldDirection : Vector3.t num
}.
Arguments t : clear implicits.
End Camera.

(** ** The viewer component's data ([ARCamera.tsx], both variants) *)

(** ['move' | 'rotate' | 'scale'] *)
Inductive ControlMode := ModeMove | ModeRotate | ModeScale.

(** [interface ARModel].  [model] is a reference to a three.js object: a handle
    into the store of objects shared with the scene graph.  [position],
    [rotation] and [scale] are the clones taken when the record was built. *)
Module ARModel.
Record t {num : Type} := mk {
  id : string;
  name : string;
  model : nat;
  position : Vector3.t num;
  rotation : Euler.t num;
  scale : Vector3.t num;
  locked : bool;
  selectedMaterial : option string;
  materials : list Material.t
}.
Arguments t : clear implicits.

Section Updates.
Context {num : Type}.
(** [{ ...m, locked: b }] *)
Definition with_locked (b : bool) (m : t num) : t num :=
  mk num (id m) (name m) (model m) (position m) (rotation m) (scale m) b
     (selectedMaterial m) (materials m).
(** [{ ...m, selectedMaterial: sel }] *)
Definition with_selectedMaterial (sel : option string) (m : t num) : t num :=
  mk num (id m) (name m) (model m) (position m) (rotation m) (scale m)
     (locked m) sel (materials m).
(** [{ ...m, position: p }] *)
Definition with_position (p : Vector3.t num) (m : t num) : t num :=
  mk num (id m) (name m) (model m) p (rotation m) (scale m) (locked m)
     (selectedMaterial m) (materials m).
End Updates.
End ARModel.

(** The argument of [transformModel]: [{ x?: number, y?: number, z?: number }]. *)
Module Delta.
Record t {num : Type} := mk { x : option num; y : option num; z : option num }.
Arguments t : clear implicits.
End Delta.

(** A call of [toast].  A template literal that interpolates a number keeps the
    number as a piece of the description. *)
Module Toast.
Inductive variant := Default | Destructive.
Inductive piece {num : Type} := Str (s : string) | Num (n : num).
Arguments piece : clear implicits.
Record t {num : Type} := mk {
  title : string;
  description : list (piece num);
  variant_of : option variant;
  duration : option Z
}.
Arguments t : clear implicits.
End Toast.

(** What the loader hands to its success callback: the root object
    [gltf.scene], and the length of the diagonal of its bounding box as
    [Box3.setFromObject(..).getSize(..).length()] reports it. *)
Module Asset.
Record t {num : Type} := mk {
  scene : Object3D.t num;
  boundingSize : num
}.
Arguments t : clear implicits.
End Asset.

(** How the sidecar request of variant A ends. *)
Inductive MindOutcome := MindOk | MindNotOk | MindFetchError | MindJsonError.

(** A suspended call of [spawnModel]: the model it was called for and the
    [await] it is parked at.  After the asset has arrived the local variable
    [gltf] holds the positioned and scaled object. *)
Module Pending.
Inductive phase {num : Type} := AwaitGlb | AwaitMind (gltf : Object3D.t num).
Arguments phase : clear implicits.
Record t {num : Type} := mk { modelName : string; phase_of : phase num }.
Arguments t : clear implicits.
End Pending.

(** The component's refs and state cells, the store of three.js objects they
    point into, the toasts shown so far and the suspended [spawnModel] calls. *)
Module State.
Record t {num : Type} := mk {
  sceneRef : option (list nat);          (* [scene.children], as handles *)
  cameraRef : option (Camera.t num);
  heap : list (Object3D.t num);
  cameraActive : bool;
  arModels : list (ARModel.t num);
  selectedModel : option string;
  controlMode : ControlMode;
  isLoading : bool;
  activeModel : option string;
  toasts : list (Toast.t num);
  inflight : list (Pending.t num)
}.
Arguments t : clear implicits.

Section Updates.
Context {num : Type}.
Implicit Type s : t num.
Definition with_scene v s :=
  mk num v (cameraRef s) (heap s) (cameraActive s) (arModels s)
     (selectedModel s) (controlMode s) (isLoading s) (activeModel s)
     (toasts s) (inflight s).
Definition with_camera v s :=
  mk num (sceneRef s) v (heap s) (cameraActive s) (arModels s)
     (selectedModel s) (controlMode s) (isLoading s) (activeModel s)
     (toasts s) (inflight s).
Definition with_heap v s :=
  mk num (sceneRef s) (cameraRef s) v (cameraActive s) (arModels s)
     (selectedModel s) (controlMode s) (isLoading s) (activeModel s)
     (toasts s) (inflight s).
Definition with_cameraActive v s :=
  mk num (sceneRef s) (cameraRef s) (heap s) v (arModels s)
     (selectedModel s) (controlMode s) (isLoading s) (activeModel s)
     (toasts s) (inflight s).
Definition with_arModels v s :=
  mk num (sceneRef s) (cameraRef s) (heap s) (cameraActive s) v
     (selectedModel s) (controlMode s) (isLoading s) (activeModel s)
     (toasts s) (inflight s).
Definition with_selectedModel v s :=
  mk num (sceneRef s) (cameraRef s) (heap s) (cameraActive s) (arModels s)
     v (controlMode s) (isLoading s) (activeModel s) (toasts s) (inflight s).
Definition with_controlMode v s :=
  mk num (sceneRef s) (cameraRef s) (heap s) (cameraActive s) (arModels s)
     (selectedModel s) v (isLoading s) (activeModel s) (toasts s) (inflight s).
Definition with_isLoading v s :=
  mk num (sceneRef s) (cameraRef s) (heap s) (cameraActive s) (arModels s)
     (selectedModel s) (controlMode s) v (activeModel s) (toasts s) (inflight s).
Definition with_activeModel v s :=
  mk num (sceneRef s) (cameraRef s) (heap s) (cameraActive s) (arModels s)
     (selectedModel s) (controlMode s) (isLoading s) v (toasts s) (inflight s).
Definition with_toasts v s :=
  mk num (sceneRef s) (cameraRef s) (heap s) (cameraActive s) (arModels s)
     (selectedModel s) (controlMode s) (isLoading s) (activeModel s) v
     (inflight s).
Definition with_inflight v s :=
  mk num (sceneRef s) (cameraRef s) (heap s) (cameraActive s) (arModels s)
     (selectedModel s) (controlMode s) (isLoading s) (activeModel s)
     (toasts s) v.

(** [toast({...})] *)
Definition toast (t : Toast.t num) s := with_toasts (toasts s ++ [t]) s.

(** The state of a freshly mounted component. *)
Definition initial : t num :=
  mk num None None [] false [] None ModeMove false None [] [].
End Updates.
End State.

(** ** JavaScript built-ins the viewer calls *)

Module Js.

(** [s.replace(c, '')] for a one-code-unit pattern [c]: the first occurrence
    is dropped, later ones stay. *)
Fixpoint removeFirst (c : ascii) (s : string) : string :=
  match s with
  | EmptyString => EmptyString
  | String a r => if Ascii.eqb a c then r else String a (removeFirst c r)
  end.

Definition hexValue (c : ascii) : option Z :=
  let n := Z.of_nat (nat_of_ascii c) in
  if (48 <=? n)%Z && (n <=? 57)%Z then Some (n - 48)%Z
  else if (97 <=? n)%Z && (n <=? 102)%Z then Some (n - 87)%Z
  else if (65 <=? n)%Z && (n <=? 70)%Z then Some (n - 55)%Z
  else None.

(** The value of the longest prefix of hexadecimal digits, [None] if there
    is no digit at all. *)
Fixpoint hexPrefix (acc : option Z) (s : string) : option Z :=
  match s with
  | EmptyString => acc
  | String c r =>
      match hexValue c with
      | Some d => hexPrefix (Some (from_option id 0%Z acc * 16 + d)%Z) r
      | None => acc
      end
  end.

Fixpoint trimStart (s : string) : string :=
  match s with
  | String c r => if Ascii.is_space c then trimStart r else s
  | EmptyString => s
  end.

(** [parseInt(s, 16)]; [None] is [NaN]. *)
Definition parseInt16 (s : string) : option Z :=
  let s := trimStart s in
  let '(neg, s) :=
    match s with
    | String "-" r => (true, r)
    | String "+" r => (false, r)
    | _ => (false, s)
    end in
  let s :=
    match s with
    | String "0" (String "x" r) | String "0" (String "X" r) => r
    | _ => s
    end in
  (fun v : Z => if neg then (- v)%Z else v) <$> hexPrefix None s.

(** [String(n)] for a non-negative integer. *)
Definition showN (n : N) : string :=
  DecimalString.NilEmpty.string_of_uint (N.to_uint n).

End Js.

(** ** Parts the two variants share word for word *)

Section Shared.
Context {num : Type} `{JsNumber num}.

(** [modelMaterials[0]?.id || null]: the empty string is falsy. *)
Definition firstIdOrNull (modelMaterials : list Material.t) : option string :=
  match modelMaterials with
  | m :: _ => if String.eqb (Material.id m) "" then None else Some (Material.id m)
  | [] => None
  end.

(** The object literal [newModel] of [spawnModel]; [h] is the reference to
    [gltf], [now] the value of [Date.now()]. *)
Definition newModel (modelName : string) (h : nat) (gltf : Object3D.t num)
    (now : N) : ARModel.t num :=
  let modelMaterials := getModelMaterials modelName in
  ARModel.mk num
    (modelName +:+ "-" +:+ Js.showN now)
    modelName
    h
    (Vector3.clone (Object3D.position gltf))
    (Euler.clone (Object3D.rotation gltf))
    (Vector3.clone (Object3D.scale gltf))
    false
    (firstIdOrNull modelMaterials)
    modelMaterials.

(** The camera branch of the positioning step:
    [gltf.position.copy(camera.position).add(direction.multiplyScalar(2))]. *)
Definition inFrontOf (cam : Camera.t num) (p : Vector3.t num) : Vector3.t num :=
  let direction := Vector3.multiplyScalar (Camera.worldDirection cam) (nlit 2) in
  Vector3.add (Vector3.copy p (Camera.position cam)) direction.

(** [const scale = 1.5 / size; gltf.scale.set(scale, scale, scale)] *)
Definition normalizeSize (size : num) (gltf : Object3D.t num) : Object3D.t num :=
  let scale := nlit 1.5 ⊘ size in
  Object3D.with_scale (Vector3.set (Object3D.scale gltf) scale scale scale) gltf.

(** [Math.round((xhr.loaded / (xhr.total || 1)) * 100)] *)
Definition percentOf (loaded total : num) : num :=
  nround ((loaded ⊘ orElse total (nlit 1)) ⊗ nlit 100).

(** The [finally] block of [spawnModel]; the suspended call [i] is over. *)
Definition finally_ (i : nat) (s : State.t num) : State.t num :=
  let s := State.with_isLoading false s in
  let s := State.with_activeModel None s in
  State.with_inflight (delete i (State.inflight s)) s.

(** [prev.map(f)] for a callback that also writes to shared objects: the
    store is threaded through the calls from left to right. *)
Fixpoint mapStore {A S : Type} (f : A -> S -> A * S) (l : list A) (st : S)
    : list A * S :=
  match l with
  | [] => ([], st)
  | a :: l' =>
      let '(a', st') := f a st in
      let '(r, st'') := mapStore f l' st' in
      (a' :: r, st'')
  end.

(** [setControlMode(m)], [setSelectedModel(id)] *)
Definition setControlMode (m : ControlMode) (s : State.t num) : State.t num :=
  State.with_controlMode m s.
Definition setSelectedModel (i : option string) (s : State.t num) : State.t num :=
  State.with_selectedModel i s.

(** [stopCamera]: the state cell it clears. *)
Definition stopCamera (s : State.t num) : State.t num :=
  State.with_cameraActive false s.
End Shared.

(** ** Variant A of the viewer (the first [ARCamera.tsx]) *)

Module VariantA.
Section WithNum.
Context {num : Type} `{JsNumber num}.
Implicit Type s : State.t num.

Definition str (t : string) : list (Toast.piece num) := [Toast.Str t].

(** The scene-setup effect: a new scene holding the two lights, and a new
    camera at [z = 5], which looks down the negative z axis. *)
Definition initScene s : State.t num :=
  let origin := Vector3.mk (nlit 0) (nlit 0) (nlit 0) in
  let light p :=
    Object3D.mk p (Euler.mk (nlit 0) (nlit 0) (nlit 0))
      (Vector3.mk (nlit 1) (nlit 1) (nlit 1)) false false Object3D.Group in
  let ambientLight := light origin in
  let directionalLight := light (Vector3.set origin (nlit 10) (nlit 10) (nlit 5)) in
  let h := length (State.heap s) in
  let s := State.with_heap (State.heap s ++ [ambientLight; directionalLight]) s in
  let s := State.with_scene (Some [h; S h]) s in
  State.with_camera
    (Some (Camera.mk num (Vector3.mk (nlit 0) (nlit 0) (nlit 5))
                         (Vector3.mk (nlit 0) (nlit 0) (nlit (-1))))) s.

(** [startCamera]; [granted] tells whether [getUserMedia] resolved, [video]
    whether [videoRef.current] is set when it has.  Once [cameraActive] is set
    the container is rendered and the scene-setup effect runs. *)
Definition startCamera (granted video : bool) s : State.t num :=
  if granted then
    if video then
      let s := State.with_cameraActive true s in
      let s := State.toast (Toast.mk num "Camera Started"
        (str "AR camera is now active. Upload .mind and .glb files to begin tracking.")
        None None) s in
      initScene s
    else s
  else
    State.toast (Toast.mk num "Camera Error"
      (str "Could not access camera. Please check permissions.")
      (Some Toast.Destructive) None) s.

(** [spawnModel] up to its first [await]. *)
Definition spawnModel s (modelName : string) : State.t num :=
  match State.sceneRef s with
  | None => s
  | Some _ =>
      if State.isLoading s then s
      else
        let s := State.with_isLoading true s in
        let s := State.with_activeModel (Some modelName) s in
        let s := State.toast (Toast.mk num "Loading Model"
                   (str ("Loading " +:+ modelName +:+ "..."))
                   (Some Toast.Default) None) s in
        State.with_inflight
          (State.inflight s ++ [Pending.mk num modelName Pending.AwaitGlb]) s
  end.

(** The loader's progress callback for the suspended call [i]. *)
Definition onProgress s (i : nat) (loaded total : num) : State.t num :=
  match State.inflight s !! i with
  | Some (Pending.mk _ modelName Pending.AwaitGlb) =>
      State.toast (Toast.mk num "Loading Model"
        [Toast.Str ("Loading " +:+ modelName +:+ "... ");
         Toast.Num (percentOf loaded total); Toast.Str "%"]
        (Some Toast.Default) None) s
  | _ => s
  end.

(** The [catch] block followed by the [finally] block. *)
Definition catch_ (i : nat) (modelName errorMessage : string) s : State.t num :=
  let s := State.toast (Toast.mk num "Error Loading Model"
             (str ("Failed to load " +:+ modelName +:+ ". " +:+ errorMessage))
             (Some Toast.Destructive) None) s in
  finally_ i s.

(** The loader's error callback rejects with this message. *)
Definition loadErrorMessage : string := "Failed to load model: ".

Definition onError s (i : nat) : State.t num :=
  match State.inflight s !! i with
  | Some (Pending.mk _ modelName Pending.AwaitGlb) =>
      catch_ i modelName loadErrorMessage s
  | _ => s
  end.

(** The positioning step; [r1] and [r2] are the values the two calls of
    [Math.random()] return in the fallback branch. *)
Definition positionModel s (r1 r2 : num) (gltf : Object3D.t num) : Object3D.t num :=
  match State.cameraRef s with
  | Some cam =>
      Object3D.with_position (inFrontOf cam (Object3D.position gltf)) gltf
  | None =>
      Object3D.with_position
        (Vector3.set (Object3D.position gltf)
           ((r1 ⊖ nlit 0.5) ⊗ nlit 2)
           (nlit 0)
           ((r2 ⊖ nlit 0.5) ⊗ nlit 2 ⊖ nlit 2))
        gltf
  end.

(** [gltf.traverse(..)] on the root object: meshes cast and receive shadows
    (the descendants of the root are not part of the store). *)
Definition enableShadows (gltf : Object3D.t num) : Object3D.t num :=
  if Object3D.isMesh gltf then Object3D.with_shadows true true gltf else gltf.

(** The loader's success callback resumes the call [i]: it runs up to the
    [await fetch(mindPath)]. *)
Definition onLoad s (i : nat) (asset : Asset.t num) (r1 r2 : num) : State.t num :=
  match State.inflight s !! i with
  | Some (Pending.mk _ modelName Pending.AwaitGlb) =>
      let gltf := positionModel s r1 r2 (Asset.scene asset) in
      let gltf := normalizeSize (Asset.boundingSize asset) gltf in
      let gltf := enableShadows gltf in
      State.with_inflight
        (<[i := Pending.mk num modelName (Pending.AwaitMind gltf)]> (State.inflight s)) s
  | _ => s
  end.

(** What reading [.add] off a [null] scene reference throws (V8's wording). *)
Definition nullSceneMessage : string :=
  "Cannot read properties of null (reading 'add')".

(** The sidecar request is over: the inner [try]/[catch], then the rest of
    the outer [try]. *)
Definition onMind s (i : nat) (outcome : MindOutcome) (now : N) : State.t num :=
  match State.inflight s !! i with
  | Some (Pending.mk _ modelName (Pending.AwaitMind gltf)) =>
      let s :=
        match outcome with
        | MindOk =>
            State.toast (Toast.mk num "Tracking Data Loaded"
              (str ("Successfully loaded tracking data for " +:+ modelName +:+ "."))
              None (Some 3000%Z)) s
        | _ => s
        end in
      let h := length (State.heap s) in
      let newModel := newModel modelName h gltf now in
      match State.sceneRef s with
      | None => catch_ i modelName nullSceneMessage s
      | Some children =>
          let s := State.with_heap (State.heap s ++ [gltf]) s in
          let s := State.with_scene (Some (children ++ [h])) s in
          let s := State.with_arModels (State.arModels s ++ [newModel]) s in
          let s := State.toast (Toast.mk num "Model Loaded"
                     (str (modelName +:+ " has been placed in the scene."))
                     (Some Toast.Default) None) s in
          finally_ i s
      end
  | _ => s
  end.

(** [arModels.find(m => m.id === modelId)] *)
Definition findModel s (modelId : string) : option (ARModel.t num) :=
  List.find (fun m => String.eqb (ARModel.id m) modelId) (State.arModels s).

Definition toggleModelLock s (modelId : string) : State.t num :=
  let model := findModel s modelId in
  let wasLocked := from_option ARModel.locked false model in
  let s := State.with_arModels
    (List.map (fun model =>
       if String.eqb (ARModel.id model) modelId
       then ARModel.with_locked (negb (ARModel.locked model)) model
       else model) (State.arModels s)) s in
  State.toast (Toast.mk num
    (if wasLocked then "Model Unlocked" else "Model Locked")
    (str (if wasLocked
          then "Model can now move with image tracking."
          else "Model will stay in place even without image reference."))
    None None) s.

(** The body of the [switch (controlMode)], applied to the object [model]. *)
Definition applyDelta (mode : ControlMode) (delta : Delta.t num)
    (model : Object3D.t num) : Object3D.t num :=
  match mode with
  | ModeMove =>
      let p := Object3D.position model in
      Object3D.with_position
        (Vector3.mk (Vector3.x p ⊕ orZero (Delta.x delta))
                    (Vector3.y p ⊕ orZero (Delta.y delta))
                    (Vector3.z p ⊕ orZero (Delta.z delta))) model
  | ModeRotate =>
      let r := Object3D.rotation model in
      Object3D.with_rotation
        (Euler.mk (Euler.x r ⊕ orZero (Delta.x delta))
                  (Euler.y r ⊕ orZero (Delta.y delta))
                  (Euler.z r ⊕ orZero (Delta.z delta))) model
  | ModeScale =>
      let scaleFactor := nlit 1 ⊕ orZero (Delta.x delta) ⊗ nlit 0.1 in
      Object3D.with_scale
        (Vector3.multiplyScalar (Object3D.scale model) scaleFactor) model
  end.

Definition transformModel s (modelId : string) (delta : Delta.t num) : State.t num :=
  match findModel s modelId with
  | None => s
  | Some modelData =>
      if ARModel.locked modelData then s
      else
        State.with_heap
          (alter (applyDelta (State.controlMode s) delta)
                 (ARModel.model modelData) (State.heap s)) s
  end.

(** [parseInt(material.color?.replace('#', '') || 'ffffff', 16)] *)
Definition colorHex (material : Material.t) : option Z :=
  let digits :=
    match Material.color material with
    | Some c =>
        let r := Js.removeFirst "#" c in
        if String.eqb r "" then "ffffff" else r
    | None => "ffffff"
    end in
  Js.parseInt16 digits.

(** The callback [handleMaterialSelect] maps over the list. *)
Definition selectMaterial (modelId materialId : string) (model : ARModel.t num)
    (heap : list (Object3D.t num)) : ARModel.t num * list (Object3D.t num) :=
  if String.eqb (ARModel.id model) modelId then
    let material :=
      List.find (fun m => String.eqb (Material.id m) materialId)
                (ARModel.materials model) in
    let heap :=
      match material with
      | Some material =>
          alter (fun o => if Object3D.isMesh o
                          then Object3D.setHex (colorHex material) o else o)
                (ARModel.model model) heap
      | None => heap
      end in
    (ARModel.with_selectedMaterial (Some materialId) model, heap)
  else (model, heap).

Definition handleMaterialSelect s (modelId materialId : string) : State.t num :=
  let '(models, heap) :=
    mapStore (selectMaterial modelId materialId) (State.arModels s) (State.heap s) in
  let s := State.with_heap heap s in
  let s := State.with_arModels models s in
  State.toast (Toast.mk num "Material Applied"
    (str "Model material has been updated successfully.") None None) s.

(** What can happen to the mounted component: the user's requests, and the
    results the environment delivers to suspended calls. *)
Inductive Event :=
| StartCamera (granted video : bool)
| StopCamera
| Spawn (modelName : string)
| Progress (i : nat) (loaded total : num)
| Loaded (i : nat) (asset : Asset.t num) (r1 r2 : num)
| Failed (i : nat)
| Mind (i : nat) (outcome : MindOutcome) (now : N)
| SelectModel (modelId : string)
| SetControlMode (mode : ControlMode)
| ToggleLock (modelId : string)
| Transform (modelId : string) (delta : Delta.t num)
| SelectMaterial (modelId materialId : string).

Definition step s (e : Event) : State.t num :=
  match e with
  | StartCamera granted video => startCamera granted video s
  | StopCamera => stopCamera s
  | Spawn modelName => spawnModel s modelName
  | Progress i loaded total => onProgress s i loaded total
  | Loaded i asset r1 r2 => onLoad s i asset r1 r2
  | Failed i => onError s i
  | Mind i outcome now => onMind s i outcome now
  | SelectModel modelId => setSelectedModel (Some modelId) s
  | SetControlMode mode => setControlMode mode s
  | ToggleLock modelId => toggleModelLock s modelId
  | Transform modelId delta => transformModel s modelId delta
  | SelectMaterial modelId materialId => handleMaterialSelect s modelId materialId
  end.

(** The state after a sequence of events on a freshly mounted component. *)
Definition run (es : list Event) : State.t num :=
  List.fold_left step es State.initial.
End WithNum.
Arguments Event : clear implicits.
End VariantA.

(** ** Variant B of the viewer (the second [ARCamera.tsx]) *)

Module VariantB.
Section WithNum.
Context {num : Type} `{JsNumber num}.
Implicit Type s : State.t num.

Definition str (t : string) : list (Toast.piece num) := [Toast.Str t].

(** The scene-setup effect, run once after the first render; it gives up
    when the container is not mounted ([mounted] is [mountRef.current]
    being set). *)
Definition initScene (mounted : bool) s : State.t num :=
  if mounted then
    let s := State.with_scene (Some []) s in
    State.with_camera
      (Some (Camera.mk num (Vector3.mk (nlit 0) (nlit 0) (nlit 5))
                           (Vector3.mk (nlit 0) (nlit 0) (nlit (-1))))) s
  else s.

(** [startCamera]; [video] tells whether [videoRef.current] is set, [granted]
    whether [getUserMedia] then resolved. *)
Definition startCamera (video granted : bool) s : State.t num :=
  if video then
    if granted then State.with_cameraActive true s
    else
      State.toast (Toast.mk num "Camera Error"
        (str "Could not access the camera. Please check permissions.")
        (Some Toast.Destructive) None) s
  else s.

(** [spawnModel] up to its [await]. *)
Definition spawnModel s (modelName : string) : State.t num :=
  match State.sceneRef s with
  | None => s
  | Some _ =>
      if State.isLoading s then s
      else
        let s := State.with_isLoading true s in
        let s := State.with_activeModel (Some modelName) s in
        let s := State.toast (Toast.mk num "Loading Model"
                   (str ("Loading " +:+ modelName +:+ "...")) None None) s in
        State.with_inflight
          (State.inflight s ++ [Pending.mk num modelName Pending.AwaitGlb]) s
  end.

Definition onProgress s (i : nat) (loaded total : num) : State.t num :=
  match State.inflight s !! i with
  | Some (Pending.mk _ modelName Pending.AwaitGlb) =>
      State.toast (Toast.mk num "Loading"
        [Toast.Str ("Loading " +:+ modelName +:+ "... ");
         Toast.Num (percentOf loaded total); Toast.Str "%"]
        None None) s
  | _ => s
  end.

(** The [catch] block followed by the [finally] block. *)
Definition catch_ (i : nat) (modelName : string) s : State.t num :=
  let s := State.toast (Toast.mk num "Error"
             (str ("Failed to load " +:+ modelName +:+ ". Please try again."))
             (Some Toast.Destructive) None) s in
  finally_ i s.

Definition onError s (i : nat) : State.t num :=
  match State.inflight s !! i with
  | Some (Pending.mk _ modelName Pending.AwaitGlb) => catch_ i modelName s
  | _ => s
  end.

(** The positioning step. *)
Definition positionModel s (gltf : Object3D.t num) : Object3D.t num :=
  match State.cameraRef s with
  | Some cam =>
      Object3D.with_position (inFrontOf cam (Object3D.position gltf)) gltf
  | None =>
      Object3D.with_position
        (Vector3.set (Object3D.position gltf) (nlit 0) (nlit 0) (nlit (-5))) gltf
  end.

(** The loader's success callback resumes the call [i], which then runs to
    its end. *)
Definition onLoad s (i : nat) (asset : Asset.t num) (now : N) : State.t num :=
  match State.inflight s !! i with
  | Some (Pending.mk _ modelName Pending.AwaitGlb) =>
      let gltf := positionModel s (Asset.scene asset) in
      let gltf := normalizeSize (Asset.boundingSize asset) gltf in
      match State.sceneRef s with
      | None => catch_ i modelName s
      | Some children =>
          let h := length (State.heap s) in
          let s := State.with_heap (State.heap s ++ [gltf]) s in
          let s := State.with_scene (Some (children ++ [h])) s in
          let newModel := newModel modelName h gltf now in
          let s := State.with_arModels (State.arModels s ++ [newModel]) s in
          let s := setSelectedModel (Some (ARModel.id newModel)) s in
          let s := State.toast (Toast.mk num "Model Loaded"
                     (str (modelName +:+ " has been placed in the scene."))
                     None None) s in
          finally_ i s
      end
  | _ => s
  end.

(** [if (delta.f !== undefined) v += delta.f] *)
Definition addIfDefined (v : num) (d : option num) : num :=
  match d with
  | Some d => v ⊕ d
  | None => v
  end.

(** The callback [transformModel] maps over the list. *)
Definition moveOne (modelId : string) (delta : Delta.t num) (model : ARModel.t num)
    (heap : list (Object3D.t num)) : ARModel.t num * list (Object3D.t num) :=
  if String.eqb (ARModel.id model) modelId && negb (ARModel.locked model) then
    let heap :=
      alter (fun o =>
               let p := Object3D.position o in
               Object3D.with_position
                 (Vector3.mk (addIfDefined (Vector3.x p) (Delta.x delta))
                             (addIfDefined (Vector3.y p) (Delta.y delta))
                             (addIfDefined (Vector3.z p) (Delta.z delta))) o)
            (ARModel.model model) heap in
    let position :=
      match heap !! ARModel.model model with
      | Some o => Vector3.clone (Object3D.position o)
      | None => ARModel.position model
      end in
    (ARModel.with_position position model, heap)
  else (model, heap).

Definition transformModel s (modelId : string) (delta : Delta.t num) : State.t num :=
  let '(models, heap) :=
    mapStore (moveOne modelId delta) (State.arModels s) (State.heap s) in
  let s := State.with_heap heap s in
  State.with_arModels models s.

Definition toggleModelLock s (modelId : string) : State.t num :=
  State.with_arModels
    (List.map (fun model =>
       if String.eqb (ARModel.id model) modelId
       then ARModel.with_locked (negb (ARModel.locked model)) model
       else model) (State.arModels s)) s.

(** The lock button: [if (model) toggleModelLock(model.id)] for the selected
    model. *)
Definition toggleSelected s : State.t num :=
  match State.selectedModel s with
  | Some sel =>
      match List.find (fun m => String.eqb (ARModel.id m) sel) (State.arModels s) with
      | Some model => toggleModelLock s (ARModel.id model)
      | None => s
      end
  | None => s
  end.

(** The remove button, shown while a model is selected. *)
Definition removeSelected s : State.t num :=
  match State.selectedModel s with
  | Some sel =>
      let s := State.with_arModels
        (List.filter (fun model => negb (String.eqb (ARModel.id model) sel))
                     (State.arModels s)) s in
      setSelectedModel None s
  | None => s
  end.

Inductive Event :=
| Mount (mounted : bool)
| StartCamera (video granted : bool)
| StopCamera
| Spawn (modelName : string)
| Progress (i : nat) (loaded total : num)
| Loaded (i : nat) (asset : Asset.t num) (now : N)
| Failed (i : nat)
| SetControlMode (mode : ControlMode)
| ToggleSelected
| RemoveSelected
| Transform (modelId : string) (delta : Delta.t num).

Definition step s (e : Event) : State.t num :=
  match e with
  | Mount mounted => initScene mounted s
  | StartCamera video granted => startCamera video granted s
  | StopCamera => stopCamera s
  | Spawn modelName => spawnModel s modelName
  | Progress i loaded total => onProgress s i loaded total
  | Loaded i asset now => onLoad s i asset now
  | Failed i => onError s i
  | SetControlMode mode => setControlMode mode s
  | ToggleSelected => toggleSelected s
  | RemoveSelected => removeSelected s
  | Transform modelId delta => transformModel s modelId delta
  end.

Definition run (es : list Event) : State.t num :=
  List.fold_left step es State.initial.
End WithNum.
Arguments Event : clear implicits.
End VariantB.

(** ** The asset indexer ([scripts/generate-asset-index.js]) *)

(** The part of Node's [fs] and [path] modules the script calls.  A file
    system maps the absolute paths that exist, as lists of segments, to what
    is there; the root is a directory. *)
Module Fs.
Inductive node := File (content : string) | Dir.
Inductive error := ENOENT | ENOTDIR | EISDIR | EEXIST.

Abbreviation path := (list string).
Abbreviation t := (gmap (list string) node).

Definition stat (fs : t) (p : path) : option node :=
  match p with
  | [] => Some Dir
  | _ => fs !! p
  end.

Definition existsSync (fs : t) (p : path) : bool :=
  match stat fs p with
  | Some _ => true
  | None => false
  end.

(** [mkdirSync(p, { recursive: true })]: every missing ancestor is made. *)
Fixpoint mkdirs (fs : t) (done todo : path) : error + t :=
  match todo with
  | [] => inr fs
  | c :: todo' =>
      let p := done ++ [c] in
      match fs !! p with
      | None => mkdirs (<[p := Dir]> fs) p todo'
      | Some Dir => mkdirs fs p todo'
      | Some (File _) => inl (match todo' with [] => EEXIST | _ => ENOTDIR end)
      end
  end.

Definition mkdirSync (fs : t) (p : path) : error + t := mkdirs fs [] p.

(** [q] names an entry [n] of the directory [p]: [q = p ++ [n]]. *)
Fixpoint childName (p q : path) : option string :=
  match p, q with
  | [], [n] => Some n
  | a :: p', b :: q' => if String.eqb a b then childName p' q' else None
  | _, _ => None
  end.

(** The names of all entries of [p], files and directories alike, in the
    order the system lists them. *)
Definition entries (fs : t) (p : path) : list string :=
  omap (fun e => childName p e.1) (map_to_list fs).

(** [readdirSync(p)] *)
Definition readdirSync (fs : t) (p : path) : error + list string :=
  match stat fs p with
  | None => inl ENOENT
  | Some (File _) => inl ENOTDIR
  | Some Dir => inr (entries fs p)
  end.

(** [writeFileSync(p, content)]: creates or replaces the file [p]. *)
Definition writeFileSync (fs : t) (p : path) (content : string) : error + t :=
  match p with
  | [] => inl EISDIR
  | _ =>
      match stat fs (removelast p) with
      | None => inl ENOENT
      | Some (File _) => inl ENOTDIR
      | Some Dir =>
          match fs !! p with
          | Some Dir => inl EISDIR
          | _ => inr (<[p := File content]> fs)
          end
      end
  end.

(** The segments of a relative path, split at [/]. *)
Fixpoint segments (cur : string) (s : string) : list string :=
  match s with
  | EmptyString => [String.rev cur]
  | String c r =>
      if Ascii.eqb c "/" then String.rev cur :: segments "" r
      else segments (String c cur) r
  end.

(** [path.join(base, rel)] for an absolute [base]: empty segments and [.]
    are dropped, [..] climbs. *)
Definition join (base : path) (rel : string) : path :=
  List.fold_left
    (fun acc seg =>
       if String.eqb seg "" || String.eqb seg "." then acc
       else if String.eqb seg ".." then removelast acc
       else acc ++ [seg])
    (segments "" rel) base.
End Fs.

#[export] Instance result_bind : MBind (sum Fs.error) :=
  fun A B f m => match m with inl e => inl e | inr a => f a end.

(** [Array.prototype.sort()] without a comparator, on strings: ascending by
    code units. *)
Module JsArray.
Fixpoint insert (x : string) (l : list string) : list string :=
  match l with
  | [] => [x]
  | y :: l' => if String.leb x y then x :: l else y :: insert x l'
  end.

Definition sort (l : list string) : list string :=
  List.fold_right insert [] l.
End JsArray.

(** [JSON.stringify(files, null, 2)] for an array of strings. *)
Module JSON.
Definition quote : ascii := "034"%char.
Definition backslash : ascii := "092"%char.
Definition LF : ascii := "010"%char.

Definition hexDigit (n : nat) : ascii :=
  if (n <? 10)%nat then ascii_of_nat (48 + n) else ascii_of_nat (87 + n).

(** One code unit inside a string literal. *)
Definition escape (c : ascii) : string :=
  let n := nat_of_ascii c in
  if (n =? 34)%nat then String backslash (String quote "")
  else if (n =? 92)%nat then String backslash (String backslash "")
  else if (n =? 8)%nat then String backslash "b"
  else if (n =? 9)%nat then String backslash "t"
  else if (n =? 10)%nat then String backslash "n"
  else if (n =? 12)%nat then String backslash "f"
  else if (n =? 13)%nat then String backslash "r"
  else if (n <? 32)%nat then
    String backslash ("u00" +:+ String (hexDigit (n / 16)) (String (hexDigit (n mod 16)) ""))
  else String c "".

Fixpoint escapeAll (s : string) : string :=
  match s with
  | EmptyString => EmptyString
  | String c r => escape c +:+ escapeAll r
  end.

Definition quoteString (s : string) : string :=
  String quote (escapeAll s +:+ String quote "").

(** The elements, each on a line of its own behind the indentation. *)
Fixpoint elements (indent : string) (l : list string) : string :=
  match l with
  | [] => ""
  | [s] => indent +:+ quoteString s
  | s :: l' => indent +:+ quoteString s +:+ String "," (String LF (elements indent l'))
  end.

Definition stringify (files : list string) : string :=
  match files with
  | [] => "[]"
  | _ => String "[" (String LF (elements "  " files +:+ String LF "]"))
  end.

(** Reading such a text back, as [JSON.parse] and [response.json()] do, for
    texts that denote an array of strings; any other text gives [None].  The
    reader is a machine that takes one code unit at a time. *)
Inductive reader :=
| Start                                   (* before the bracket *)
| Open                                    (* behind the bracket *)
| Value                                   (* behind a comma *)
| InString (acc : string)                 (* inside a literal *)
| Escape (acc : string)                   (* behind a backslash *)
| Unicode (acc : string) (ds : list Z)    (* behind [\u] and the digits [ds] *)
| After                                   (* behind a literal *)
| Done.                                   (* behind the closing bracket *)

Definition isWhitespace (c : ascii) : bool :=
  let n := nat_of_ascii c in
  (n =? 32)%nat || (n =? 9)%nat || (n =? 10)%nat || (n =? 13)%nat.

Definition snoc (acc : string) (c : ascii) : string := acc +:+ String c "".

(** What an escape letter stands for. *)
Definition unescape (c : ascii) : option ascii :=
  let n := nat_of_ascii c in
  if (n =? 34)%nat || (n =? 92)%nat || (n =? 47)%nat then Some c
  else if (n =? 98)%nat then Some (ascii_of_nat 8)
  else if (n =? 116)%nat then Some (ascii_of_nat 9)
  else if (n =? 110)%nat then Some (ascii_of_nat 10)
  else if (n =? 102)%nat then Some (ascii_of_nat 12)
  else if (n =? 114)%nat then Some (ascii_of_nat 13)
  else None.

Fixpoint read (st : reader) (out : list string) (s : string)
    : option (list string) :=
  match s with
  | EmptyString => match st with Done => Some out | _ => None end
  | String c r =>
      match st with
      | Start =>
          if isWhitespace c then read Start out r
          else if Ascii.eqb c "[" then read Open out r else None
      | Open =>
          if isWhitespace c then read Open out r
          else if Ascii.eqb c quote then read (InString "") out r
          else if Ascii.eqb c "]" then read Done out r else None
      | Value =>
          if isWhitespace c then read Value out r
          else if Ascii.eqb c quote then read (InString "") out r else None
      | InString acc =>
          if Ascii.eqb c quote then read After (out ++ [acc]) r
          else if Ascii.eqb c backslash then read (Escape acc) out r
          else if (nat_of_ascii c <? 32)%nat then None
          else read (InString (snoc acc c)) out r
      | Escape acc =>
          if Ascii.eqb c "u" then read (Unicode acc []) out r
          else match unescape c with
               | Some d => read (InString (snoc acc d)) out r
               | None => None
               end
      | Unicode acc ds =>
          match Js.hexValue c, ds with
          | Some d, [d1; d2; d3] =>
              let v := (((d1 * 16 + d2) * 16 + d3) * 16 + d)%Z in
              if (v <? 256)%Z
              then read (InString (snoc acc (ascii_of_nat (Z.to_nat v)))) out r
              else None
          | Some d, _ => read (Unicode acc (ds ++ [d])) out r
          | None, _ => None
          end
      | After =>
          if isWhitespace c then read After out r
          else if Ascii.eqb c "," then read Value out r
          else if Ascii.eqb c "]" then read Done out r else None
      | Done => if isWhitespace c then read Done out r else None
      end
  end.

Definition parse (s : string) : option (list string) := read Start [] s.
End JSON.

Module Indexer.
(** [generateIndex(directory, extension)] run on the file system [fs];
    [publicDir] is what [path.join(__dirname, '..', 'public')] denotes. *)
Definition generateIndex (publicDir : Fs.path) (fs : Fs.t)
    (directory extension : string) : Fs.error + Fs.t :=
  let fullPath := Fs.join publicDir directory in
  fs ← (if negb (Fs.existsSync fs fullPath)
        then Fs.mkdirSync fs fullPath else inr fs);
  names ← Fs.readdirSync fs fullPath;
  let files :=
    JsArray.sort (List.filter (fun file => endsWith file extension) names) in
  let indexPath := fullPath ++ ["index.json"] in
  Fs.writeFileSync fs indexPath (JSON.stringify files).

Definition main (publicDir : Fs.path) (fs : Fs.t) : Fs.error + Fs.t :=
  fs ← generateIndex publicDir fs "3d" ".glb";
  generateIndex publicDir fs "minds" ".mind".
End Indexer.

(** ** The rest of variant A's page: asset lists, panels, swatches *)

(** [s.replace(pat, '')] for a string pattern: the first occurrence of [pat]
    is dropped, later ones stay. *)
Module JsReplace.
Fixpoint skip (n : nat) (s : string) : string :=
  match n, s with
  | S n', String _ r => skip n' r
  | _, _ => s
  end.

Fixpoint replaceFirst (pat s : string) : string :=
  if startsWith s pat then skip (String.length pat) s
  else match s with
       | EmptyString => EmptyString
       | String c r => String c (replaceFirst pat r)
       end.
End JsReplace.

(** [interface GLBFile] and [interface MindFile]: a display name and the
    (empty) [File] made for the listed file name. *)
Module AssetFile.
Record t := mk { name : string; file : string }.
End AssetFile.

(** What a request for an index file ends with: the [fetch] rejects, or a
    body arrives. *)
Inductive IndexResponse := FetchFailed | Body (text : string).

Module Assets.
(** [loadModels]: the list handed to [setGLBFiles], or [None] when the
    [catch] block runs and the list stays as it was.  A body that is not JSON
    makes [response.json()] reject; one that is not an array of strings makes
    [files.map] or [file.replace] throw. *)
Definition loadModels (response : IndexResponse) : option (list AssetFile.t) :=
  match response with
  | FetchFailed => None
  | Body text =>
      match JSON.parse text with
      | Some files =>
          Some (List.map (fun file =>
                  AssetFile.mk (JsReplace.replaceFirst ".glb" file) file) files)
      | None => None
      end
  end.

(** [loadMindFiles] *)
Definition loadMindFiles (response : IndexResponse) : option (list AssetFile.t) :=
  match response with
  | FetchFailed => None
  | Body text =>
      match JSON.parse text with
      | Some files =>
          Some (List.map (fun file =>
                  AssetFile.mk (JsReplace.replaceFirst ".mind" file) file) files)
      | None => None
      end
  end.

(** The two paths [spawnModel] of variant A requests. *)
Definition glbPath (modelName : string) : string := "/3d/" +:+ modelName +:+ ".glb".
Definition mindPath (modelName : string) : string :=
  "/minds/" +:+ modelName +:+ ".mind".

(** The panel "Available Models" of the page shown to a mobile device, part
    of what is rendered while [cameraActive] holds: one button per mind file,
    enabled when a model of the same name is listed; nothing while either
    list is empty. *)
Record ModelButton := mkButton { label : string; enabled : bool }.

Definition availableModels (cameraActive : bool)
    (mindFiles glbFiles : list AssetFile.t) : list ModelButton :=
  if cameraActive
     && ((0 <? length mindFiles)%nat && (0 <? length glbFiles)%nat) then
    List.map (fun mindFile =>
      let hasGLB :=
        List.existsb (fun glb =>
          String.eqb (AssetFile.name glb) (AssetFile.name mindFile)) glbFiles in
      mkButton (AssetFile.name mindFile) hasGLB) mindFiles
  else [].

(** [onClick={() => hasGLB && spawnModel(mindFile.name)}] *)
Definition clickModel {num} `{JsNumber num} (s : State.t num) (b : ModelButton)
    : State.t num :=
  if enabled b then VariantA.spawnModel s (label b) else s.
End Assets.

(** The component [MaterialSelector]: one round button per material, keyed by
    the material's id, marked [selected] when the id is the selected one;
    clicking it calls [onMaterialSelect] with its key. *)
Module Swatch.
Record t := mk {
  key : string;
  selected : bool;
  background : string;
  label : string
}.
End Swatch.

Definition MaterialSelector (materials : list Material.t)
    (selectedMaterial : option string) : list Swatch.t :=
  List.map (fun material =>
    Swatch.mk (Material.id material)
      (match selectedMaterial with
       | Some sel => String.eqb sel (Material.id material)
       | None => false
       end)
      (Material.preview material)
      (Material.name material)) materials.

Module Panel.
Section WithNum.
Context {num : Type} `{JsNumber num}.

(** The material selector of variant A's control panel, on the page shown
    to a mobile device.  The panel is rendered while
    [cameraActive && arModels.length > 0]; the selector in it is shown for
    the selected model when it is in the list and has materials. *)
Definition materialPanel (s : State.t num) : option (list Swatch.t) :=
  if State.cameraActive s && (0 <? length (State.arModels s))%nat then
    match State.selectedModel s with
    | Some sel =>
        if String.eqb sel "" then None
        else
          match VariantA.findModel s sel with
          | Some currentModel =>
              if (0 <? length (ARModel.materials currentModel))%nat
              then Some (MaterialSelector (ARModel.materials currentModel)
                           (ARModel.selectedMaterial currentModel))
              else None
          | None => None
          end
    | None => None
    end
  else None.

(** [onMaterialSelect={(materialId) => handleMaterialSelect(selectedModel, materialId)}] *)
Definition clickSwatch (s : State.t num) (sw : Swatch.t) : State.t num :=
  match State.selectedModel s with
  | Some sel => VariantA.handleMaterialSelect s sel (Swatch.key sw)
  | None => s
  end.
End WithNum.
End Panel.

(** The video element of variant A is rendered, and [videoRef.current] set,
    exactly while [cameraActive] holds: every [StartCamera] of [es] finds the
    reference as the render of the state before it left it. *)
Fixpoint videoFollowsRender {num} `{JsNumber num} (s : State.t num)
    (es : list (VariantA.Event num)) : Prop :=
  match es with
  | [] => True
  | e :: es' =>
      match e with
      | VariantA.StartCamera _ video => video = State.cameraActive s
      | _ => True
      end /\ videoFollowsRender (VariantA.step s e) es'
  end.

(** The values of [Date.now()] the events of a run deliver. *)
Definition stampsA {num} (es : list (VariantA.Event num)) : list N :=
  List.flat_map (fun e =>
    match e with VariantA.Mind _ _ now => [now] | _ => [] end) es.

Definition stampsB {num} (es : list (VariantB.Event num)) : list N :=
  List.flat_map (fun e =>
    match e with VariantB.Loaded _ _ now => [now] | _ => [] end) es.

(** ** Vocabulary of the statements *)

(** [pat] occurs in [s]. *)
Definition contains (s pat : string) : Prop :=
  exists pre suf, s = pre +:+ pat +:+ suf.

(** [s] ends with [pat]. *)
Definition hasSuffix (s pat : string) : Prop :=
  exists pre, s = pre +:+ pat.

(** The scene state a spawn may or may not touch: the placed-model list, the
    children of the scene and the objects themselves. *)
Definition sceneState {num} (s : State.t num)
    : list (ARModel.t num) * option (list nat) * list (Object3D.t num) :=
  (State.arModels s, State.sceneRef s, State.heap s).

(** At most one call of [spawnModel] is suspended, the loading flag is set
    exactly while one is, and a suspended call has a scene to add to. *)
Definition singleLoad {num} (s : State.t num) : Prop :=
  length (State.inflight s) <= 1 /\
  (State.isLoading s = true <-> State.inflight s <> []) /\
  (State.inflight s <> [] -> is_Some (State.sceneRef s)).

(** Every placed model refers to an object of the store, and no two of them
    to the same one. *)
Definition handlesOk {num} (s : State.t num) : Prop :=
  NoDup (List.map ARModel.model (State.arModels s)) /\
  Forall (fun m => ARModel.model m < length (State.heap s)) (State.arModels s).

(** The object variant A inserts for [asset]: positioned, scaled, shadows on. *)
Definition placedA {num} `{JsNumber num} (s : State.t num) (asset : Asset.t num)
    (r1 r2 : num) : Object3D.t num :=
  VariantA.enableShadows
    (normalizeSize (Asset.boundingSize asset)
       (VariantA.positionModel s r1 r2 (Asset.scene asset))).

(** The object variant B inserts for [asset]: positioned and scaled. *)
Definition placedB {num} `{JsNumber num} (s : State.t num) (asset : Asset.t num)
    : Object3D.t num :=
  normalizeSize (Asset.boundingSize asset)
    (VariantB.positionModel s (Asset.scene asset)).

(** What the transform protocol asks of an unlocked model's object [o] when
    it becomes [o']: the delta goes to the position in move mode, to the
    rotation in rotate mode, and scales by [1 + delta.x * 0.1] in scale mode;
    the other two stay. *)
Definition accumulated {num} `{JsNumber num} (mode : ControlMode)
    (delta : Delta.t num) (o o' : Object3D.t num) : Prop :=
  let dx := orZero (Delta.x delta) in
  let dy := orZero (Delta.y delta) in
  let dz := orZero (Delta.z delta) in
  let p := Object3D.position o in
  let r := Object3D.rotation o in
  let k := Object3D.scale o in
  match mode with
  | ModeMove =>
      Object3D.position o'
        = Vector3.mk (Vector3.x p ⊕ dx) (Vector3.y p ⊕ dy) (Vector3.z p ⊕ dz) /\
      Object3D.rotation o' = r /\ Object3D.scale o' = k
  | ModeRotate =>
      Object3D.rotation o'
        = Euler.mk (Euler.x r ⊕ dx) (Euler.y r ⊕ dy) (Euler.z r ⊕ dz) /\
      Object3D.position o' = p /\ Object3D.scale o' = k
  | ModeScale =>
      let f := nlit 1 ⊕ dx ⊗ nlit 0.1 in
      Object3D.scale o'
        = Vector3.mk (Vector3.x k ⊗ f) (Vector3.y k ⊗ f) (Vector3.z k ⊗ f) /\
      Object3D.position o' = p /\ Object3D.rotation o' = r
  end.


(** The shape of the callbacks the viewer maps over the placed models: a model
    that passes [test] has its object rewritten by [touch], and is itself
    rebuilt from what the object then is. *)
Definition visit {num} (test : ARModel.t num -> bool)
    (touch : ARModel.t num -> Object3D.t num -> Object3D.t num)
    (upd : ARModel.t num -> option (Object3D.t num) -> ARModel.t num)
    (m : ARModel.t num) (heap : list (Object3D.t num))
    : ARModel.t num * list (Object3D.t num) :=
  if test m then
    let heap' := alter (touch m) (ARModel.model m) heap in
    (upd m (heap' !! ARModel.model m), heap')
  else (m, heap).

(** [v'] is [v] with every component multiplied by [k], in exact arithmetic. *)
Definition scaledBy (k : Q) (v v' : Vector3.t Q) : Prop :=
  (Vector3.x v' == Vector3.x v * k)%Q /\
  (Vector3.y v' == Vector3.y v * k)%Q /\
  (Vector3.z v' == Vector3.z v * k)%Q.

(** Variant B's callback in the shape of [visit]. *)
Definition moveTest {num} (modelId : string) (m : ARModel.t num) : bool :=
  String.eqb (ARModel.id m) modelId && negb (ARModel.locked m).
Definition moveTouch {num} `{JsNumber num} (delta : Delta.t num)
    (_ : ARModel.t num) (o : Object3D.t num) : Object3D.t num :=
  let p := Object3D.position o in
  Object3D.with_position
    (Vector3.mk (VariantB.addIfDefined (Vector3.x p) (Delta.x delta))
                (VariantB.addIfDefined (Vector3.y p) (Delta.y delta))
                (VariantB.addIfDefined (Vector3.z p) (Delta.z delta))) o.
Definition moveUpd {num} (m : ARModel.t num) (o : option (Object3D.t num))
    : ARModel.t num :=
  ARModel.with_position
    (match o with
     | Some o => Vector3.clone (Object3D.position o)
     | None => ARModel.position m
     end) m.

(** Variant A's material callback in the shape of [visit]. *)
Definition selectTest {num} (modelId : string) (m : ARModel.t num) : bool :=
  String.eqb (ARModel.id m) modelId.
Definition selectTouch {num} (materialId : string) (m : ARModel.t num)
    (o : Object3D.t num) : Object3D.t num :=
  match List.find (fun d => String.eqb (Material.id d) materialId)
                  (ARModel.materials m) with
  | Some material =>
      if Object3D.isMesh o
      then Object3D.setHex (VariantA.colorHex material) o else o
  | None => o
  end.
Definition selectUpd {num} (materialId : string) (m : ARModel.t num)
    (_ : option (Object3D.t num)) : ARModel.t num :=
  ARModel.with_selectedMaterial (Some materialId) m.

(** The array the indexer writes for the directory [p] of [fs]. *)
Definition listing (fs : Fs.t) (p : Fs.path) (extension : string) : list string :=
  JsArray.sort (List.filter (fun file => endsWith file extension) (Fs.entries fs p)).

(** Nothing on the way to [p], [p] included, is a regular file. *)
Definition noFileOnPath (fs : Fs.t) (p : Fs.path) : Prop :=
  forall q content, q `prefix_of` p -> fs !! q <> Some (Fs.File content).

(** Ascending in code-unit order, without repetition. *)
Definition ascending (l : list string) : Prop :=
  StronglySorted (fun a b => String.ltb a b = true) l.

(** The two fields of a placed model that name it. *)
Definition idName {num} (m : ARModel.t num) : string * string :=
  (ARModel.id m, ARModel.name m).

(** The ids of the placed models are pairwise different, and each is the
    model's name, a dash and one of the time stamps [seen]. *)
Definition stamped {num} (seen : list N) (l : list (ARModel.t num)) : Prop :=
  NoDup (List.map ARModel.id l) /\
  forall m, In m l ->
    exists now, In now seen /\
      ARModel.id m = ARModel.name m +:+ "-" +:+ Js.showN now.

(** The number a string of hexadecimal digits denotes, read off the digits'
    places: the colour value a descriptor such as [#1a1a1a] names.  A
    digit's value is its place in the alphabet [0123456789abcdef], in either
    case; [None] when a code unit is not a hexadecimal digit. *)
Fixpoint placeIn (alphabet : string) (c : ascii) (place : Z) : option Z :=
  match alphabet with
  | EmptyString => None
  | String a rest =>
      if Ascii.eqb a c then Some place else placeIn rest c (place + 1)%Z
  end.

Definition hexDigitValue (c : ascii) : option Z :=
  placeIn "0123456789abcdef" (lowerChar c) 0%Z.

Fixpoint hexNumber (digits : string) : option Z :=
  match digits with
  | EmptyString => Some 0%Z
  | String c rest =>
      match hexDigitValue c, hexNumber rest with
      | Some d, Some v => Some (d * 16 ^ Z.of_nat (String.length rest) + v)%Z
      | _, _ => None
      end
  end.

(** The array the claim about the indexer describes: the names of the
    regular files of [p] that end with the extension, sorted. *)
Definition isRegularFile (fs : Fs.t) (q : Fs.path) : bool :=
  match fs !! q with
  | Some (Fs.File _) => true
  | _ => false
  end.

Definition fileNames (fs : Fs.t) (p : Fs.path) (extension : string)
    : list string :=
  JsArray.sort
    (List.filter (fun n => endsWith n extension && isRegularFile fs (p ++ [n]))
                 (Fs.entries fs p)).

(** ** Sample data *)

Module Sample.
(** A white mesh three units in front of the origin. *)
Definition object : Object3D.t Q :=
  Object3D.mk (Vector3.mk 0%Q 0%Q 3%Q) (Euler.mk 0%Q 0%Q 0%Q)
    (Vector3.mk 1%Q 1%Q 1%Q) false false (Object3D.Mesh (Some 16777215%Z)).

(** The model a spawn of [chair] builds for it. *)
Definition model : ARModel.t Q := newModel "chair" 0 object 1700000000000.

Definition camera : Camera.t Q :=
  Camera.mk Q (Vector3.mk 0%Q 0%Q 5%Q) (Vector3.mk 0%Q 0%Q (-1)%Q).

(** One placed, unlocked model; nothing is loading. *)
Definition state (mode : ControlMode) : State.t Q :=
  State.mk Q (Some [0]) (Some camera) [object] true [model]
    (Some (ARModel.id model)) mode false None [] [].

(** A scene but no camera, and nothing placed. *)
Definition noCamera : State.t Q :=
  State.mk Q (Some []) None [] true [] None ModeMove false None [] [].

(** The same, with the model locked. *)
Definition lockedState : State.t Q :=
  State.with_arModels [ARModel.with_locked true model] (state ModeMove).

Definition asset : Asset.t Q := Asset.mk Q object 3%Q.
End Sample.

(** The sample data in doubles. *)
Module SampleD.
Definition num (q : Q) : PrimFloat.float := Double.lit q.

Definition object : Object3D.t PrimFloat.float :=
  Object3D.mk (Vector3.mk (num 0) (num 0) (num 3))
    (Euler.mk (num 0) (num 0) (num 0))
    (Vector3.mk (num 1) (num 1) (num 1)) false false
    (Object3D.Mesh (Some 16777215%Z)).

Definition model : ARModel.t PrimFloat.float :=
  newModel "chair" 0 object 1700000000000.

Definition state (mode : ControlMode) : State.t PrimFloat.float :=
  State.mk PrimFloat.float (Some [0]) None [object] true [model]
    (Some (ARModel.id model)) mode false None [] [].
End SampleD.

(** A project directory with two models, one note and no index yet. *)
Module SampleFs.
Definition publicDir : Fs.path := ["app"; "public"].

Definition fs : Fs.t :=
  list_to_map
    [ (["app"], Fs.Dir);
      (["app"; "public"], Fs.Dir);
      (["app"; "public"; "3d"], Fs.Dir);
      (["app"; "public"; "3d"; "sofa.glb"], Fs.File "glTF-sofa");
      (["app"; "public"; "3d"; "chair.glb"], Fs.File "glTF-chair");
      (["app"; "public"; "3d"; "notes.txt"], Fs.File "to do") ].

(** What one run of the indexer for the models leaves behind. *)
Definition indexed : Fs.t :=
  match Indexer.generateIndex publicDir fs "3d" ".glb" with
  | inr fs' => fs'
  | inl _ => fs
  end.
End SampleFs.

(** More sample runs of the indexer. *)
Module SampleRun.
(** What one run of the whole script leaves behind. *)
Definition built : Fs.t :=
  match Indexer.main SampleFs.publicDir SampleFs.fs with
  | inr fs' => fs'
  | inl _ => SampleFs.fs
  end.

(** The sample project with a regular file where the models should be. *)
Definition blocked : Fs.t :=
  list_to_map
    [ (["app"], Fs.Dir);
      (["app"; "public"], Fs.Dir);
      (["app"; "public"; "3d"], Fs.File "not a directory") ].

(** The sample project with a directory named [index.json]. *)
Definition indexIsDir : Fs.t :=
  <[ ["app"; "public"; "3d"; "index.json"] := Fs.Dir ]> SampleFs.fs.

(** A directory of JSON files, one run of the indexer for them later. *)
Definition jsonFs : Fs.t :=
  list_to_map
    [ (["data"], Fs.Dir);
      (["data"; "a.json"], Fs.File "{}") ].

(** The sample project with a subdirectory whose name ends like a model. *)
Definition withFolder : Fs.t :=
  <[ ["app"; "public"; "3d"; "folder.glb"] := Fs.Dir ]> SampleFs.fs.

Definition jsonIndexed : Fs.t :=
  match Indexer.generateIndex [] jsonFs "data" ".json" with
  | inr fs' => fs'
  | inl _ => jsonFs
  end.
End SampleRun.

(** * Properties *)

(** ** The string primitives *)

Section StringFacts.

Lemma startsWith_spec s pat :
  startsWith s pat = true <-> exists suf, s = pat +:+ suf.
Proof.
  revert s; induction pat as [|p pat IH]; intros s; simpl.
  - split; [intros _; exists s; reflexivity | reflexivity].
  - destruct s as [|c s]; simpl.
    + split; [discriminate | intros [suf Hs]; discriminate].
    + destruct (Ascii.eqb_spec c p) as [->|Hne].
      * rewrite IH. split; intros [suf Hs]; exists suf.
        -- simpl. now rewrite Hs.
        -- simpl in Hs. now inversion Hs.
      * split; [discriminate|].
        intros [suf Hs]; simpl in Hs; inversion Hs; congruence.
Qed.

(** [includes] decides the substring relation. *)
Lemma includes_spec s pat : includes s pat = true <-> contains s pat.
Proof.
  unfold contains. induction s as [|c s IH]; simpl.
  - rewrite orb_false_r, startsWith_spec. split.
    + intros [suf Hs]. exists EmptyString, suf. exact Hs.
    + intros [pre [suf Hs]]. destruct pre; simpl in Hs; [|discriminate].
      exists suf. exact Hs.
  - rewrite orb_true_iff, startsWith_spec, IH. split.
    + intros [[suf Hs]|[pre [suf Hs]]].
      * exists EmptyString, suf. exact Hs.
      * exists (String c pre), suf. simpl. now rewrite Hs.
    + intros [pre [suf Hs]]. destruct pre as [|c' pre]; simpl in Hs.
      * left. exists suf. exact Hs.
      * right. inversion Hs. exists pre, suf. reflexivity.
Qed.

Lemma includes_false s pat : includes s pat = false <-> ~ contains s pat.
Proof.
  rewrite <- includes_spec. destruct (includes s pat); split; congruence.
Qed.

End StringFacts.

(** ** The material catalog *)

Section Catalog.

Lemma getModelMaterials_cases modelName :
  getModelMaterials modelName = chairMaterials \/
  getModelMaterials modelName = sofaMaterials \/
  getModelMaterials modelName = tableMaterials \/
  getModelMaterials modelName = defaultMaterials.
Proof.
  unfold getModelMaterials.
  repeat match goal with |- context [if ?b then _ else _] => destruct b end; auto.
Qed.

(** C1.  [getModelMaterials] lowercases the name and tries the substring
    predicates in order: [chair] gives the chair palette; failing that,
    [sofa] or [couch] gives the sofa palette; failing that, [table] gives the
    table palette (the wood and metal entries of the chair palette); any
    other name gives the four default entries in their order.  The sample
    names of the specification resolve as it says. *)
Theorem getModelMaterials_ordered_predicates :
  (forall modelName,
     let lowerName := toLowerCase modelName in
     (contains lowerName "chair" ->
        getModelMaterials modelName = chairMaterials) /\
     (~ contains lowerName "chair" ->
      contains lowerName "sofa" \/ contains lowerName "couch" ->
        getModelMaterials modelName = sofaMaterials) /\
     (~ contains lowerName "chair" ->
      ~ contains lowerName "sofa" -> ~ contains lowerName "couch" ->
      contains lowerName "table" ->
        getModelMaterials modelName = tableMaterials) /\
     (~ contains lowerName "chair" ->
      ~ contains lowerName "sofa" -> ~ contains lowerName "couch" ->
      ~ contains lowerName "table" ->
        getModelMaterials modelName = defaultMaterials)) /\
  getModelMaterials "Chair" = chairMaterials /\
  getModelMaterials "CHAIR" = chairMaterials /\
  getModelMaterials "loveseat-chair" = chairMaterials /\
  getModelMaterials "sofa" = sofaMaterials /\
  getModelMaterials "couch" = sofaMaterials /\
  getModelMaterials "lamp" = defaultMaterials /\
  List.map Material.id chairMaterials =
    ["leather-brown"; "leather-black"; "fabric-gray"; "fabric-blue";
     "wood-oak"; "wood-walnut"; "metal-chrome"; "metal-black"] /\
  List.map Material.id sofaMaterials =
    ["velvet-emerald"; "velvet-burgundy"; "linen-beige"; "cotton-white";
     "leather-brown"; "leather-black"] /\
  List.map Material.id tableMaterials =
    ["wood-oak"; "wood-walnut"; "metal-chrome"; "metal-black"] /\
  List.map Material.id defaultMaterials =
    ["default-red"; "default-blue"; "default-green"; "default-purple"].
Proof.
  split; [|repeat split; reflexivity].
  intros modelName lowerName. unfold getModelMaterials. fold lowerName.
  repeat split.
  - intros Hc. apply includes_spec in Hc. now rewrite Hc.
  - intros Hc Hs. apply includes_false in Hc. rewrite Hc.
    destruct Hs as [Hs|Hs]; apply includes_spec in Hs; rewrite Hs;
      [reflexivity | now rewrite orb_true_r].
  - intros Hc Hs Hk Ht.
    apply includes_false in Hc, Hs, Hk. apply includes_spec in Ht.
    now rewrite Hc, Hs, Hk, Ht.
  - intros Hc Hs Hk Ht. apply includes_false in Hc, Hs, Hk, Ht.
    now rewrite Hc, Hs, Hk, Ht.
Qed.

(** The predicates at a mixed-case name that also mentions a later keyword. *)
Lemma getModelMaterials_ordered_predicates_witness :
  contains (toLowerCase "Sofa-CHAIR") "chair" /\
  getModelMaterials "Sofa-CHAIR" = chairMaterials.
Proof.
  assert (Hc : contains (toLowerCase "Sofa-CHAIR") "chair")
    by (exists "sofa-", ""; reflexivity).
  split; [exact Hc|].
  exact (proj1 (proj1 getModelMaterials_ordered_predicates "Sofa-CHAIR") Hc).
Defined.

End Catalog.

(** ** The loading flag serialises [spawnModel] *)

(** Case analysis on the suspended call an event names. *)
Ltac case_pending :=
  match goal with
  | |- context [State.inflight ?s !! ?i] =>
      let Hi := fresh "Hi" in
      destruct (State.inflight s !! i) as [[? [|?]]|] eqn:Hi
  end.

Section SingleLoad.
Context {num : Type} `{JsNumber num}.
Implicit Type s : State.t num.

Lemma singleLoad_initial : singleLoad (State.initial (num := num)).
Proof.
  unfold singleLoad; simpl. repeat split; try lia; intros; congruence.
Qed.

(** A state change that leaves the flag, the suspended calls and the
    presence of a scene alone keeps the invariant. *)
Lemma singleLoad_frame s s' :
  State.inflight s' = State.inflight s ->
  State.isLoading s' = State.isLoading s ->
  (is_Some (State.sceneRef s) -> is_Some (State.sceneRef s')) ->
  singleLoad s -> singleLoad s'.
Proof.
  unfold singleLoad. intros -> -> Hsc (Hlen & Hflag & Hscene).
  repeat split; auto; apply Hflag.
Qed.

Lemma singleLoad_inflight s :
  singleLoad s ->
  State.inflight s = [] \/ exists p, State.inflight s = [p].
Proof.
  intros (Hlen & _). destruct (State.inflight s) as [|p [|q l]]; eauto.
  simpl in Hlen. lia.
Qed.

(** The [finally] block ends the only suspended call. *)
Lemma singleLoad_finally s i p :
  singleLoad s -> State.inflight s !! i = Some p ->
  singleLoad (finally_ i s).
Proof.
  intros Hs Hi. destruct (singleLoad_inflight s Hs) as [Hnil|[q Hq]].
  - rewrite Hnil in Hi. discriminate.
  - unfold singleLoad, finally_; simpl. rewrite Hq in *.
    destruct i as [|i]; [|discriminate]. simpl.
    repeat split; try lia; intros; congruence.
Qed.

Lemma singleLoad_toast s t : singleLoad s -> singleLoad (State.toast t s).
Proof. apply singleLoad_frame; auto. Qed.

Lemma singleLoad_accept s s' p children :
  singleLoad s -> State.isLoading s = false ->
  State.sceneRef s = Some children ->
  State.inflight s' = State.inflight s ++ [p] ->
  State.isLoading s' = true ->
  State.sceneRef s' = State.sceneRef s ->
  singleLoad s'.
Proof.
  intros (Hlen & Hflag & Hscene) Hl Hsc Hin Hl' Hsc'. unfold singleLoad.
  assert (Hnil : State.inflight s = []).
  { destruct (State.inflight s) eqn:E; [reflexivity|].
    assert (State.isLoading s = true) by (apply Hflag; congruence). congruence. }
  rewrite Hin, Hl', Hsc', Hnil, Hsc. simpl.
  repeat split; try lia; eauto; intros; congruence.
Qed.

Lemma singleLoad_stepA s e : singleLoad s -> singleLoad (VariantA.step s e).
Proof.
  intros Hs. destruct e; simpl.
  - (* StartCamera *)
    unfold VariantA.startCamera. destruct granted; [destruct video|].
    + revert Hs. apply singleLoad_frame; simpl; eauto.
    + exact Hs.
    + now apply singleLoad_toast.
  - revert Hs. apply singleLoad_frame; auto.
  - (* Spawn *)
    unfold VariantA.spawnModel.
    destruct (State.sceneRef s) as [children|] eqn:Hsc; [|exact Hs].
    destruct (State.isLoading s) eqn:Hl; [exact Hs|].
    eapply singleLoad_accept; eauto; reflexivity.
  - unfold VariantA.onProgress.
    case_pending; auto using singleLoad_toast.
  - (* Loaded *)
    unfold VariantA.onLoad.
    case_pending; auto.
    destruct (singleLoad_inflight s Hs) as [Hnil|[q Hq]];
      [rewrite Hnil in Hi; discriminate|].
    destruct Hs as (Hlen & Hflag & Hscene).
    unfold singleLoad; simpl. rewrite Hq in *.
    destruct i as [|i]; [|discriminate]. simpl.
    repeat split; auto; intros; try congruence.
    apply Hflag. congruence.
  - (* Failed *)
    unfold VariantA.onError, VariantA.catch_.
    case_pending; auto.
    eapply singleLoad_finally; [now apply singleLoad_toast | exact Hi].
  - (* Mind *)
    unfold VariantA.onMind, VariantA.catch_.
    case_pending; auto.
    set (s1 := match outcome with MindOk => _ | _ => s end).
    assert (Hs1 : singleLoad s1 /\ State.inflight s1 = State.inflight s).
    { subst s1. destruct outcome; auto using singleLoad_toast. }
    destruct Hs1 as [Hs1 Hin1]. rewrite <- Hin1 in Hi.
    destruct (State.sceneRef s1) as [children|] eqn:Hsc.
    + eapply singleLoad_finally; [|exact Hi].
      revert Hs1. apply singleLoad_frame; simpl; eauto.
    + eapply singleLoad_finally; [now apply singleLoad_toast | exact Hi].
  - revert Hs. apply singleLoad_frame; auto.
  - revert Hs. apply singleLoad_frame; auto.
  - now apply singleLoad_toast; revert Hs; apply singleLoad_frame.
  - unfold VariantA.transformModel.
    destruct (VariantA.findModel s modelId) as [m|]; auto.
    destruct (ARModel.locked m); auto.
  - unfold VariantA.handleMaterialSelect.
    destruct (mapStore _ _ _) as [models heap].
    apply singleLoad_toast. revert Hs. apply singleLoad_frame; auto.
Qed.


Lemma singleLoad_stepB s e : singleLoad s -> singleLoad (VariantB.step s e).
Proof.
  intros Hs. destruct e; simpl; try exact Hs.
  - unfold VariantB.initScene. destruct mounted; [|exact Hs].
    revert Hs. apply singleLoad_frame; simpl; eauto.
  - unfold VariantB.startCamera. destruct video, granted; exact Hs.
  - unfold VariantB.spawnModel.
    destruct (State.sceneRef s) as [children|] eqn:Hsc; [|exact Hs].
    destruct (State.isLoading s) eqn:Hl; [exact Hs|].
    eapply singleLoad_accept; eauto; reflexivity.
  - unfold VariantB.onProgress.
    case_pending; auto using singleLoad_toast.
  - unfold VariantB.onLoad, VariantB.catch_.
    case_pending; auto.
    destruct (State.sceneRef s) as [children|] eqn:Hsc.
    + eapply singleLoad_finally; [|exact Hi].
      revert Hs. apply singleLoad_frame; simpl; eauto.
    + eapply singleLoad_finally; [now apply singleLoad_toast | exact Hi].
  - unfold VariantB.onError, VariantB.catch_.
    case_pending; auto.
    eapply singleLoad_finally; [now apply singleLoad_toast | exact Hi].
  - unfold VariantB.toggleSelected.
    destruct (State.selectedModel s); [|exact Hs].
    destruct (List.find _ _); exact Hs.
  - unfold VariantB.removeSelected.
    destruct (State.selectedModel s); exact Hs.
  - unfold VariantB.transformModel.
    destruct (mapStore _ _ _) as [models heap]. exact Hs.
Qed.

Lemma fold_left_invariant {S E : Type} (P : S -> Prop) (f : S -> E -> S) :
  (forall a e, P a -> P (f a e)) ->
  forall es a, P a -> P (List.fold_left f es a).
Proof. intros Hstep es. induction es; simpl; auto. Qed.

Lemma singleLoad_runA es : singleLoad (VariantA.run es).
Proof.
  unfold VariantA.run.
  apply (fold_left_invariant singleLoad VariantA.step);
    [apply singleLoad_stepA | apply singleLoad_initial].
Qed.

Lemma singleLoad_runB es : singleLoad (VariantB.run es).
Proof.
  unfold VariantB.run.
  apply (fold_left_invariant singleLoad VariantB.step);
    [apply singleLoad_stepB | apply singleLoad_initial].
Qed.

(** C4.  In both variants a call of [spawnModel] made while the loading flag
    is set changes nothing; in every state the component can reach at most
    one call is suspended, and the flag is set exactly while one is; once
    the suspended call has ended, through the loader's error callback or
    through the last step of a successful load, the flag is clear, nothing
    is suspended, and the next request is taken up. *)
Theorem spawnModel_one_load_at_a_time :
  ((forall s modelName,
      State.isLoading s = true -> VariantA.spawnModel s modelName = s) /\
   (forall es, singleLoad (VariantA.run es)) /\
   (forall es p next,
      State.inflight (VariantA.run es) = [p] ->
      let accepts s' :=
        State.isLoading s' = false /\ State.inflight s' = [] /\
        State.inflight (VariantA.spawnModel s' next)
          = [Pending.mk num next Pending.AwaitGlb] /\
        State.isLoading (VariantA.spawnModel s' next) = true in
      (Pending.phase_of p = Pending.AwaitGlb ->
         accepts (VariantA.onError (VariantA.run es) 0)) /\
      (forall gltf outcome now,
         Pending.phase_of p = Pending.AwaitMind gltf ->
         accepts (VariantA.onMind (VariantA.run es) 0 outcome now)))) /\
  ((forall s modelName,
      State.isLoading s = true -> VariantB.spawnModel s modelName = s) /\
   (forall es, singleLoad (VariantB.run es)) /\
   (forall es p next,
      State.inflight (VariantB.run es) = [p] ->
      let accepts s' :=
        State.isLoading s' = false /\ State.inflight s' = [] /\
        State.inflight (VariantB.spawnModel s' next)
          = [Pending.mk num next Pending.AwaitGlb] /\
        State.isLoading (VariantB.spawnModel s' next) = true in
      (Pending.phase_of p = Pending.AwaitGlb ->
         accepts (VariantB.onError (VariantB.run es) 0)) /\
      (forall asset now,
         Pending.phase_of p = Pending.AwaitGlb ->
         accepts (VariantB.onLoad (VariantB.run es) 0 asset now)))).
Proof.
  split; (split; [|split]).
  - intros s modelName Hl. unfold VariantA.spawnModel.
    destruct (State.sceneRef s); [now rewrite Hl | reflexivity].
  - apply singleLoad_runA.
  - intros es p next Hp accepts.
    destruct (singleLoad_runA es) as (_ & _ & Hscene).
    destruct Hscene as [children Hsc]; [congruence|].
    split.
    + intros Hph. subst accepts. cbv beta.
      unfold VariantA.onError, VariantA.catch_, VariantA.spawnModel.
      rewrite Hp. destruct p as [n ph]. simpl in Hph. subst ph. simpl.
      rewrite ?Hsc; simpl; rewrite ?Hp; simpl; auto.
    + intros gltf outcome now Hph. subst accepts. cbv beta.
      unfold VariantA.onMind, VariantA.catch_, VariantA.spawnModel.
      rewrite Hp. destruct p as [n ph]. simpl in Hph. subst ph. simpl.
      destruct outcome; simpl; rewrite ?Hsc; simpl; rewrite ?Hp; simpl; auto.
  - intros s modelName Hl. unfold VariantB.spawnModel.
    destruct (State.sceneRef s); [now rewrite Hl | reflexivity].
  - apply singleLoad_runB.
  - intros es p next Hp accepts.
    destruct (singleLoad_runB es) as (_ & _ & Hscene).
    destruct Hscene as [children Hsc]; [congruence|].
    split.
    + intros Hph. subst accepts. cbv beta.
      unfold VariantB.onError, VariantB.catch_, VariantB.spawnModel.
      rewrite Hp. destruct p as [n ph]. simpl in Hph. subst ph. simpl.
      rewrite ?Hsc; simpl; rewrite ?Hp; simpl; auto.
    + intros asset now Hph. subst accepts. cbv beta.
      unfold VariantB.onLoad, VariantB.catch_, VariantB.spawnModel.
      rewrite Hp. destruct p as [n ph]. simpl in Hph. subst ph. simpl.
      rewrite ?Hsc; simpl; rewrite ?Hp; simpl; auto.
Qed.

End SingleLoad.

(** ** What a call of [spawnModel] does to the scene *)

Section Spawn.
Context {num : Type} `{JsNumber num}.
Implicit Type s : State.t num.

(** A whole successful call in variant A: the request, the loader's success
    callback, the end of the sidecar request. *)
Lemma spawnA_success s modelName asset r1 r2 outcome now children :
  State.sceneRef s = Some children ->
  State.isLoading s = false ->
  State.inflight s = [] ->
  let s3 :=
    VariantA.onMind
      (VariantA.onLoad (VariantA.spawnModel s modelName) 0 asset r1 r2)
      0 outcome now in
  let h := length (State.heap s) in
  State.arModels s3
    = State.arModels s ++ [newModel modelName h (placedA s asset r1 r2) now] /\
  State.heap s3 = State.heap s ++ [placedA s asset r1 r2] /\
  State.sceneRef s3 = Some (children ++ [h]) /\
  State.isLoading s3 = false /\ State.inflight s3 = [].
Proof.
  intros Hsc Hl Hin. cbv zeta.
  unfold VariantA.spawnModel. rewrite Hsc, Hl.
  unfold VariantA.onLoad. simpl. rewrite Hin. simpl.
  unfold VariantA.onMind. simpl.
  destruct outcome; simpl; rewrite Hsc; simpl; auto.
Qed.

(** A whole successful call in variant B. *)
Lemma spawnB_success s modelName asset now children :
  State.sceneRef s = Some children ->
  State.isLoading s = false ->
  State.inflight s = [] ->
  let s2 := VariantB.onLoad (VariantB.spawnModel s modelName) 0 asset now in
  let h := length (State.heap s) in
  State.arModels s2
    = State.arModels s ++ [newModel modelName h (placedB s asset) now] /\
  State.heap s2 = State.heap s ++ [placedB s asset] /\
  State.sceneRef s2 = Some (children ++ [h]) /\
  State.isLoading s2 = false /\ State.inflight s2 = [].
Proof.
  intros Hsc Hl Hin. cbv zeta.
  unfold VariantB.spawnModel. rewrite Hsc, Hl.
  unfold VariantB.onLoad. simpl. rewrite Hin. simpl. rewrite Hsc. simpl. auto.
Qed.

Lemma placedA_position s asset r1 r2 :
  Object3D.position (placedA s asset r1 r2)
  = Object3D.position (VariantA.positionModel s r1 r2 (Asset.scene asset)).
Proof.
  unfold placedA, VariantA.enableShadows, normalizeSize.
  destruct (Object3D.isMesh _); reflexivity.
Qed.

Lemma placedB_position s asset :
  Object3D.position (placedB s asset)
  = Object3D.position (VariantB.positionModel s (Asset.scene asset)).
Proof. reflexivity. Qed.


(** C6.  In both variants neither the request, nor a progress report, nor
    the loader's error callback touches the placed-model list, the children
    of the scene or the stored objects; the error callback of a suspended
    call posts one destructive toast naming the model, clears the loading
    flag and ends the call, after which a request is taken up again. *)
Theorem spawnModel_failure_leaves_scene :
  (forall s,
     (forall modelName,
        sceneState (VariantA.spawnModel s modelName) = sceneState s) /\
     (forall i loaded total,
        sceneState (VariantA.onProgress s i loaded total) = sceneState s) /\
     (forall i, sceneState (VariantA.onError s i) = sceneState s) /\
     (forall i modelName,
        State.inflight s !! i = Some (Pending.mk num modelName Pending.AwaitGlb) ->
        let s' := VariantA.onError s i in
        State.toasts s'
          = State.toasts s ++
            [Toast.mk num "Error Loading Model"
               [Toast.Str ("Failed to load " +:+ modelName +:+
                           ". Failed to load model: ")]
               (Some Toast.Destructive) None] /\
        State.isLoading s' = false /\
        State.inflight s' = delete i (State.inflight s) /\
        (forall next,
           is_Some (State.sceneRef s) ->
           State.inflight (VariantA.spawnModel s' next)
             = delete i (State.inflight s)
               ++ [Pending.mk num next Pending.AwaitGlb]))) /\
  (forall s,
     (forall modelName,
        sceneState (VariantB.spawnModel s modelName) = sceneState s) /\
     (forall i loaded total,
        sceneState (VariantB.onProgress s i loaded total) = sceneState s) /\
     (forall i, sceneState (VariantB.onError s i) = sceneState s) /\
     (forall i modelName,
        State.inflight s !! i = Some (Pending.mk num modelName Pending.AwaitGlb) ->
        let s' := VariantB.onError s i in
        State.toasts s'
          = State.toasts s ++
            [Toast.mk num "Error"
               [Toast.Str ("Failed to load " +:+ modelName +:+
                           ". Please try again.")]
               (Some Toast.Destructive) None] /\
        State.isLoading s' = false /\
        State.inflight s' = delete i (State.inflight s) /\
        (forall next,
           is_Some (State.sceneRef s) ->
           State.inflight (VariantB.spawnModel s' next)
             = delete i (State.inflight s)
               ++ [Pending.mk num next Pending.AwaitGlb]))).
Proof.
  split; intros s; (split; [|split; [|split]]).
  - intros modelName. unfold VariantA.spawnModel.
    destruct (State.sceneRef s); [destruct (State.isLoading s)|]; reflexivity.
  - intros i loaded total. unfold VariantA.onProgress.
    case_pending; reflexivity.
  - intros i. unfold VariantA.onError.
    case_pending; reflexivity.
  - intros i modelName Hi. cbv zeta. unfold VariantA.onError. rewrite Hi.
    repeat split.
    intros next [children Hsc].
    unfold VariantA.spawnModel. simpl. rewrite Hsc. reflexivity.
  - intros modelName. unfold VariantB.spawnModel.
    destruct (State.sceneRef s); [destruct (State.isLoading s)|]; reflexivity.
  - intros i loaded total. unfold VariantB.onProgress.
    case_pending; reflexivity.
  - intros i. unfold VariantB.onError.
    case_pending; reflexivity.
  - intros i modelName Hi. cbv zeta. unfold VariantB.onError. rewrite Hi.
    repeat split.
    intros next [children Hsc].
    unfold VariantB.spawnModel. simpl. rewrite Hsc. reflexivity.
Qed.


(** C8, as the code has it.  After a successful call the new model, the
    last of the list, and its object in the store carry the same position.
    With a camera that position is the camera's position plus twice its world
    direction, in both variants.  Without a camera variant B uses
    [(0, 0, -5)], and variant A uses [((r1 - 0.5) * 2, 0, (r2 - 0.5) * 2 - 2)]
    for the two values [r1], [r2] it draws from [Math.random()]: there the
    position is fixed by the state and the two draws together. *)
Theorem spawnModel_placement s modelName asset now children :
  State.sceneRef s = Some children ->
  State.isLoading s = false ->
  State.inflight s = [] ->
  let front (cam : Camera.t num) :=
    let p := Camera.position cam in
    let d := Camera.worldDirection cam in
    Vector3.mk (Vector3.x p ⊕ Vector3.x d ⊗ nlit 2)
               (Vector3.y p ⊕ Vector3.y d ⊗ nlit 2)
               (Vector3.z p ⊕ Vector3.z d ⊗ nlit 2) in
  (forall r1 r2 outcome,
     let s3 :=
       VariantA.onMind
         (VariantA.onLoad (VariantA.spawnModel s modelName) 0 asset r1 r2)
         0 outcome now in
     exists e o,
       State.arModels s3 = State.arModels s ++ [e] /\
       State.heap s3 !! ARModel.model e = Some o /\
       ARModel.position e = Object3D.position o /\
       Object3D.position o =
         match State.cameraRef s with
         | Some cam => front cam
         | None =>
             Vector3.mk ((r1 ⊖ nlit 0.5) ⊗ nlit 2) (nlit 0)
                        ((r2 ⊖ nlit 0.5) ⊗ nlit 2 ⊖ nlit 2)
         end) /\
  (let s2 := VariantB.onLoad (VariantB.spawnModel s modelName) 0 asset now in
   exists e o,
     State.arModels s2 = State.arModels s ++ [e] /\
     State.heap s2 !! ARModel.model e = Some o /\
     ARModel.position e = Object3D.position o /\
     Object3D.position o =
       match State.cameraRef s with
       | Some cam => front cam
       | None => Vector3.mk (nlit 0) (nlit 0) (nlit (-5))
       end).
Proof.
  intros Hsc Hl Hin front. split.
  - intros r1 r2 outcome s3.
    destruct (spawnA_success s modelName asset r1 r2 outcome now children
                Hsc Hl Hin) as (Hm & Hh & _).
    fold s3 in Hm, Hh.
    exists (newModel modelName (length (State.heap s)) (placedA s asset r1 r2) now),
           (placedA s asset r1 r2).
    split; [exact Hm|]. split.
    { rewrite Hh. simpl. now apply list_lookup_middle. }
    simpl. rewrite !placedA_position.
    unfold VariantA.positionModel. subst front.
    destruct (State.cameraRef s) as [cam|]; split; reflexivity.
  - intros s2.
    destruct (spawnB_success s modelName asset now children Hsc Hl Hin)
      as (Hm & Hh & _).
    fold s2 in Hm, Hh.
    exists (newModel modelName (length (State.heap s)) (placedB s asset) now),
           (placedB s asset).
    split; [exact Hm|]. split.
    { rewrite Hh. simpl. now apply list_lookup_middle. }
    simpl. rewrite ?placedB_position.
    unfold placedB, VariantB.positionModel. subst front.
    destruct (State.cameraRef s) as [cam|]; split; reflexivity.
Qed.

Lemma catalog_nonempty modelName : getModelMaterials modelName <> [].
Proof.
  destruct (getModelMaterials_cases modelName) as [E|[E|[E|E]]];
    rewrite E; discriminate.
Qed.

Lemma catalog_colors modelName :
  Forall (fun m => is_Some (Material.color m)) (getModelMaterials modelName).
Proof.
  destruct (getModelMaterials_cases modelName) as [E|[E|[E|E]]];
    rewrite E; repeat constructor; eexists; reflexivity.
Qed.

Lemma catalog_first modelName :
  exists m, head (getModelMaterials modelName) = Some m /\
            firstIdOrNull (getModelMaterials modelName) = Some (Material.id m).
Proof.
  destruct (getModelMaterials_cases modelName) as [E|[E|[E|E]]];
    rewrite E; eexists; split; reflexivity.
Qed.

(** C10.  Whatever the name, the catalog is not empty and every entry has a
    colour; so the model a successful call appends, in either variant,
    carries the catalog of its name and has the [id] of the catalog's first
    entry as its selected material. *)
Theorem spawned_model_selects_first_material modelName :
  getModelMaterials modelName <> [] /\
  Forall (fun m => is_Some (Material.color m)) (getModelMaterials modelName) /\
  (forall s asset now children,
     State.sceneRef s = Some children ->
     State.isLoading s = false ->
     State.inflight s = [] ->
     let selectsFirst (e : ARModel.t num) :=
       ARModel.materials e = getModelMaterials modelName /\
       exists m, head (ARModel.materials e) = Some m /\
                 ARModel.selectedMaterial e = Some (Material.id m) in
     (forall r1 r2 outcome,
        exists e,
          State.arModels
            (VariantA.onMind
               (VariantA.onLoad (VariantA.spawnModel s modelName) 0 asset r1 r2)
               0 outcome now)
          = State.arModels s ++ [e] /\ selectsFirst e) /\
     (exists e,
        State.arModels
          (VariantB.onLoad (VariantB.spawnModel s modelName) 0 asset now)
        = State.arModels s ++ [e] /\ selectsFirst e)).
Proof.
  split; [apply catalog_nonempty|]. split; [apply catalog_colors|].
  intros s asset now children Hsc Hl Hin selectsFirst.
  assert (Hnew : forall h g, selectsFirst (newModel modelName h g now)).
  { intros h g. subst selectsFirst. simpl. split; [reflexivity|].
    apply catalog_first. }
  split.
  - intros r1 r2 outcome.
    destruct (spawnA_success s modelName asset r1 r2 outcome now children
                Hsc Hl Hin) as (Hm & _).
    eexists. split; [exact Hm | apply Hnew].
  - destruct (spawnB_success s modelName asset now children Hsc Hl Hin)
      as (Hm & _).
    eexists. split; [exact Hm | apply Hnew].
Qed.

End Spawn.

(** ** Callbacks that write to the shared objects *)

Section MapStore.
Context {num : Type}.
Variable test : ARModel.t num -> bool.
Variable touch : ARModel.t num -> Object3D.t num -> Object3D.t num.
Variable upd : ARModel.t num -> option (Object3D.t num) -> ARModel.t num.

Local Abbreviation walk := (mapStore (visit test touch upd)).

Lemma mapStore_cons {A S : Type} (f : A -> S -> A * S) a l st :
  mapStore f (a :: l) st
  = ((f a st).1 :: (mapStore f l (f a st).2).1, (mapStore f l (f a st).2).2).
Proof.
  simpl. destruct (f a st) as [a' st']. simpl.
  destruct (mapStore f l st') as [r st'']. reflexivity.
Qed.

(** An object no passing model refers to is left as it was. *)
Lemma walk_frame l heap h :
  (forall m, In m l -> test m = true -> ARModel.model m <> h) ->
  (walk l heap).2 !! h = heap !! h.
Proof.
  revert heap. induction l as [|a l IH]; intros heap Hl; [reflexivity|].
  rewrite mapStore_cons. simpl. rewrite IH by (intros; apply Hl; simpl; auto).
  unfold visit. destruct (test a) eqn:Ht; simpl; [|reflexivity].
  apply list_lookup_alter_ne. apply Hl; simpl; auto.
Qed.


(** A passing model is rebuilt from its rewritten object, which stays as
    rewritten when no later model shares it. *)
Lemma walk_hit l heap i m :
  NoDup (List.map ARModel.model l) ->
  l !! i = Some m -> test m = true ->
  (walk l heap).2 !! ARModel.model m = touch m <$> heap !! ARModel.model m /\
  (walk l heap).1 !! i = Some (upd m (touch m <$> heap !! ARModel.model m)).
Proof.
  revert heap i. induction l as [|a l IH]; intros heap i Hnd Hi Ht; [discriminate|].
  simpl in Hnd. apply NoDup_cons in Hnd as [Hnotin Hnd].
  rewrite mapStore_cons. destruct i as [|i]; simpl in *.
  - inversion Hi; subst a.
    assert (Hv : visit test touch upd m heap
                 = (upd m (alter (touch m) (ARModel.model m) heap
                             !! ARModel.model m),
                    alter (touch m) (ARModel.model m) heap))
      by (unfold visit; now rewrite Ht).
    rewrite Hv. simpl. split; [|now rewrite list_lookup_alter_eq].
    rewrite walk_frame; [apply list_lookup_alter_eq|].
    intros m' Hm' _ Heq. apply Hnotin. rewrite <- Heq.
    apply list_elem_of_In, in_map, Hm'.
  - assert (Hne : ARModel.model a <> ARModel.model m).
    { intros Heq. apply Hnotin. rewrite Heq.
      apply list_elem_of_In, in_map. apply list_elem_of_In.
      eapply list_elem_of_lookup_2; eauto. }
    assert (Hsame : (visit test touch upd a heap).2 !! ARModel.model m
                    = heap !! ARModel.model m).
    { unfold visit. destruct (test a); simpl; [|reflexivity].
      now apply list_lookup_alter_ne. }
    rewrite <- Hsame. now apply IH.
Qed.

End MapStore.

(** ** Transforming and locking *)

Section Transform.
Context {num : Type} `{JsNumber num}.
Implicit Type s : State.t num.

Lemma mapStore_ext {A S : Type} (f g : A -> S -> A * S) l st :
  (forall a st', f a st' = g a st') -> mapStore f l st = mapStore g l st.
Proof.
  intros Hfg. revert st. induction l as [|a l IH]; intros st; [reflexivity|].
  simpl. rewrite Hfg. destruct (g a st) as [a' st']. now rewrite IH.
Qed.

Lemma NoDup_map_inj {A B : Type} (f : A -> B) (l : list A) a b :
  NoDup (List.map f l) -> In a l -> In b l -> f a = f b -> a = b.
Proof.
  induction l as [|c l IH]; simpl; [tauto|].
  intros Hnd Ha Hb Hab. apply NoDup_cons in Hnd as [Hnotin Hnd].
  destruct Ha as [->|Ha], Hb as [->|Hb]; auto.
  - exfalso. apply Hnotin. rewrite Hab. now apply list_elem_of_In, in_map.
  - exfalso. apply Hnotin. rewrite <- Hab. now apply list_elem_of_In, in_map.
Qed.

Lemma find_unique_key {A : Type} (key : A -> string) (l : list A) a :
  NoDup (List.map key l) -> In a l ->
  List.find (fun x => String.eqb (key x) (key a)) l = Some a.
Proof.
  induction l as [|c l IH]; simpl; [tauto|].
  intros Hnd Ha. apply NoDup_cons in Hnd as [Hnotin Hnd].
  destruct (String.eqb_spec (key c) (key a)) as [Heq|Hne].
  - destruct Ha as [->|Ha]; [reflexivity|].
    exfalso. apply Hnotin. rewrite Heq. now apply list_elem_of_In, in_map.
  - destruct Ha as [->|Ha]; [congruence | auto].
Qed.

Lemma find_unique_id (l : list (ARModel.t num)) e :
  NoDup (List.map ARModel.id l) -> In e l ->
  List.find (fun m => String.eqb (ARModel.id m) (ARModel.id e)) l = Some e.
Proof. apply (find_unique_key ARModel.id). Qed.

Lemma lookup_In {A : Type} (l : list A) i a : l !! i = Some a -> In a l.
Proof. intros Hi. apply list_elem_of_In. eapply list_elem_of_lookup_2; eauto. Qed.

Lemma moveOne_visit modelId delta m heap :
  VariantB.moveOne modelId delta m heap
  = visit (moveTest modelId) (moveTouch delta) moveUpd m heap.
Proof. reflexivity. Qed.

Lemma transformB_walk s modelId delta :
  let w := mapStore (visit (moveTest modelId) (moveTouch delta) moveUpd)
             (State.arModels s) (State.heap s) in
  State.arModels (VariantB.transformModel s modelId delta) = w.1 /\
  State.heap (VariantB.transformModel s modelId delta) = w.2.
Proof.
  unfold VariantB.transformModel.
  rewrite (mapStore_ext _ _ _ _ (moveOne_visit modelId delta)).
  destruct (mapStore _ _ _) as [models heap]. simpl. auto.
Qed.


(** Variant A hands the delta to the part of the object the mode names. *)
Lemma transformA_unlocked s i e delta o :
  State.arModels s !! i = Some e ->
  NoDup (List.map ARModel.id (State.arModels s)) ->
  ARModel.locked e = false ->
  State.heap s !! ARModel.model e = Some o ->
  let s' := VariantA.transformModel s (ARModel.id e) delta in
  State.heap s' !! ARModel.model e
    = Some (VariantA.applyDelta (State.controlMode s) delta o) /\
  accumulated (State.controlMode s) delta o
    (VariantA.applyDelta (State.controlMode s) delta o) /\
  State.arModels s' = State.arModels s /\
  State.controlMode s' = State.controlMode s.
Proof.
  intros Hi Hnd Hl Ho. cbv zeta.
  unfold VariantA.transformModel, VariantA.findModel.
  rewrite (find_unique_id _ e Hnd (lookup_In _ _ _ Hi)), Hl. simpl.
  rewrite list_lookup_alter_eq, Ho. repeat split.
  unfold accumulated. destruct (State.controlMode s); simpl; auto.
Qed.




End Transform.

(** ** Scaling compounds *)

Section ScaleCompounds.
Context {num : Type} `{JsNumber num}.


End ScaleCompounds.

(** ** Transforming, at concrete states and in exact arithmetic *)

Section TransformExact.


Lemma sample_ids mode :
  NoDup (List.map ARModel.id (State.arModels (Sample.state mode))).
Proof. apply NoDup_singleton. Qed.



Lemma orZero_Q (d : Q) : (orZero (Some d) == d)%Q.
Proof.
  unfold orZero, orElse. simpl.
  destruct (Qeq_bool d 0) eqn:E; simpl; [|reflexivity].
  apply Qeq_bool_eq in E. now rewrite E.
Qed.

(** The same read in exact arithmetic, where the two factors multiply out:
    one delta [d] multiplies every component of the object's scale by
    [1 + d * 0.1], two by [(1 + d * 0.1)^2], which for [d <> 0] is not
    [1 + 2 * d * 0.1]. *)
Lemma scale_deltas_exact (s : State.t Q) i e d dy dz o :
  State.arModels s !! i = Some e ->
  NoDup (List.map ARModel.id (State.arModels s)) ->
  ARModel.locked e = false ->
  State.controlMode s = ModeScale ->
  State.heap s !! ARModel.model e = Some o ->
  let delta := Delta.mk Q (Some d) dy dz in
  let f := (1 + d * 0.1)%Q in
  let s1 := VariantA.transformModel s (ARModel.id e) delta in
  let s2 := VariantA.transformModel s1 (ARModel.id e) delta in
  exists o1 o2,
    State.heap s1 !! ARModel.model e = Some o1 /\
    State.heap s2 !! ARModel.model e = Some o2 /\
    scaledBy f (Object3D.scale o) (Object3D.scale o1) /\
    scaledBy f (Object3D.scale o1) (Object3D.scale o2) /\
    scaledBy (f ^ 2) (Object3D.scale o) (Object3D.scale o2) /\
    (~ (d == 0)%Q -> ~ (f ^ 2 == 1 + 2 * d * 0.1)%Q).
Proof.
  intros Hi Hids Hl Hmode Ho delta f s1 s2.
  destruct (transformA_unlocked s i e delta o Hi Hids Hl Ho)
    as (Hh1 & _ & Hm1 & Hc1).
  fold s1 in Hh1, Hm1, Hc1.
  assert (Hi1 : State.arModels s1 !! i = Some e) by now rewrite Hm1.
  assert (Hids1 : NoDup (List.map ARModel.id (State.arModels s1)))
    by now rewrite Hm1.
  destruct (transformA_unlocked s1 i e delta _ Hi1 Hids1 Hl Hh1)
    as (Hh2 & _).
  fold s2 in Hh2. rewrite Hmode in Hh1. rewrite Hc1, Hmode in Hh2.
  eexists _, _. split; [exact Hh1|]. split; [exact Hh2|].
  pose proof (orZero_Q d) as Hd.
  assert (Hf : (nlit 1 ⊕ orZero (Some d) ⊗ nlit 0.1 == f)%Q).
  { subst f. simpl nlit. simpl nadd. simpl nmul. now rewrite Hd. }
  simpl Object3D.scale.
  unfold scaledBy, Vector3.multiplyScalar; simpl Vector3.x; simpl Vector3.y;
    simpl Vector3.z.
  simpl Delta.x.
  assert (Hg : (1 + orElse d 0%Q * 0.1 == f)%Q) by exact Hf.
  assert (Hpow : (f ^ 2 == f * f)%Q) by (simpl; ring).
  repeat split; try (rewrite ?Hg, ?Hpow; ring).
  intros Hne Heq. apply Hne. rewrite Hpow in Heq.
  assert (Hsq : (d * d == 0)%Q) by (subst f; lra).
  apply Qmult_integral in Hsq. tauto.
Qed.


End TransformExact.

Section DoubleExamples.
Import PrimFloat.


End DoubleExamples.

(** ** Selecting a material *)

Section ColourValue.

Lemma hexValue_table c : Js.hexValue c = hexDigitValue c.
Proof. destruct c as [[] [] [] [] [] [] [] []]; reflexivity. Qed.

Lemma hexPrefix_number digits : forall acc v,
  hexNumber digits = Some v ->
  Js.hexPrefix (Some acc) digits
  = Some (acc * 16 ^ Z.of_nat (String.length digits) + v)%Z.
Proof.
  induction digits as [|c rest IH]; intros acc v Hv; simpl in *.
  - inversion Hv. f_equal. lia.
  - rewrite hexValue_table.
    destruct (hexDigitValue c) as [d|]; [|discriminate].
    destruct (hexNumber rest) as [w|]; [|discriminate].
    inversion Hv; subst v. rewrite (IH _ w eq_refl). f_equal.
    rewrite Nat2Z.inj_succ, Z.pow_succ_r by lia. ring.
Qed.

Lemma hexDigit_plain c d :
  hexDigitValue c = Some d ->
  Ascii.is_space c = false /\ c <> "-"%char /\ c <> "+"%char /\
  c <> "x"%char /\ c <> "X"%char /\ c <> "#"%char.
Proof.
  destruct c as [[] [] [] [] [] [] [] []]; vm_compute; intros Hd;
    try discriminate Hd; repeat split; discriminate.
Qed.

(** On a non-empty string of hexadecimal digits, [parseInt(_, 16)] is the
    number the digits denote. *)
Lemma parseInt16_number digits v :
  digits <> "" -> hexNumber digits = Some v -> Js.parseInt16 digits = Some v.
Proof.
  intros Hne Hv. destruct digits as [|c rest]; [congruence|].
  assert (Hc : exists d, hexDigitValue c = Some d).
  { simpl in Hv. destruct (hexDigitValue c) as [d|]; [eauto | discriminate]. }
  destruct Hc as [d Hd].
  destruct (hexDigit_plain c d Hd) as (Hsp & Hminus & Hplus & _).
  assert (Hrest : match rest with
                  | String c2 _ => c2 <> "x"%char /\ c2 <> "X"%char
                  | EmptyString => True
                  end).
  { destruct rest as [|c2 rest2]; [exact I|]. simpl in Hv. rewrite Hd in Hv.
    destruct (hexDigitValue c2) as [d2|] eqn:Hd2; [|discriminate].
    destruct (hexDigit_plain c2 d2 Hd2) as (_ & _ & _ & Hx & HX & _). auto. }
  assert (Hprefix : Js.hexPrefix None (String c rest) = Some v).
  { simpl. rewrite hexValue_table, Hd. simpl in Hv. rewrite Hd in Hv.
    destruct (hexNumber rest) as [w|] eqn:Hw; [|discriminate].
    inversion Hv; subst v. rewrite (hexPrefix_number rest _ w Hw). reflexivity. }
  unfold Js.parseInt16. simpl Js.trimStart. rewrite Hsp.
  destruct c as [[] [] [] [] [] [] [] []]; try congruence;
    try (rewrite Hprefix; reflexivity).
  destruct rest as [|c2 rest2]; [rewrite Hprefix; reflexivity|].
  destruct Hrest as [Hx HX].
  destruct c2 as [[] [] [] [] [] [] [] []]; try congruence;
    rewrite Hprefix; reflexivity.
Qed.

Lemma removeFirst_hash digits : Js.removeFirst "#" (String "#" digits) = digits.
Proof. reflexivity. Qed.

Lemma colorHex_number material digits v :
  Material.color material = Some (String "#" digits) ->
  digits <> "" -> hexNumber digits = Some v ->
  VariantA.colorHex material = Some v.
Proof.
  intros Hc Hne Hv. unfold VariantA.colorHex. rewrite Hc, removeFirst_hash.
  destruct digits as [|c rest]; [congruence|]. simpl String.eqb.
  now apply parseInt16_number.
Qed.

End ColourValue.

Section MaterialSelect.
Context {num : Type} `{JsNumber num}.
Implicit Type s : State.t num.

Lemma selectMaterial_visit modelId materialId (m : ARModel.t num) heap :
  VariantA.selectMaterial modelId materialId m heap
  = visit (selectTest modelId) (selectTouch materialId)
          (selectUpd materialId) m heap.
Proof.
  unfold VariantA.selectMaterial, visit, selectTest, selectTouch, selectUpd.
  destruct (String.eqb (ARModel.id m) modelId); [|reflexivity].
  destruct (List.find _ (ARModel.materials m)); [reflexivity|].
  now rewrite list_alter_id.
Qed.

Lemma handleMaterialSelect_walk s modelId materialId :
  let w := mapStore (visit (selectTest modelId) (selectTouch materialId)
                       (selectUpd materialId))
             (State.arModels s) (State.heap s) in
  let s' := VariantA.handleMaterialSelect s modelId materialId in
  State.arModels s' = w.1 /\ State.heap s' = w.2 /\
  State.toasts s'
    = State.toasts s ++
      [Toast.mk num "Material Applied"
         [Toast.Str "Model material has been updated successfully."] None None].
Proof.
  cbv zeta. unfold VariantA.handleMaterialSelect.
  rewrite (mapStore_ext _ _ _ _ (selectMaterial_visit modelId materialId)).
  destruct (mapStore _ _ _) as [models heap]. simpl. auto.
Qed.

Lemma catalog_ids_unique modelName :
  NoDup (List.map Material.id (getModelMaterials modelName)).
Proof.
  destruct (getModelMaterials_cases modelName) as [E|[E|[E|E]]]; rewrite E;
    apply (bool_decide_unpack _); vm_compute; reflexivity.
Qed.

(** C9.  Selecting a material of a model's own catalog records the
    selection in the model's record, whether the model is locked or not, and
    changes nothing else in the record.  When the model's object is a mesh,
    the mesh's colour becomes the number the descriptor's colour denotes:
    for a colour [#] followed by hexadecimal digits, the number those digits
    spell; position, rotation, scale and shadow flags stay.  An object that
    is no mesh stays as it is. *)
Theorem handleMaterialSelect_records_selection s i e material :
  State.arModels s !! i = Some e -> handlesOk s ->
  In material (ARModel.materials e) ->
  NoDup (List.map Material.id (ARModel.materials e)) ->
  let materialId := Material.id material in
  let s' := VariantA.handleMaterialSelect s (ARModel.id e) materialId in
  State.arModels s' !! i
    = Some (ARModel.with_selectedMaterial (Some materialId) e) /\
  (forall e', State.arModels s' !! i = Some e' ->
     ARModel.selectedMaterial e' = Some materialId /\
     ARModel.locked e' = ARModel.locked e) /\
  (forall o, State.heap s !! ARModel.model e = Some o ->
     State.heap s' !! ARModel.model e
       = Some (if Object3D.isMesh o
               then Object3D.setHex (VariantA.colorHex material) o
               else o)) /\
  (forall c, Material.color material = Some (String "#" c) -> c <> "" ->
     VariantA.colorHex material = Js.parseInt16 c) /\
  (forall o, State.heap s !! ARModel.model e = Some o ->
     exists o',
       State.heap s' !! ARModel.model e = Some o' /\
       Object3D.kind_of o'
         = match Object3D.kind_of o with
           | Object3D.Mesh _ => Object3D.Mesh (VariantA.colorHex material)
           | Object3D.Group => Object3D.Group
           end /\
       Object3D.position o' = Object3D.position o /\
       Object3D.rotation o' = Object3D.rotation o /\
       Object3D.scale o' = Object3D.scale o /\
       Object3D.castShadow o' = Object3D.castShadow o /\
       Object3D.receiveShadow o' = Object3D.receiveShadow o) /\
  (forall o previous digits v,
     State.heap s !! ARModel.model e = Some o ->
     Object3D.kind_of o = Object3D.Mesh previous ->
     Material.color material = Some (String "#" digits) ->
     digits <> "" -> hexNumber digits = Some v ->
     exists o',
       State.heap s' !! ARModel.model e = Some o' /\
       Object3D.kind_of o' = Object3D.Mesh (Some v)).
Proof.
  intros Hi [Hnd _] Hmat Hcat materialId s'.
  destruct (handleMaterialSelect_walk s (ARModel.id e) materialId)
    as (Hm & Hh & _).
  fold s' in Hm, Hh.
  assert (Ht : selectTest (ARModel.id e) e = true)
    by (unfold selectTest; apply String.eqb_refl).
  destruct (walk_hit (selectTest (ARModel.id e)) (selectTouch materialId)
              (selectUpd materialId) _ (State.heap s) i e Hnd Hi Ht)
    as [Hwh Hwm].
  assert (Hsel : State.arModels s' !! i
                 = Some (ARModel.with_selectedMaterial (Some materialId) e))
    by (rewrite Hm; exact Hwm).
  assert (Hobj : forall o, State.heap s !! ARModel.model e = Some o ->
            State.heap s' !! ARModel.model e
            = Some (if Object3D.isMesh o
                    then Object3D.setHex (VariantA.colorHex material) o
                    else o)).
  { intros o Ho. rewrite Hh, Hwh, Ho. simpl. unfold selectTouch.
    subst materialId.
    now rewrite (find_unique_key Material.id _ material Hcat Hmat). }
  assert (Hfields : forall o, State.heap s !! ARModel.model e = Some o ->
            exists o',
              State.heap s' !! ARModel.model e = Some o' /\
              Object3D.kind_of o'
                = match Object3D.kind_of o with
                  | Object3D.Mesh _ => Object3D.Mesh (VariantA.colorHex material)
                  | Object3D.Group => Object3D.Group
                  end /\
              Object3D.position o' = Object3D.position o /\
              Object3D.rotation o' = Object3D.rotation o /\
              Object3D.scale o' = Object3D.scale o /\
              Object3D.castShadow o' = Object3D.castShadow o /\
              Object3D.receiveShadow o' = Object3D.receiveShadow o).
  { intros o Ho. eexists. split; [exact (Hobj o Ho)|].
    unfold Object3D.isMesh. destruct (Object3D.kind_of o) eqn:Hk;
      simpl; rewrite ?Hk; repeat split. }
  split; [exact Hsel|]. split; [|split; [exact Hobj|split; [|split]]].
  - intros e' He'. rewrite Hsel in He'. inversion He'. auto.
  - intros c Hc Hne. unfold VariantA.colorHex. rewrite Hc. simpl.
    destruct c; [congruence | reflexivity].
  - exact Hfields.
  - intros o previous digits v Ho Hk Hc Hne Hv.
    destruct (Hfields o Ho) as (o' & Ho' & Hk' & _).
    exists o'. split; [exact Ho'|]. rewrite Hk', Hk.
    now rewrite (colorHex_number material digits v Hc Hne Hv).
Qed.

End MaterialSelect.

(** ** Every reachable state keeps the models' objects apart *)

Section Handles.
Context {num : Type} `{JsNumber num}.
Implicit Type s : State.t num.

Lemma handlesOk_frame s s' :
  List.map ARModel.model (State.arModels s')
    = List.map ARModel.model (State.arModels s) ->
  length (State.heap s) <= length (State.heap s') ->
  handlesOk s -> handlesOk s'.
Proof.
  unfold handlesOk. intros Hm Hlen [Hnd Hlt]. rewrite Hm. split; [exact Hnd|].
  apply (Forall_fmap ARModel.model (fun h => h < length (State.heap s'))).
  change (ARModel.model <$> State.arModels s')
    with (List.map ARModel.model (State.arModels s')).
  rewrite Hm.
  apply (Forall_fmap ARModel.model (fun h => h < length (State.heap s'))).
  eapply Forall_impl; [exact Hlt|]. simpl. intros m Hlt'. lia.
Qed.

(** A new model that refers to a newly stored object. *)
Lemma handlesOk_add s s' e o :
  State.arModels s' = State.arModels s ++ [e] ->
  State.heap s' = State.heap s ++ [o] ->
  ARModel.model e = length (State.heap s) ->
  handlesOk s -> handlesOk s'.
Proof.
  unfold handlesOk. intros -> -> He [Hnd Hlt]. split.
  - rewrite map_app. simpl. apply NoDup_app. split; [exact Hnd|].
    split; [|apply NoDup_singleton].
    intros h Hh Hin. apply list_elem_of_singleton in Hin. subst h.
    apply list_elem_of_fmap in Hh as (m & Hm & Hin).
    rewrite Forall_forall in Hlt. specialize (Hlt m Hin). lia.
  - rewrite length_app. simpl. apply Forall_app. split.
    + eapply Forall_impl; [exact Hlt|]. simpl. intros m Hm. lia.
    + constructor; [lia | constructor].
Qed.

Lemma map_model_toggle (l : list (ARModel.t num)) modelId :
  List.map ARModel.model
    (List.map (fun model =>
       if String.eqb (ARModel.id model) modelId
       then ARModel.with_locked (negb (ARModel.locked model)) model
       else model) l)
  = List.map ARModel.model l.
Proof.
  rewrite map_map. apply map_ext. intros m.
  now destruct (String.eqb (ARModel.id m) modelId).
Qed.

Section Walk.
Variable test : ARModel.t num -> bool.
Variable touch : ARModel.t num -> Object3D.t num -> Object3D.t num.
Variable upd : ARModel.t num -> option (Object3D.t num) -> ARModel.t num.
Hypothesis upd_model : forall m o, ARModel.model (upd m o) = ARModel.model m.

Lemma walk_models l heap :
  List.map ARModel.model (mapStore (visit test touch upd) l heap).1
  = List.map ARModel.model l.
Proof.
  revert heap. induction l as [|a l IH]; intros heap; [reflexivity|].
  rewrite mapStore_cons. simpl. rewrite IH. f_equal.
  unfold visit. destruct (test a); simpl; [apply upd_model | reflexivity].
Qed.

Lemma walk_heap_length l heap :
  length (mapStore (visit test touch upd) l heap).2 = length heap.
Proof.
  revert heap. induction l as [|a l IH]; intros heap; [reflexivity|].
  rewrite mapStore_cons. simpl. rewrite IH.
  unfold visit. destruct (test a); simpl; [apply length_alter | reflexivity].
Qed.
End Walk.

Lemma handlesOk_stepA s e : handlesOk s -> handlesOk (VariantA.step s e).
Proof.
  intros Hs. destruct e; simpl; try exact Hs.
  - unfold VariantA.startCamera. destruct granted, video; try exact Hs.
    revert Hs. apply handlesOk_frame; simpl; [reflexivity|].
    rewrite length_app. lia.
  - unfold VariantA.spawnModel.
    destruct (State.sceneRef s); [destruct (State.isLoading s)|]; exact Hs.
  - unfold VariantA.onProgress.
    case_pending; exact Hs.
  - unfold VariantA.onLoad.
    case_pending; exact Hs.
  - unfold VariantA.onError.
    case_pending; exact Hs.
  - unfold VariantA.onMind.
    case_pending; try exact Hs.
    destruct outcome; simpl;
      (destruct (State.sceneRef s); [|exact Hs]);
      (eapply handlesOk_add; [| | |exact Hs]; reflexivity).
  - revert Hs. apply handlesOk_frame; simpl; [apply map_model_toggle | lia].
  - unfold VariantA.transformModel.
    destruct (VariantA.findModel s modelId) as [m|]; [|exact Hs].
    destruct (ARModel.locked m); [exact Hs|].
    revert Hs. apply handlesOk_frame; simpl; [reflexivity|].
    now rewrite length_alter.
  - destruct (handleMaterialSelect_walk s modelId materialId) as (Hm & Hh & _).
    revert Hs. apply handlesOk_frame.
    + rewrite Hm. now apply walk_models.
    + rewrite Hh, walk_heap_length. lia.
Qed.

Lemma handlesOk_stepB s e : handlesOk s -> handlesOk (VariantB.step s e).
Proof.
  intros Hs. destruct e; simpl; try exact Hs.
  - unfold VariantB.initScene. destruct mounted; exact Hs.
  - unfold VariantB.startCamera. destruct video, granted; exact Hs.
  - unfold VariantB.spawnModel.
    destruct (State.sceneRef s); [destruct (State.isLoading s)|]; exact Hs.
  - unfold VariantB.onProgress.
    case_pending; exact Hs.
  - unfold VariantB.onLoad.
    case_pending; try exact Hs.
    destruct (State.sceneRef s); [|exact Hs].
    eapply handlesOk_add; [| | |exact Hs]; reflexivity.
  - unfold VariantB.onError.
    case_pending; exact Hs.
  - unfold VariantB.toggleSelected.
    destruct (State.selectedModel s); [|exact Hs].
    destruct (List.find _ _); [|exact Hs].
    revert Hs. apply handlesOk_frame; simpl; [apply map_model_toggle | lia].
  - unfold VariantB.removeSelected.
    destruct (State.selectedModel s) as [sel|]; [|exact Hs].
    destruct Hs as [Hnd Hlt]. split; simpl.
    + clear Hlt. induction (State.arModels s) as [|a l IH]; [constructor|].
      simpl in *. apply NoDup_cons in Hnd as [Hnotin Hnd].
      destruct (negb (String.eqb (ARModel.id a) sel)); [|auto].
      simpl. apply NoDup_cons. split; [|auto].
      intros Hin. apply Hnotin.
      apply list_elem_of_fmap in Hin as (m & Hm & Hin).
      apply list_elem_of_In, filter_In in Hin as [Hin _].
      rewrite Hm. now apply list_elem_of_In, in_map.
    + apply Forall_forall. intros m Hm.
      apply list_elem_of_In, filter_In in Hm as [Hm _].
      rewrite Forall_forall in Hlt. now apply Hlt, list_elem_of_In.
  - destruct (transformB_walk s modelId delta) as [Hm Hh].
    revert Hs. apply handlesOk_frame.
    + rewrite Hm. apply walk_models. reflexivity.
    + rewrite Hh, walk_heap_length. lia.
Qed.

(** X12.  References stay sound.  In every state either variant of the
    component can reach, every placed model refers to an object that is in
    the store, and no two placed models refer to the same object: the
    hypothesis [handlesOk] of the statements above always holds. *)
Lemma handlesOk_run :
  (forall es, handlesOk (VariantA.run (num := num) es)) /\
  (forall es, handlesOk (VariantB.run (num := num) es)).
Proof.
  assert (Hinit : handlesOk (State.initial (num := num)))
    by (split; simpl; constructor).
  split; intros es.
  - unfold VariantA.run.
    apply (fold_left_invariant handlesOk VariantA.step);
      [apply handlesOk_stepA | exact Hinit].
  - unfold VariantB.run.
    apply (fold_left_invariant handlesOk VariantB.step);
      [apply handlesOk_stepB | exact Hinit].
Qed.

End Handles.

(** ** The viewer at concrete states *)

Section ViewerExamples.

(** After the camera has started and [chair] was requested, the error
    callback ends the only suspended call and [sofa] is taken up. *)
Lemma spawnModel_one_load_at_a_time_witness :
  let es := [VariantA.StartCamera true true; VariantA.Spawn "chair"] in
  let s' := VariantA.onError (VariantA.run (num := Q) es) 0 in
  State.inflight (VariantA.run (num := Q) es)
    = [Pending.mk Q "chair" Pending.AwaitGlb] /\
  State.isLoading s' = false /\ State.inflight s' = [] /\
  State.inflight (VariantA.spawnModel s' "sofa")
    = [Pending.mk Q "sofa" Pending.AwaitGlb] /\
  State.isLoading (VariantA.spawnModel s' "sofa") = true.
Proof.
  intros es s'. split; [reflexivity|].
  exact (proj1 (proj2 (proj2 (proj1 (@spawnModel_one_load_at_a_time Q _)))
                  es _ "sofa" eq_refl) eq_refl).
Defined.

(** A failed load of [lamp] in variant B. *)
Lemma spawnModel_failure_leaves_scene_witness :
  let s := VariantB.spawnModel Sample.noCamera "lamp" in
  let s' := VariantB.onError s 0 in
  State.inflight s !! 0 = Some (Pending.mk Q "lamp" Pending.AwaitGlb) /\
  sceneState s' = sceneState Sample.noCamera /\
  State.toasts s'
    = State.toasts s ++
      [Toast.mk Q "Error"
         [Toast.Str "Failed to load lamp. Please try again."]
         (Some Toast.Destructive) None] /\
  State.isLoading s' = false.
Proof.
  intros s s'. split; [reflexivity|]. split; [reflexivity|].
  pose proof (proj2 (proj2 (proj2
    (proj2 (@spawnModel_failure_leaves_scene Q _) s))) 0 "lamp" eq_refl)
    as (Ht & Hl & _).
  split; [exact Ht | exact Hl].
Defined.

(** With the sample camera at [z = 5] looking down the z axis, variant B
    places the model at [z = 5 + (-1) * 2]. *)
Lemma spawnModel_placement_witness :
  let s := Sample.state ModeMove in
  let s2 := VariantB.onLoad (VariantB.spawnModel s "sofa") 0 Sample.asset 1%N in
  exists e o,
    State.arModels s2 = State.arModels s ++ [e] /\
    State.heap s2 !! ARModel.model e = Some o /\
    ARModel.position e = Object3D.position o /\
    Object3D.position o
      = Vector3.mk (0 + 0 * 2)%Q (0 + 0 * 2)%Q (5 + (-1) * 2)%Q.
Proof.
  exact (proj2 (spawnModel_placement (Sample.state ModeMove) "sofa"
                  Sample.asset 1%N [0] eq_refl eq_refl eq_refl)).
Defined.

(** The claim that the fallback position is fixed by the state fails for
    variant A: from one and the same state without a camera, two runs that
    differ only in what [Math.random()] returns place the model at different
    positions. *)
Lemma spawnModel_fallback_depends_on_random :
  let spawn (r1 r2 : Q) :=
    VariantA.onMind
      (VariantA.onLoad (VariantA.spawnModel Sample.noCamera "lamp") 0
         Sample.asset r1 r2)
      0 MindNotOk 1700000000000%N in
  State.cameraRef Sample.noCamera = None /\
  exists p q,
    List.map ARModel.position (State.arModels (spawn 0%Q 0%Q)) = [p] /\
    List.map ARModel.position (State.arModels (spawn 0.5%Q 0.5%Q)) = [q] /\
    ~ (Vector3.x p == Vector3.x q)%Q /\ ~ (Vector3.z p == Vector3.z q)%Q.
Proof.
  intros spawn. split; [reflexivity|].
  eexists _, _. split; [reflexivity|]. split; [reflexivity|].
  split; intros Heq; vm_compute in Heq; discriminate Heq.
Qed.

(** A successful spawn of [chair] selects the first chair material. *)
Lemma spawned_model_selects_first_material_witness :
  let s := Sample.state ModeMove in
  exists e,
    State.arModels
      (VariantB.onLoad (VariantB.spawnModel s "chair") 0 Sample.asset 1%N)
    = State.arModels s ++ [e] /\
    ARModel.materials e = getModelMaterials "chair" /\
    exists m, head (ARModel.materials e) = Some m /\
              ARModel.selectedMaterial e = Some (Material.id m).
Proof.
  exact (proj2 (proj2 (proj2 (@spawned_model_selects_first_material Q _ "chair"))
                  (Sample.state ModeMove) Sample.asset 1%N [0]
                  eq_refl eq_refl eq_refl)).
Defined.

Lemma sample_locked_handlesOk : handlesOk Sample.lockedState.
Proof.
  split; simpl.
  - apply NoDup_singleton.
  - repeat constructor.
Qed.

(** Black leather on the locked sample model: the selection is recorded and
    the white mesh takes the colour [0x1a1a1a], the number 1710618. *)
Lemma handleMaterialSelect_records_selection_witness :
  let e := ARModel.with_locked true Sample.model in
  let s' :=
    VariantA.handleMaterialSelect Sample.lockedState (ARModel.id e)
      "leather-black" in
  ARModel.locked e = true /\
  State.arModels s' !! 0
    = Some (ARModel.with_selectedMaterial (Some "leather-black") e) /\
  State.heap s' !! ARModel.model e
    = Some (Object3D.setHex (Some 1710618%Z) Sample.object) /\
  Object3D.kind_of Sample.object = Object3D.Mesh (Some 16777215%Z) /\
  hexNumber "1a1a1a" = Some 1710618%Z /\
  exists o',
    State.heap s' !! ARModel.model e = Some o' /\
    Object3D.kind_of o' = Object3D.Mesh (Some 1710618%Z).
Proof.
  intros e s'. split; [reflexivity|].
  pose proof (handleMaterialSelect_records_selection Sample.lockedState 0 e
    (mkMaterial "leather-black" "Black Leather" (Some "#1a1a1a") None
       "linear-gradient(135deg, #1a1a1a, #333333)")
    eq_refl sample_locked_handlesOk
    (or_intror (or_introl eq_refl))
    (catalog_ids_unique "chair")) as (Hsel & _ & Hobj & _ & _ & Hcolour).
  split; [exact Hsel|]. split; [exact (Hobj Sample.object eq_refl)|].
  split; [reflexivity|]. split; [reflexivity|].
  refine (Hcolour Sample.object (Some 16777215%Z) "1a1a1a" 1710618%Z
            eq_refl eq_refl eq_refl _ eq_refl).
  discriminate.
Defined.

End ViewerExamples.

(** ** The asset indexer *)

Section Suffix.

Lemma append_cons c (a b : string) : String c a +:+ b = String c (a +:+ b).
Proof. reflexivity. Qed.

Lemma append_nil (b : string) : "" +:+ b = b.
Proof. reflexivity. Qed.

Lemma length_append (a b : string) :
  String.length (a +:+ b) = String.length a + String.length b.
Proof.
  induction a as [|c a IH]; [reflexivity|].
  rewrite append_cons. simpl. now rewrite IH.
Qed.

Lemma substring_skip (pre pat : string) :
  String.substring (String.length pre) (String.length pat) (pre +:+ pat) = pat.
Proof.
  induction pre as [|c pre IH]; [|rewrite append_cons; exact IH].
  rewrite append_nil. simpl.
  induction pat as [|c pat IH]; simpl; [reflexivity | now rewrite IH].
Qed.

Lemma substring_split (s : string) m :
  m <= String.length s ->
  s = String.substring 0 m s +:+ String.substring m (String.length s - m) s.
Proof.
  revert m. induction s as [|c s IH]; intros m Hm; simpl in *.
  - assert (m = 0) by lia. subst m. reflexivity.
  - destruct m as [|m]; simpl.
    + rewrite append_nil. f_equal. clear.
      induction s as [|d s IH]; simpl; [reflexivity|]. now rewrite <- IH.
    + rewrite append_cons. f_equal. apply IH. lia.
Qed.

(** [endsWith] decides the suffix relation. *)
Lemma endsWith_spec s pat : endsWith s pat = true <-> hasSuffix s pat.
Proof.
  unfold endsWith, hasSuffix. split.
  - destruct (Nat.leb_spec (String.length pat) (String.length s)) as [Hle|];
      [|discriminate].
    intros Heq. apply String.eqb_eq in Heq.
    exists (String.substring 0 (String.length s - String.length pat) s).
    remember (String.length pat) as k eqn:Hk.
    remember (String.length s - k) as m eqn:Hm.
    rewrite <- Heq. replace k with (String.length s - m) by lia.
    apply substring_split. lia.
  - intros [pre ->]. rewrite length_append.
    destruct (Nat.leb_spec (String.length pat)
                (String.length pre + String.length pat)); [|lia].
    replace (String.length pre + String.length pat - String.length pat)
      with (String.length pre) by lia.
    rewrite substring_skip. apply String.eqb_refl.
Qed.

End Suffix.

Section Sorting.

Lemma leb_le a b : String.leb a b = true <-> String.le a b.
Proof. unfold String.le. destruct (String.leb a b); simpl; intuition congruence. Qed.

Lemma insert_perm x l : JsArray.insert x l ≡ₚ x :: l.
Proof.
  induction l as [|y l IH]; simpl; [reflexivity|].
  destruct (String.leb x y); [reflexivity|].
  rewrite IH. apply Permutation_swap.
Qed.

Lemma sort_perm l : JsArray.sort l ≡ₚ l.
Proof.
  induction l as [|x l IH]; simpl; [reflexivity|].
  rewrite insert_perm. now rewrite IH.
Qed.

Lemma insert_sorted x l :
  StronglySorted String.le l -> StronglySorted String.le (JsArray.insert x l).
Proof.
  induction 1 as [|y l Hl IH Hy]; simpl; [repeat constructor|].
  destruct (String.leb x y) eqn:E.
  - apply leb_le in E. constructor; [now constructor|].
    constructor; [exact E|].
    eapply Forall_impl; [exact Hy|]. intros z Hz. now transitivity y.
  - constructor; [exact IH|].
    assert (Hyx : String.le y x).
    { destruct (total String.le x y) as [Hxy|Hyx]; [|exact Hyx].
      apply leb_le in Hxy. congruence. }
    rewrite insert_perm. now constructor.
Qed.

Lemma sort_sorted l : StronglySorted String.le (JsArray.sort l).
Proof.
  induction l as [|x l IH]; simpl; [constructor | now apply insert_sorted].
Qed.

(** The sorted array is fixed by which strings the input holds. *)
Lemma sort_unique l k :
  NoDup l -> NoDup k -> (forall x, x ∈ l <-> x ∈ k) ->
  JsArray.sort l = JsArray.sort k.
Proof.
  intros Hl Hk Hlk.
  apply (StronglySorted_unique String.le); try apply sort_sorted.
  rewrite !sort_perm. now apply NoDup_Permutation.
Qed.

Lemma ltb_le_ne a b : String.ltb a b = true <-> String.le a b /\ a <> b.
Proof.
  unfold String.le, String.leb, String.ltb.
  destruct (String.compare a b) eqn:E; simpl.
  - apply String.compare_eq_iff in E. intuition congruence.
  - split; [|reflexivity]. intros _. split; [exact I|].
    intros ->. pose proof (String.compare_antisym b b) as Ha.
    rewrite E in Ha. discriminate Ha.
  - split; [discriminate | intros [[] _]].
Qed.

(** Without repetitions the sorted array ascends strictly. *)
Lemma sort_ascending l : NoDup l -> ascending (JsArray.sort l).
Proof.
  intros Hnd. assert (Hs := sort_sorted l).
  assert (Hnd' : NoDup (JsArray.sort l)) by now rewrite sort_perm.
  unfold ascending. induction Hs as [|y k Hk IH Hy]; [constructor|].
  apply NoDup_cons in Hnd' as [Hnotin Hnd'].
  constructor; [now apply IH|].
  apply Forall_forall. intros z Hz. apply ltb_le_ne. split.
  - rewrite Forall_forall in Hy. now apply Hy.
  - intros ->. contradiction.
Qed.

End Sorting.

Section FsFacts.
Implicit Types (fs : Fs.t) (p q : Fs.path).

Lemma childName_spec p q n : Fs.childName p q = Some n <-> q = p ++ [n].
Proof.
  revert q; induction p as [|a p IH]; intros q; simpl.
  - destruct q as [|b [|c q]]; split; intros Hq;
      try discriminate; inversion Hq; reflexivity.
  - destruct q as [|b q]; [split; discriminate|].
    destruct (String.eqb_spec a b) as [->|Hne].
    + rewrite IH. split; [intros ->; reflexivity|].
      intros Heq; inversion Heq; reflexivity.
    + split; [discriminate|]. intros Heq; inversion Heq; congruence.
Qed.

(** [readdirSync] lists exactly the names below the directory. *)
Lemma elem_of_entries fs p n :
  n ∈ Fs.entries fs p <-> is_Some (fs !! (p ++ [n])).
Proof.
  unfold Fs.entries. rewrite list_elem_of_omap. split.
  - intros [[q v] [Hin Hc]]. simpl in Hc. apply childName_spec in Hc as ->.
    apply elem_of_map_to_list in Hin. eauto.
  - intros [v Hv]. exists (p ++ [n], v). split.
    + now apply elem_of_map_to_list.
    + now apply childName_spec.
Qed.

Lemma NoDup_entries fs p : NoDup (Fs.entries fs p).
Proof.
  unfold Fs.entries. generalize (NoDup_fst_map_to_list fs).
  generalize (map_to_list fs) as l.
  induction l as [|[q v] l IH]; intros Hnd; [constructor|].
  rewrite fmap_cons in Hnd. apply NoDup_cons in Hnd as [Hnotin Hnd].
  simpl. destruct (Fs.childName p q) as [n|] eqn:Hc; [|auto].
  apply NoDup_cons. split; [|auto].
  rewrite list_elem_of_omap. intros [[q' v'] [Hin Hc']]. simpl in Hc'.
  apply childName_spec in Hc as ->. apply childName_spec in Hc' as ->.
  apply Hnotin. apply list_elem_of_fmap. exists (p ++ [n], v'). auto.
Qed.

Lemma prefix_cons_nonempty {A} (k : list A) c todo :
  k `prefix_of` c :: todo -> k <> [] ->
  exists k', k = c :: k' /\ k' `prefix_of` todo.
Proof.
  destruct k as [|a k]; [congruence|]. intros Hk _.
  pose proof (prefix_cons_inv_1 _ _ _ _ Hk) as ->.
  apply prefix_cons_inv_2 in Hk. eauto.
Qed.

(** [mkdirSync] with [recursive] succeeds unless a regular file is in the
    way; it makes the missing directories and touches nothing else. *)
Lemma mkdirs_spec todo : forall done fs,
  (forall k content, k `prefix_of` todo -> k <> [] ->
     fs !! (done ++ k) <> Some (Fs.File content)) ->
  exists fs',
    Fs.mkdirs fs done todo = inr fs' /\
    (forall k, k `prefix_of` todo -> k <> [] ->
       fs' !! (done ++ k) = Some Fs.Dir) /\
    (forall q, (forall k, k `prefix_of` todo -> k <> [] -> q <> done ++ k) ->
       fs' !! q = fs !! q) /\
    (forall q v, fs !! q = Some v -> fs' !! q = Some v).
Proof.
  induction todo as [|c todo IH]; intros done fs Hfs; simpl.
  - exists fs. split; [reflexivity|]. split; [|split; auto].
    intros k Hk Hne. apply prefix_nil_inv in Hk. contradiction.
  - assert (Hc : [c] `prefix_of` c :: todo) by (apply prefix_cons, prefix_nil).
    assert (Hshift : forall k, (done ++ [c]) ++ k = done ++ c :: k)
      by (intros k; now rewrite <- app_assoc).
    destruct (fs !! (done ++ [c])) as [[content|]|] eqn:Hd.
    + exfalso. eapply (Hfs [c]); eauto.
    + destruct (IH (done ++ [c]) fs) as (fs' & Hrun & Hdirs & Hframe & Hmono).
      { intros k content Hk Hne. rewrite Hshift.
        apply Hfs; [now apply prefix_cons | discriminate]. }
      exists fs'. split; [exact Hrun|]. split; [|split; [|exact Hmono]].
      * intros k Hk Hne.
        destruct (prefix_cons_nonempty k c todo Hk Hne) as (k' & -> & Hk').
        destruct k' as [|a k']; [now apply Hmono|].
        rewrite <- Hshift. apply Hdirs; [exact Hk' | discriminate].
      * intros q Hq. apply Hframe. intros k Hk Hne. rewrite Hshift.
        apply Hq; [now apply prefix_cons | discriminate].
    + destruct (IH (done ++ [c]) (<[done ++ [c] := Fs.Dir]> fs))
        as (fs' & Hrun & Hdirs & Hframe & Hmono).
      { intros k content Hk Hne. rewrite lookup_insert_ne.
        - rewrite Hshift. apply Hfs; [now apply prefix_cons | discriminate].
        - intros Heq. apply (f_equal length) in Heq.
          rewrite !length_app in Heq. destruct k; [congruence|].
          simpl in Heq. lia. }
      exists fs'. split; [exact Hrun|]. split; [|split].
      * intros k Hk Hne.
        destruct (prefix_cons_nonempty k c todo Hk Hne) as (k' & -> & Hk').
        destruct k' as [|a k'].
        -- apply Hmono. apply lookup_insert_eq.
        -- rewrite <- Hshift. apply Hdirs; [exact Hk' | discriminate].
      * intros q Hq. rewrite Hframe.
        -- apply lookup_insert_ne. intros Heq. apply (Hq [c]); auto.
        -- intros k Hk Hne. rewrite Hshift.
           apply Hq; [now apply prefix_cons | discriminate].
      * intros q v Hv. apply Hmono. rewrite lookup_insert_ne; [exact Hv|].
        intros Heq. congruence.
Qed.

(** A successful [mkdirs] found no regular file in its way. *)
Lemma mkdirs_inv todo : forall done fs fs',
  Fs.mkdirs fs done todo = inr fs' ->
  forall k content, k `prefix_of` todo -> k <> [] ->
    fs !! (done ++ k) <> Some (Fs.File content).
Proof.
  induction todo as [|c todo IH]; intros done fs fs' Hrun k content Hk Hne.
  - apply prefix_nil_inv in Hk. contradiction.
  - destruct (prefix_cons_nonempty k c todo Hk Hne) as (k' & -> & Hk').
    simpl in Hrun.
    assert (Hshift : (done ++ [c]) ++ k' = done ++ c :: k')
      by now rewrite <- app_assoc.
    destruct (fs !! (done ++ [c])) as [[content'|]|] eqn:Hd; [discriminate| |].
    + destruct k' as [|a k']; [congruence|].
      rewrite <- Hshift. eapply IH; eauto.
    + destruct k' as [|a k']; [congruence|].
      rewrite <- Hshift.
      erewrite <- (lookup_insert_ne fs (done ++ [c])).
      * eapply IH; eauto.
      * intros Heq. apply (f_equal length) in Heq.
        rewrite !length_app in Heq. simpl in Heq. lia.
Qed.


Lemma writeFileSync_spec fs p n content :
  Fs.stat fs p = Some Fs.Dir -> fs !! (p ++ [n]) <> Some Fs.Dir ->
  Fs.writeFileSync fs (p ++ [n]) content
  = inr (<[p ++ [n] := Fs.File content]> fs).
Proof.
  intros Hp Hn. unfold Fs.writeFileSync.
  rewrite removelast_last, Hp.
  destruct (p ++ [n]) as [|a r] eqn:E; [now destruct p|].
  destruct (fs !! (a :: r)) as [[c|]|]; congruence.
Qed.

End FsFacts.

Section IndexerFacts.
Implicit Types (fs : Fs.t) (p q : Fs.path).

Lemma elem_of_List_filter {A} (f : A -> bool) (l : list A) x :
  x ∈ List.filter f l <-> x ∈ l /\ f x = true.
Proof. rewrite !list_elem_of_In. apply filter_In. Qed.

Lemma NoDup_List_filter {A} (f : A -> bool) (l : list A) :
  NoDup l -> NoDup (List.filter f l).
Proof.
  induction 1 as [|x l Hx Hl IH]; simpl; [constructor|].
  destruct (f x); [|exact IH]. constructor; [|exact IH].
  rewrite elem_of_List_filter. tauto.
Qed.

(** What the array holds: the entries of the directory that end with the
    extension. *)
Lemma elem_of_listing fs p extension n :
  n ∈ listing fs p extension
  <-> is_Some (fs !! (p ++ [n])) /\ hasSuffix n extension.
Proof.
  unfold listing. rewrite sort_perm, elem_of_List_filter, elem_of_entries.
  now rewrite endsWith_spec.
Qed.

Lemma listing_ascending fs p extension : ascending (listing fs p extension).
Proof. apply sort_ascending, NoDup_List_filter, NoDup_entries. Qed.

(** The array depends only on which matching names exist. *)
Lemma listing_ext fs fs' p extension :
  (forall n, hasSuffix n extension ->
     (is_Some (fs !! (p ++ [n])) <-> is_Some (fs' !! (p ++ [n])))) ->
  listing fs p extension = listing fs' p extension.
Proof.
  intros Hsame. unfold listing.
  apply sort_unique; try apply NoDup_List_filter, NoDup_entries.
  intros n. rewrite !elem_of_List_filter, !elem_of_entries, endsWith_spec.
  split; intros [Hn Hs]; (split; [apply (Hsame n Hs), Hn | exact Hs]).
Qed.

(** The first two steps: after them the directory is there. *)
Lemma ensureDir_spec fs p :
  noFileOnPath fs p ->
  exists fs1,
    (if negb (Fs.existsSync fs p) then Fs.mkdirSync fs p else inr fs) = inr fs1 /\
    Fs.stat fs1 p = Some Fs.Dir /\
    (forall q v, fs !! q = Some v -> fs1 !! q = Some v) /\
    (forall q, ~ q `prefix_of` p -> fs1 !! q = fs !! q).
Proof.
  intros Hfile. unfold Fs.existsSync.
  destruct (Fs.stat fs p) as [node|] eqn:Hst; simpl.
  - exists fs. split; [reflexivity|]. split; [|auto].
    destruct p as [|a p]; [reflexivity|]. simpl in Hst |- *.
    destruct node as [content|]; [|exact Hst].
    exfalso. eapply Hfile; [|exact Hst]. reflexivity.
  - destruct p as [|a p]; [discriminate|].
    destruct (mkdirs_spec (a :: p) [] fs) as (fs' & Hrun & Hdirs & Hframe & Hmono).
    { intros k content Hk _. now apply Hfile. }
    exists fs'. split; [exact Hrun|]. split; [|split; [exact Hmono|]].
    + simpl. apply (Hdirs (a :: p)); [reflexivity | discriminate].
    + intros q Hq. apply Hframe. intros k Hk _ ->. now apply Hq.
Qed.

Lemma writeFileSync_inv fs p n content fs' :
  Fs.stat fs p = Some Fs.Dir ->
  Fs.writeFileSync fs (p ++ [n]) content = inr fs' ->
  fs !! (p ++ [n]) <> Some Fs.Dir /\
  fs' = <[p ++ [n] := Fs.File content]> fs.
Proof.
  intros Hp. unfold Fs.writeFileSync. rewrite removelast_last, Hp.
  destruct (p ++ [n]) as [|a r] eqn:E; [now destruct p|].
  destruct (fs !! (a :: r)) as [[c|]|]; intros Hw; inversion Hw;
    split; congruence.
Qed.

(** Whatever the first two steps do, they keep what exists and add only
    ancestors of the directory. *)
Lemma ensureDir_frame fs p fs1 :
  (if negb (Fs.existsSync fs p) then Fs.mkdirSync fs p else inr fs) = inr fs1 ->
  (forall q v, fs !! q = Some v -> fs1 !! q = Some v) /\
  (forall q, ~ q `prefix_of` p -> fs1 !! q = fs !! q).
Proof.
  destruct (Fs.existsSync fs p); simpl; intros Hrun.
  - inversion Hrun; subst. auto.
  - unfold Fs.mkdirSync in Hrun.
    destruct (mkdirs_spec p [] fs (mkdirs_inv p [] fs fs1 Hrun))
      as (fs' & Hrun' & _ & Hframe & Hmono).
    assert (fs' = fs1) by congruence. subst fs'. split; [exact Hmono|].
    intros q Hq. apply Hframe. intros k Hk _ ->. now apply Hq.
Qed.

(** A regular file where the directory should be makes the call fail. *)
Lemma generateIndex_blocked publicDir fs directory extension content :
  Fs.join publicDir directory <> [] ->
  fs !! Fs.join publicDir directory = Some (Fs.File content) ->
  Indexer.generateIndex publicDir fs directory extension = inl Fs.ENOTDIR.
Proof.
  intros Hne Hfile. unfold Indexer.generateIndex. cbv zeta.
  set (p := Fs.join publicDir directory) in *.
  assert (Hst : Fs.stat fs p = Some (Fs.File content))
    by (destruct p; [congruence | exact Hfile]).
  unfold Fs.existsSync. rewrite Hst. simpl.
  unfold mbind, result_bind, Fs.readdirSync. now rewrite Hst.
Qed.


(** A run that succeeds went through a state [fs1] in which the directory
    existed, and wrote the listing of [fs1]. *)
Lemma generateIndex_inv publicDir fs directory extension fs2 :
  Indexer.generateIndex publicDir fs directory extension = inr fs2 ->
  let p := Fs.join publicDir directory in
  exists fs1,
    (if negb (Fs.existsSync fs p) then Fs.mkdirSync fs p else inr fs) = inr fs1 /\
    Fs.stat fs1 p = Some Fs.Dir /\
    fs1 !! (p ++ ["index.json"]) <> Some Fs.Dir /\
    fs2 = <[p ++ ["index.json"]
            := Fs.File (JSON.stringify (listing fs1 p extension))]> fs1.
Proof.
  unfold Indexer.generateIndex. cbv zeta.
  set (p := Fs.join publicDir directory).
  destruct (if negb (Fs.existsSync fs p) then Fs.mkdirSync fs p else inr fs)
    as [e|fs1]; [discriminate|].
  unfold mbind, result_bind at 1. unfold Fs.readdirSync.
  destruct (Fs.stat fs1 p) as [[c|]|] eqn:Hst; try discriminate.
  unfold result_bind. intros Hw.
  apply writeFileSync_inv in Hw as [Hn ->]; [|exact Hst].
  exists fs1. auto.
Qed.

(** A file system that already holds the right index is left as it is. *)
Lemma generateIndex_fixpoint publicDir fs directory extension :
  let p := Fs.join publicDir directory in
  Fs.stat fs p = Some Fs.Dir ->
  fs !! (p ++ ["index.json"])
    = Some (Fs.File (JSON.stringify (listing fs p extension))) ->
  Indexer.generateIndex publicDir fs directory extension = inr fs.
Proof.
  intros p Hst Hidx. unfold Indexer.generateIndex. cbv zeta. fold p.
  unfold Fs.existsSync. rewrite Hst. simpl.
  unfold mbind, result_bind, Fs.readdirSync. rewrite Hst.
  fold (listing fs p extension).
  rewrite writeFileSync_spec; [|exact Hst | congruence].
  f_equal. now apply insert_id.
Qed.

End IndexerFacts.

Section JsonFacts.

Lemma append_assoc (a b c : string) : (a +:+ b) +:+ c = a +:+ (b +:+ c).
Proof.
  induction a as [|x a IH]; [reflexivity|].
  rewrite !append_cons. now rewrite IH.
Qed.

Lemma append_nil_r (a : string) : a +:+ "" = a.
Proof.
  induction a as [|x a IH]; [reflexivity|]. rewrite append_cons. now rewrite IH.
Qed.

(** One escaped code unit reads back as that code unit. *)
Lemma read_escape c acc out r :
  JSON.read (JSON.InString acc) out (JSON.escape c +:+ r)
  = JSON.read (JSON.InString (JSON.snoc acc c)) out r.
Proof. destruct c as [[] [] [] [] [] [] [] []]; reflexivity. Qed.

Lemma read_escapeAll s : forall acc out r,
  JSON.read (JSON.InString acc) out (JSON.escapeAll s +:+ r)
  = JSON.read (JSON.InString (acc +:+ s)) out r.
Proof.
  induction s as [|c s IH]; intros acc out r.
  - simpl JSON.escapeAll. now rewrite append_nil, append_nil_r.
  - simpl JSON.escapeAll. rewrite append_assoc, read_escape, IH.
    unfold JSON.snoc. now rewrite append_assoc.
Qed.

(** A literal reads back as the string it was made from. *)
Lemma read_quoteString st s out r :
  st = JSON.Open \/ st = JSON.Value ->
  JSON.read st out (JSON.quoteString s +:+ r)
  = JSON.read JSON.After (out ++ [s]) r.
Proof.
  intros Hst. unfold JSON.quoteString. rewrite append_cons, append_assoc.
  transitivity (JSON.read (JSON.InString "") out
                  (JSON.escapeAll s +:+ String JSON.quote "" +:+ r)).
  { destruct Hst as [-> | ->]; reflexivity. }
  rewrite read_escapeAll, append_nil. reflexivity.
Qed.

Lemma read_elements l : forall st x out,
  st = JSON.Open \/ st = JSON.Value ->
  JSON.read st out
    (String JSON.LF (JSON.elements "  " (x :: l) +:+ String JSON.LF "]"))
  = Some (out ++ x :: l).
Proof.
  induction l as [|y l IH]; intros st x out Hst.
  - transitivity (JSON.read st out
                    (JSON.quoteString x +:+ String JSON.LF "]")).
    { destruct Hst as [-> | ->]; reflexivity. }
    now rewrite read_quoteString.
  - transitivity (JSON.read st out
                    (JSON.quoteString x +:+
                     String "," (String JSON.LF
                       (JSON.elements "  " (y :: l) +:+ String JSON.LF "]")))).
    { change (JSON.elements "  " (x :: y :: l))
        with ("  " +:+ JSON.quoteString x +:+
              String "," (String JSON.LF (JSON.elements "  " (y :: l)))).
      rewrite !append_assoc, !append_cons.
      destruct Hst as [-> | ->]; reflexivity. }
    rewrite read_quoteString by exact Hst.
    change (JSON.read JSON.After (out ++ [x]) (String "," ?r))
      with (JSON.read JSON.Value (out ++ [x]) r).
    rewrite IH by auto. now rewrite <- app_assoc.
Qed.

(** What [JSON.stringify] writes, [JSON.parse] reads back. *)
Lemma parse_stringify files : JSON.parse (JSON.stringify files) = Some files.
Proof.
  destruct files as [|x l]; [reflexivity|].
  unfold JSON.parse, JSON.stringify.
  change (JSON.read JSON.Start [] (String "[" ?r))
    with (JSON.read JSON.Open [] r).
  now rewrite read_elements by auto.
Qed.

End JsonFacts.

Section IndexerClaims.
Implicit Types (fs : Fs.t) (p q : Fs.path).

Lemma not_prefix_child {A} (p : list A) n : ~ (p ++ [n]) `prefix_of` p.
Proof.
  intros Hp. apply prefix_length in Hp. rewrite length_app in Hp.
  simpl in Hp. lia.
Qed.

Lemma child_ne {A} (p : list A) n : p <> p ++ [n].
Proof.
  intros Heq. apply (f_equal length) in Heq. rewrite length_app in Heq.
  simpl in Heq. lia.
Qed.

(** C2, as the code has it.  Provided no regular file sits where the
    directory or one of its ancestors should be, and [index.json] is not
    itself a directory, one call of [generateIndex] succeeds; afterwards the
    directory exists, and [index.json] in it holds the JSON text of an
    array, which reads back as that array, ascends strictly in code-unit
    order and holds exactly the names of the directory's entries, regular
    files and subdirectories alike, that end with the extension; nothing
    that existed is lost, and nothing but [index.json] and missing ancestor
    directories is added. *)
Theorem generateIndex_writes_sorted_index publicDir fs directory extension :
  let fullPath := Fs.join publicDir directory in
  let indexPath := fullPath ++ ["index.json"] in
  noFileOnPath fs fullPath ->
  fs !! indexPath <> Some Fs.Dir ->
  exists fs' files,
    Indexer.generateIndex publicDir fs directory extension = inr fs' /\
    fs' !! indexPath = Some (Fs.File (JSON.stringify files)) /\
    JSON.parse (JSON.stringify files) = Some files /\
    ascending files /\
    (forall n, n ∈ files <->
       is_Some (fs !! (fullPath ++ [n])) /\ hasSuffix n extension) /\
    Fs.stat fs' fullPath = Some Fs.Dir /\
    (forall q v, fs !! q = Some v -> q <> indexPath -> fs' !! q = Some v) /\
    (forall q, q <> indexPath -> ~ q `prefix_of` fullPath ->
       fs' !! q = fs !! q).
Proof.
  intros p idx Hfile Hidx.
  destruct (ensureDir_spec fs p Hfile) as (fs1 & Hrun & Hst & Hmono & Hframe).
  assert (Hidx1 : fs1 !! idx <> Some Fs.Dir)
    by (subst idx; rewrite Hframe; [exact Hidx | apply not_prefix_child]).
  exists (<[idx := Fs.File (JSON.stringify (listing fs1 p extension))]> fs1),
         (listing fs1 p extension).
  split; [|split; [|split; [|split; [|split; [|split; [|split]]]]]].
  - unfold Indexer.generateIndex. cbv zeta. fold p. rewrite Hrun.
    unfold mbind, result_bind, Fs.readdirSync. rewrite Hst.
    fold (listing fs1 p extension). now apply writeFileSync_spec.
  - apply lookup_insert_eq.
  - apply parse_stringify.
  - apply listing_ascending.
  - intros n. rewrite elem_of_listing, Hframe; [reflexivity|].
    apply not_prefix_child.
  - destruct p as [|a p]; [reflexivity|].
    change (Fs.stat ?m (a :: p)) with (m !! (a :: p)).
    rewrite lookup_insert_ne; [exact Hst|].
    subst idx; intros H; symmetry in H; now apply child_ne in H.
  - intros q v Hv Hq. rewrite lookup_insert_ne; [now apply Hmono | congruence].
  - intros q Hq Hpre. rewrite lookup_insert_ne; [now apply Hframe | congruence].
Qed.

(** What a successful run leaves behind when [index.json] cannot match the
    extension: the directory, and in it the index of the directory as it now
    is. *)
Lemma generateIndex_result publicDir fs directory extension fs' :
  endsWith "index.json" extension = false ->
  Indexer.generateIndex publicDir fs directory extension = inr fs' ->
  let p := Fs.join publicDir directory in
  Fs.stat fs' p = Some Fs.Dir /\
  fs' !! (p ++ ["index.json"])
    = Some (Fs.File (JSON.stringify (listing fs' p extension))).
Proof.
  intros Hself Hrun p.
  apply generateIndex_inv in Hrun as (fs1 & _ & Hst & Hidx & ->). fold p in Hst |- *.
  set (idx := p ++ ["index.json"]) in *. split.
  - destruct p as [|a p]; [reflexivity|].
    change (Fs.stat ?m (a :: p)) with (m !! (a :: p)).
    rewrite lookup_insert_ne; [exact Hst|].
    subst idx; intros H; symmetry in H; now apply child_ne in H.
  - rewrite lookup_insert_eq. do 3 f_equal. symmetry.
    apply listing_ext. intros n Hn. rewrite lookup_insert_ne; [reflexivity|].
    subst idx. intros Heq. apply app_inj_tail in Heq as [_ <-].
    apply endsWith_spec in Hn. congruence.
Qed.

Lemma generateIndex_again publicDir fs directory extension fs' :
  endsWith "index.json" extension = false ->
  Indexer.generateIndex publicDir fs directory extension = inr fs' ->
  Indexer.generateIndex publicDir fs' directory extension = inr fs'.
Proof.
  intros Hself Hrun.
  destruct (generateIndex_result _ _ _ _ _ Hself Hrun) as [Hst Hidx].
  now apply generateIndex_fixpoint.
Qed.

(** C7.  For the two extensions the script uses, a second call on what the
    first one left behind succeeds and leaves the whole file system, and so
    [index.json] byte for byte, as the first call left it: the name
    [index.json] does not end with either extension. *)
Theorem generateIndex_idempotent publicDir fs directory extension fs' :
  extension = ".glb" \/ extension = ".mind" ->
  Indexer.generateIndex publicDir fs directory extension = inr fs' ->
  endsWith "index.json" extension = false /\
  Indexer.generateIndex publicDir fs' directory extension = inr fs' /\
  exists files,
    fs' !! (Fs.join publicDir directory ++ ["index.json"])
      = Some (Fs.File (JSON.stringify files)).
Proof.
  intros Hext Hrun.
  assert (Hself : endsWith "index.json" extension = false)
    by (destruct Hext as [-> | ->]; reflexivity).
  split; [exact Hself|]. split.
  - now apply (generateIndex_again publicDir fs).
  - eexists. exact (proj2 (generateIndex_result _ _ _ _ _ Hself Hrun)).
Qed.

(** X1.  The whole script is idempotent: when a run of [main] succeeds, a
    second run on what it left behind succeeds and changes nothing, neither
    of the two index files nor anything else. *)
Lemma main_idempotent publicDir fs fs' :
  Indexer.main publicDir fs = inr fs' -> Indexer.main publicDir fs' = inr fs'.
Proof.
  unfold Indexer.main. unfold mbind at 1, result_bind at 1.
  destruct (Indexer.generateIndex publicDir fs "3d" ".glb") as [e|fsA] eqn:H3;
    [discriminate|].
  intros Hm.
  destruct (generateIndex_result publicDir fs "3d" ".glb" fsA eq_refl H3)
    as [Hst3 Hidx3].
  pose proof (generateIndex_again publicDir fsA "minds" ".mind" fs'
                eq_refl Hm) as Hm'.
  apply generateIndex_inv in Hm as (fsB & HensB & _ & _ & Hfs').
  apply ensureDir_frame in HensB as [Hmono Hframe].
  change (Fs.join publicDir "3d") with (publicDir ++ ["3d"]) in *.
  change (Fs.join publicDir "minds") with (publicDir ++ ["minds"]) in *.
  set (p3 := publicDir ++ ["3d"]) in *.
  set (pm := publicDir ++ ["minds"]) in *.
  assert (Hkeep : forall q, ~ q `prefix_of` pm -> q <> pm ++ ["index.json"] ->
            fs' !! q = fsA !! q).
  { intros q Hq Hne. rewrite Hfs', lookup_insert_ne; [now apply Hframe | congruence]. }
  assert (Hchild : forall n, fs' !! (p3 ++ [n]) = fsA !! (p3 ++ [n])).
  { intros n. apply Hkeep; subst p3 pm.
    - intros Hp. apply prefix_length in Hp. rewrite !length_app in Hp.
      simpl in Hp. lia.
    - intros Heq. apply app_inj_tail in Heq as [Heq _].
      apply app_inj_tail in Heq as [_ Heq]. discriminate. }
  assert (Hp3 : fs' !! p3 = fsA !! p3).
  { apply Hkeep; subst p3 pm.
    - intros [k Hk]. rewrite <- app_assoc in Hk.
      apply app_inv_head in Hk. inversion Hk.
    - intros Heq. apply (f_equal length) in Heq. rewrite !length_app in Heq.
      simpl in Heq. lia. }
  unfold mbind, result_bind.
  rewrite generateIndex_fixpoint.
  - exact Hm'.
  - change (Fs.join publicDir "3d") with p3.
    rewrite <- Hst3. unfold Fs.stat. destruct p3; [reflexivity | exact Hp3].
  - change (Fs.join publicDir "3d") with p3.
    rewrite Hchild, Hidx3. do 3 f_equal.
    apply listing_ext. intros n _. now rewrite Hchild.
Qed.

Lemma sample_noFileOnPath :
  noFileOnPath SampleFs.fs (Fs.join SampleFs.publicDir "3d").
Proof.
  intros q content [k Hk] Hq. change (Fs.join SampleFs.publicDir "3d")
    with ["app"; "public"; "3d"] in Hk.
  destruct q as [|a [|b [|c [|d q]]]]; simpl in Hk; inversion Hk; subst;
    vm_compute in Hq; discriminate Hq.
Qed.



(** The sample project: the index of the models is written. *)
Lemma generateIndex_writes_sorted_index_witness :
  let fullPath := Fs.join SampleFs.publicDir "3d" in
  let indexPath := fullPath ++ ["index.json"] in
  exists fs' files,
    Indexer.generateIndex SampleFs.publicDir SampleFs.fs "3d" ".glb" = inr fs' /\
    fs' !! indexPath = Some (Fs.File (JSON.stringify files)) /\
    JSON.parse (JSON.stringify files) = Some files /\
    ascending files /\
    (forall n, n ∈ files <->
       is_Some (SampleFs.fs !! (fullPath ++ [n])) /\ hasSuffix n ".glb") /\
    Fs.stat fs' fullPath = Some Fs.Dir /\
    (forall q v, SampleFs.fs !! q = Some v -> q <> indexPath ->
       fs' !! q = Some v) /\
    (forall q, q <> indexPath -> ~ q `prefix_of` fullPath ->
       fs' !! q = SampleFs.fs !! q).
Proof.
  refine (generateIndex_writes_sorted_index SampleFs.publicDir SampleFs.fs
            "3d" ".glb" sample_noFileOnPath _).
  vm_compute. discriminate.
Defined.

(** The claim that the array holds the names of files fails: the script
    lists what [readdirSync] returns, and that includes directories.  With a
    subdirectory [folder.glb] beside the two models, the index names all
    three, while the files whose names end with [.glb] are two. *)
Lemma generateIndex_lists_directories :
  let p := ["app"; "public"; "3d"] in
  let written := ["chair.glb"; "folder.glb"; "sofa.glb"] in
  SampleRun.withFolder !! (p ++ ["folder.glb"]) = Some Fs.Dir /\
  fileNames SampleRun.withFolder p ".glb" = ["chair.glb"; "sofa.glb"] /\
  exists fs',
    Indexer.generateIndex SampleFs.publicDir SampleRun.withFolder "3d" ".glb"
      = inr fs' /\
    fs' !! (p ++ ["index.json"]) = Some (Fs.File (JSON.stringify written)) /\
    JSON.parse (JSON.stringify written) = Some written /\
    written <> fileNames SampleRun.withFolder p ".glb".
Proof.
  intros p written.
  assert (Hfiles : fileNames SampleRun.withFolder p ".glb"
                   = ["chair.glb"; "sofa.glb"])
    by (vm_compute; reflexivity).
  split; [vm_compute; reflexivity|]. split; [exact Hfiles|].
  exists (<[p ++ ["index.json"] := Fs.File (JSON.stringify written)]>
            SampleRun.withFolder).
  split; [|split; [apply lookup_insert_eq|split]].
  - vm_cast_no_check
      (eq_refl (inr (A := Fs.error)
                  (<[p ++ ["index.json"] := Fs.File (JSON.stringify written)]>
                     SampleRun.withFolder))).
  - apply parse_stringify.
  - rewrite Hfiles. discriminate.
Qed.

(** The sample project: what the run writes, and a second run on it. *)
Lemma sample_index :
  SampleFs.indexed !! ["app"; "public"; "3d"; "index.json"]
  = Some (Fs.File (JSON.stringify ["chair.glb"; "sofa.glb"])).
Proof. vm_compute. reflexivity. Qed.

(** The sample project has no directory for the sidecar files: the call
    makes it and writes an empty array. *)
Example generateIndex_creates_directory :
  exists fs',
    Indexer.generateIndex SampleFs.publicDir SampleFs.fs "minds" ".mind" = inr fs' /\
    SampleFs.fs !! ["app"; "public"; "minds"] = None /\
    fs' !! ["app"; "public"; "minds"] = Some Fs.Dir /\
    fs' !! ["app"; "public"; "minds"; "index.json"] = Some (Fs.File "[]").
Proof. eexists. repeat split; vm_compute; reflexivity. Qed.

Lemma generateIndex_idempotent_witness :
  endsWith "index.json" ".glb" = false /\
  Indexer.generateIndex SampleFs.publicDir SampleFs.indexed "3d" ".glb"
    = inr SampleFs.indexed /\
  exists files,
    SampleFs.indexed !! (Fs.join SampleFs.publicDir "3d" ++ ["index.json"])
      = Some (Fs.File (JSON.stringify files)).
Proof.
  refine (generateIndex_idempotent SampleFs.publicDir SampleFs.fs "3d" ".glb"
            SampleFs.indexed (or_introl eq_refl) _).
  vm_compute. reflexivity.
Defined.

End IndexerClaims.

(** * Further properties *)

(** ** The indexer: the whole script, its errors, its limits *)

Section IndexerMore.
Implicit Types (fs : Fs.t) (p q : Fs.path).

(** The first two steps add directories only. *)
Lemma ensureDir_files fs p fs1 q content :
  (if negb (Fs.existsSync fs p) then Fs.mkdirSync fs p else inr fs) = inr fs1 ->
  fs1 !! q = Some (Fs.File content) -> fs !! q = Some (Fs.File content).
Proof.
  destruct (Fs.existsSync fs p); simpl; intros Hrun Hq.
  - inversion Hrun; subst. exact Hq.
  - unfold Fs.mkdirSync in Hrun.
    destruct (mkdirs_spec p [] fs (mkdirs_inv p [] fs fs1 Hrun))
      as (fs' & Hrun' & Hdirs & Hframe & _).
    assert (fs' = fs1) by congruence. subst fs'.
    destruct (decide (q `prefix_of` p)) as [Hpre|Hpre].
    + destruct q as [|a q].
      * rewrite <- Hq. symmetry. apply Hframe. intros k Hk Hne Heq.
        simpl in Heq. congruence.
      * pose proof (Hdirs (a :: q) Hpre) as Hd. simpl in Hd.
        rewrite Hd in Hq by discriminate. discriminate.
    + rewrite <- Hq. symmetry. apply Hframe. intros k Hk _ ->. now apply Hpre.
Qed.

(** A call on a file system in which the directory exists. *)
Lemma generateIndex_existing publicDir fs directory extension :
  let p := Fs.join publicDir directory in
  Fs.stat fs p = Some Fs.Dir ->
  fs !! (p ++ ["index.json"]) <> Some Fs.Dir ->
  Indexer.generateIndex publicDir fs directory extension
  = inr (<[p ++ ["index.json"]
           := Fs.File (JSON.stringify (listing fs p extension))]> fs).
Proof.
  intros p Hst Hidx. unfold Indexer.generateIndex. cbv zeta. fold p.
  unfold Fs.existsSync. rewrite Hst. simpl.
  unfold mbind, result_bind, Fs.readdirSync. rewrite Hst.
  fold (listing fs p extension). now apply writeFileSync_spec.
Qed.

(** What a call does, in terms of the file system it starts from. *)
Lemma generateIndex_effect publicDir fs directory extension :
  let p := Fs.join publicDir directory in
  let idx := p ++ ["index.json"] in
  noFileOnPath fs p -> fs !! idx <> Some Fs.Dir ->
  exists fs',
    Indexer.generateIndex publicDir fs directory extension = inr fs' /\
    fs' !! idx = Some (Fs.File (JSON.stringify (listing fs p extension))) /\
    (forall q, q <> idx -> ~ q `prefix_of` p -> fs' !! q = fs !! q) /\
    (forall q content, fs' !! q = Some (Fs.File content) ->
       q = idx \/ fs !! q = Some (Fs.File content)) /\
    (forall q, q <> idx -> fs !! q = Some Fs.Dir -> fs' !! q = Some Fs.Dir).
Proof.
  intros p idx Hfile Hidx.
  destruct (ensureDir_spec fs p Hfile) as (fs1 & Hrun & Hst & Hmono & Hframe).
  assert (Hidx1 : fs1 !! idx <> Some Fs.Dir)
    by (subst idx; rewrite Hframe; [exact Hidx | apply not_prefix_child]).
  assert (Hlist : listing fs1 p extension = listing fs p extension).
  { apply listing_ext. intros n _. rewrite Hframe; [reflexivity|].
    apply not_prefix_child. }
  exists (<[idx := Fs.File (JSON.stringify (listing fs p extension))]> fs1).
  split; [|split; [|split; [|split]]].
  - unfold Indexer.generateIndex. cbv zeta. fold p. rewrite Hrun.
    unfold mbind, result_bind, Fs.readdirSync. rewrite Hst.
    fold (listing fs1 p extension). rewrite Hlist.
    now apply writeFileSync_spec.
  - apply lookup_insert_eq.
  - intros q Hq Hpre. rewrite lookup_insert_ne; [now apply Hframe | congruence].
  - intros q content Hq. destruct (decide (q = idx)) as [->|Hne]; [now left|].
    right. rewrite lookup_insert_ne in Hq by congruence.
    exact (ensureDir_files fs p fs1 q content Hrun Hq).
  - intros q Hq Hd. rewrite lookup_insert_ne; [now apply Hmono | congruence].
Qed.

End IndexerMore.

(** The sample project, indexed once by the whole script. *)
Lemma main_idempotent_witness :
  Indexer.main SampleFs.publicDir SampleRun.built = inr SampleRun.built.
Proof.
  refine (main_idempotent SampleFs.publicDir SampleFs.fs SampleRun.built _).
  vm_cast_no_check (eq_refl (inr (A := Fs.error) SampleRun.built)).
Defined.

Lemma index_paths_apart (publicDir : Fs.path) (a b : string) n :
  a <> b ->
  (publicDir ++ [a]) ++ [n] <> (publicDir ++ [b]) ++ ["index.json"] /\
  ~ ((publicDir ++ [a]) ++ [n]) `prefix_of` (publicDir ++ [b]).
Proof.
  intros Hab. split.
  - intros Heq. apply app_inj_tail in Heq as [Heq _].
    apply app_inj_tail in Heq as [_ Heq]. congruence.
  - intros Hp. apply prefix_length in Hp. rewrite !length_app in Hp.
    simpl in Hp. lia.
Qed.

(** X2.  When nothing blocks the two asset directories, one run of [main]
    succeeds and leaves both index files behind, each holding the listing of
    its own directory as the run found it: the second call does not disturb
    what the first one wrote, and no other regular file is created or
    changed. *)
Theorem main_writes_both_indices publicDir fs :
  let p3 := publicDir ++ ["3d"] in
  let pm := publicDir ++ ["minds"] in
  noFileOnPath fs p3 -> noFileOnPath fs pm ->
  fs !! (p3 ++ ["index.json"]) <> Some Fs.Dir ->
  fs !! (pm ++ ["index.json"]) <> Some Fs.Dir ->
  exists fs',
    Indexer.main publicDir fs = inr fs' /\
    fs' !! (p3 ++ ["index.json"])
      = Some (Fs.File (JSON.stringify (listing fs p3 ".glb"))) /\
    fs' !! (pm ++ ["index.json"])
      = Some (Fs.File (JSON.stringify (listing fs pm ".mind"))) /\
    (forall n, n ∈ listing fs p3 ".glb" <->
       is_Some (fs !! (p3 ++ [n])) /\ hasSuffix n ".glb") /\
    (forall n, n ∈ listing fs pm ".mind" <->
       is_Some (fs !! (pm ++ [n])) /\ hasSuffix n ".mind") /\
    (forall q content, fs' !! q = Some (Fs.File content) ->
       q = p3 ++ ["index.json"] \/ q = pm ++ ["index.json"] \/
       fs !! q = Some (Fs.File content)).
Proof.
  intros p3 pm H3 Hm Hi3 Him.
  assert (Hne : "3d" <> "minds") by discriminate.
  assert (Hne' : "minds" <> "3d") by discriminate.
  destruct (generateIndex_effect publicDir fs "3d" ".glb" H3 Hi3)
    as (fsA & HrunA & HidxA & HframeA & HfilesA & _).
  change (Fs.join publicDir "3d") with p3 in *.
  assert (HmA : noFileOnPath fsA pm).
  { intros q content Hq Hf. apply HfilesA in Hf as [->|Hf].
    - apply prefix_length in Hq. subst p3 pm. rewrite !length_app in Hq.
      simpl in Hq. lia.
    - now apply (Hm q content). }
  assert (HimA : fsA !! (pm ++ ["index.json"]) <> Some Fs.Dir).
  { rewrite HframeA; [exact Him | |];
      apply (index_paths_apart publicDir "minds" "3d" "index.json" Hne'). }
  destruct (generateIndex_effect publicDir fsA "minds" ".mind" HmA HimA)
    as (fs' & Hrun' & Hidx' & Hframe' & Hfiles' & _).
  change (Fs.join publicDir "minds") with pm in *.
  exists fs'. split; [|split; [|split; [|split; [|split]]]].
  - unfold Indexer.main. rewrite HrunA. exact Hrun'.
  - rewrite Hframe'; [exact HidxA | |];
      apply (index_paths_apart publicDir "3d" "minds" "index.json" Hne).
  - rewrite Hidx'. do 3 f_equal. apply listing_ext. intros n _.
    rewrite HframeA; [reflexivity | |];
      apply (index_paths_apart publicDir "minds" "3d" n Hne').
  - intros n. apply elem_of_listing.
  - intros n. apply elem_of_listing.
  - intros q content Hq. apply Hfiles' in Hq as [->|Hq]; [auto|].
    apply HfilesA in Hq as [->|Hq]; auto.
Qed.

Lemma sample_noFileOnPath_minds :
  noFileOnPath SampleFs.fs (SampleFs.publicDir ++ ["minds"]).
Proof.
  intros q content [k Hk] Hq.
  change (SampleFs.publicDir ++ ["minds"]) with ["app"; "public"; "minds"] in Hk.
  destruct q as [|a [|b [|c [|d q]]]]; simpl in Hk; inversion Hk; subst;
    vm_compute in Hq; discriminate Hq.
Qed.

Lemma main_writes_both_indices_witness :
  exists fs',
    Indexer.main SampleFs.publicDir SampleFs.fs = inr fs' /\
    fs' !! ["app"; "public"; "3d"; "index.json"]
      = Some (Fs.File (JSON.stringify
                (listing SampleFs.fs ["app"; "public"; "3d"] ".glb"))) /\
    fs' !! ["app"; "public"; "minds"; "index.json"]
      = Some (Fs.File (JSON.stringify
                (listing SampleFs.fs ["app"; "public"; "minds"] ".mind"))).
Proof.
  destruct (main_writes_both_indices SampleFs.publicDir SampleFs.fs
              sample_noFileOnPath sample_noFileOnPath_minds)
    as (fs' & Hrun & H3 & Hm & _).
  - vm_compute. discriminate.
  - vm_compute. discriminate.
  - exists fs'. auto.
Defined.

(** X3.  With an extension that the name [index.json] itself ends with (the
    extension [.json], say) the index is not stable: in a directory that has
    no index yet, the first call writes a list without [index.json], the
    second call succeeds, lists [index.json] as well, and so writes a
    different file. *)
Theorem generateIndex_lists_itself publicDir fs directory extension fs1 :
  let idx := Fs.join publicDir directory ++ ["index.json"] in
  endsWith "index.json" extension = true ->
  fs !! idx = None ->
  Indexer.generateIndex publicDir fs directory extension = inr fs1 ->
  exists files1 files2 fs2,
    fs1 !! idx = Some (Fs.File (JSON.stringify files1)) /\
    ("index.json" ∉ files1) /\
    Indexer.generateIndex publicDir fs1 directory extension = inr fs2 /\
    fs2 !! idx = Some (Fs.File (JSON.stringify files2)) /\
    "index.json" ∈ files2 /\
    JSON.stringify files1 <> JSON.stringify files2.
Proof.
  intros idx Hself Hnone Hrun.
  apply generateIndex_inv in Hrun as (fs0 & Hens & Hst & _ & ->).
  set (p := Fs.join publicDir directory) in *.
  apply ensureDir_frame in Hens as [_ Hframe].
  assert (Hnone0 : fs0 !! idx = None)
    by (rewrite Hframe; [exact Hnone | apply not_prefix_child]).
  set (files1 := listing fs0 p extension).
  set (fs1 := <[p ++ ["index.json"] := Fs.File (JSON.stringify files1)]> fs0).
  assert (Hst1 : Fs.stat fs1 p = Some Fs.Dir).
  { destruct p as [|a p]; [reflexivity|].
    change (Fs.stat ?m (a :: p)) with (m !! (a :: p)).
    subst fs1. rewrite lookup_insert_ne; [exact Hst|].
    intros H; symmetry in H; now apply child_ne in H. }
  assert (Hidx1 : fs1 !! idx = Some (Fs.File (JSON.stringify files1)))
    by apply lookup_insert_eq.
  assert (Hout : "index.json" ∉ files1).
  { intros Hin. apply elem_of_listing in Hin as [[v Hv] _].
    fold idx in Hv. congruence. }
  assert (Hin : "index.json" ∈ listing fs1 p extension).
  { apply elem_of_listing. split; [|now apply endsWith_spec].
    fold idx. rewrite Hidx1. eauto. }
  exists files1, (listing fs1 p extension). eexists.
  split; [exact Hidx1|]. split; [exact Hout|]. split; [|split; [|split]].
  - apply generateIndex_existing; [exact Hst1|].
    fold p idx. rewrite Hidx1. discriminate.
  - apply lookup_insert_eq.
  - exact Hin.
  - intros Heq. apply (f_equal JSON.parse) in Heq.
    rewrite !parse_stringify in Heq. inversion Heq as [Hfiles].
    apply Hout. rewrite Hfiles. exact Hin.
Qed.

Lemma generateIndex_lists_itself_witness :
  exists files1 files2 fs2,
    SampleRun.jsonIndexed !! ["data"; "index.json"]
      = Some (Fs.File (JSON.stringify files1)) /\
    ("index.json" ∉ files1) /\
    Indexer.generateIndex [] SampleRun.jsonIndexed "data" ".json" = inr fs2 /\
    fs2 !! ["data"; "index.json"] = Some (Fs.File (JSON.stringify files2)) /\
    "index.json" ∈ files2 /\
    JSON.stringify files1 <> JSON.stringify files2.
Proof.
  refine (generateIndex_lists_itself [] SampleRun.jsonFs "data" ".json"
            SampleRun.jsonIndexed eq_refl _ _).
  - vm_cast_no_check (eq_refl (@None Fs.node)).
  - vm_cast_no_check (eq_refl (inr (A := Fs.error) SampleRun.jsonIndexed)).
Defined.

(** X4.  What makes the script fail.  A regular file where the directory
    should be is reported as [ENOTDIR] (it exists, so no directory is made,
    and it cannot be listed); a directory named [index.json] inside an
    existing directory is reported as [EISDIR]; in both cases nothing is
    written.  [main] stops at the first failure: when the call for the
    models fails, the call for the tracking files is never made and the
    error is that of the first call. *)
Theorem generateIndex_errors publicDir fs directory extension :
  let p := Fs.join publicDir directory in
  (p <> [] -> (exists content, fs !! p = Some (Fs.File content)) ->
   Indexer.generateIndex publicDir fs directory extension = inl Fs.ENOTDIR) /\
  (Fs.stat fs p = Some Fs.Dir -> fs !! (p ++ ["index.json"]) = Some Fs.Dir ->
   Indexer.generateIndex publicDir fs directory extension = inl Fs.EISDIR) /\
  (forall e, Indexer.generateIndex publicDir fs "3d" ".glb" = inl e ->
   Indexer.main publicDir fs = inl e).
Proof.
  intros p. split; [|split].
  - intros Hne [content Hfile]. now apply generateIndex_blocked with content.
  - intros Hst Hdir. unfold Indexer.generateIndex. cbv zeta. fold p.
    unfold Fs.existsSync. rewrite Hst. simpl.
    unfold mbind, result_bind, Fs.readdirSync. rewrite Hst.
    unfold Fs.writeFileSync. rewrite removelast_last, Hst.
    destruct (p ++ ["index.json"]) as [|a r] eqn:E; [now destruct p|].
    now rewrite Hdir.
  - intros e He. unfold Indexer.main. now rewrite He.
Qed.

Lemma generateIndex_errors_witness :
  Indexer.generateIndex SampleFs.publicDir SampleRun.blocked "3d" ".glb"
    = inl Fs.ENOTDIR /\
  Indexer.generateIndex SampleFs.publicDir SampleRun.indexIsDir "3d" ".glb"
    = inl Fs.EISDIR /\
  Indexer.main SampleFs.publicDir SampleRun.blocked = inl Fs.ENOTDIR.
Proof.
  destruct (generateIndex_errors SampleFs.publicDir SampleRun.blocked "3d" ".glb")
    as (Hfile & _ & Hmain).
  destruct (generateIndex_errors SampleFs.publicDir SampleRun.indexIsDir "3d" ".glb")
    as (_ & Hdir & _).
  assert (H1 : Indexer.generateIndex SampleFs.publicDir SampleRun.blocked "3d" ".glb"
               = inl Fs.ENOTDIR).
  { apply Hfile; [discriminate|]. eexists. vm_compute. reflexivity. }
  split; [exact H1|]. split.
  - apply Hdir; vm_compute; reflexivity.
  - apply Hmain, H1.
Defined.

(** ** The viewer: locking, unknown ids *)

Section ViewerMore.
Context {num : Type} `{JsNumber num}.
Implicit Type s : State.t num.

Local Abbreviation toggle modelId :=
  (fun model : ARModel.t num =>
     if String.eqb (ARModel.id model) modelId
     then ARModel.with_locked (negb (ARModel.locked model)) model
     else model).

Lemma with_arModels_same s : State.with_arModels (State.arModels s) s = s.
Proof. now destruct s. Qed.

Lemma with_heap_same s : State.with_heap (State.heap s) s = s.
Proof. now destruct s. Qed.

Lemma toggle_twice (l : list (ARModel.t num)) modelId :
  List.map (toggle modelId) (List.map (toggle modelId) l) = l.
Proof.
  rewrite map_map. rewrite <- (map_id l) at 2. apply map_ext. intros m.
  destruct (String.eqb (ARModel.id m) modelId) eqn:E; [|now rewrite E].
  simpl. rewrite E. destruct m as [? ? ? ? ? ? b ? ?]. simpl.
  now rewrite negb_involutive.
Qed.

Lemma toggle_absent (l : list (ARModel.t num)) modelId :
  (forall m, In m l -> ARModel.id m <> modelId) ->
  List.map (toggle modelId) l = l.
Proof.
  intros Hl. rewrite <- (map_id l) at 2. apply map_ext_in. intros m Hm.
  destruct (String.eqb_spec (ARModel.id m) modelId); [|reflexivity].
  now apply Hl in Hm.
Qed.

Lemma find_toggle (l : list (ARModel.t num)) modelId :
  List.find (fun m => String.eqb (ARModel.id m) modelId)
            (List.map (toggle modelId) l)
  = toggle modelId
      <$> List.find (fun m => String.eqb (ARModel.id m) modelId) l.
Proof.
  induction l as [|a l IH]; [reflexivity|]. simpl.
  destruct (String.eqb (ARModel.id a) modelId) eqn:E; simpl; rewrite E; auto.
Qed.

Lemma find_absent (l : list (ARModel.t num)) modelId :
  (forall m, In m l -> ARModel.id m <> modelId) ->
  List.find (fun m => String.eqb (ARModel.id m) modelId) l = None.
Proof.
  intros Hl. destruct (List.find _ l) as [m|] eqn:Hf; [|reflexivity].
  apply find_some in Hf as [Hin Heq]. apply String.eqb_eq in Heq.
  now apply Hl in Hin.
Qed.

(** A walk in which no model passes the test changes nothing. *)
Lemma walk_none test touch upd (l : list (ARModel.t num)) heap :
  (forall m, In m l -> test m = false) ->
  mapStore (visit test touch upd) l heap = (l, heap).
Proof.
  intros Hl. induction l as [|a l IH]; [reflexivity|].
  simpl. unfold visit at 1. rewrite (Hl a) by (simpl; auto).
  rewrite IH by (intros; apply Hl; simpl; auto). reflexivity.
Qed.

Lemma transformB_none s modelId delta :
  (forall m, In m (State.arModels s) -> moveTest modelId m = false) ->
  VariantB.transformModel s modelId delta = s.
Proof.
  intros Hl. unfold VariantB.transformModel.
  rewrite (mapStore_ext _ _ _ _ (moveOne_visit modelId delta)).
  rewrite walk_none by exact Hl. now destruct s.
Qed.

(** X5.  Pressing the lock button twice brings every placed model back to
    where it was: in variant B the whole state, in variant A everything but
    the two announcements, which read [Model Locked] then [Model Unlocked]
    for a model that was unlocked and the other way round for one that was
    locked.  Neither variant touches the scene or an object on the way. *)
Theorem toggleModelLock_involutive s modelId :
  VariantB.toggleModelLock (VariantB.toggleModelLock s modelId) modelId = s /\
  State.heap (VariantB.toggleModelLock s modelId) = State.heap s /\
  State.sceneRef (VariantB.toggleModelLock s modelId) = State.sceneRef s /\
  (let s1 := VariantA.toggleModelLock s modelId in
   let s2 := VariantA.toggleModelLock s1 modelId in
   sceneState s2 = sceneState s /\
   State.heap s1 = State.heap s /\ State.sceneRef s1 = State.sceneRef s /\
   forall m, VariantA.findModel s modelId = Some m ->
     List.map Toast.title (State.toasts s2)
     = List.map Toast.title (State.toasts s) ++
       (if ARModel.locked m then ["Model Unlocked"; "Model Locked"]
        else ["Model Locked"; "Model Unlocked"])).
Proof.
  split; [|split; [reflexivity|split; [reflexivity|]]].
  - unfold VariantB.toggleModelLock. simpl. rewrite toggle_twice.
    now destruct s.
  - cbv zeta. split; [|split; [reflexivity|split; [reflexivity|]]].
    + unfold sceneState, VariantA.toggleModelLock. simpl.
      now rewrite toggle_twice.
    + intros m Hm. unfold VariantA.toggleModelLock at 1.
      unfold VariantA.findModel in *. simpl. rewrite find_toggle, Hm. simpl.
      apply find_some in Hm as Hm'. destruct Hm' as [_ Heq]. rewrite Heq.
      simpl. rewrite !map_app. simpl. rewrite <- app_assoc. simpl.
      unfold VariantA.findModel. rewrite Hm. simpl.
      now destruct (ARModel.locked m).
Qed.

(** X6.  Locking works as a gate on the transform controls.  Once an
    unlocked model (its id unique in the list) has been locked, a transform
    addressed to it is a no-op in both variants: not one field of the state
    changes.  After it has been unlocked again the transform does what it
    would have done had the model never been locked. *)
Theorem lock_gates_transform s m delta :
  In m (State.arModels s) ->
  NoDup (List.map ARModel.id (State.arModels s)) ->
  ARModel.locked m = false ->
  let modelId := ARModel.id m in
  let a1 := VariantA.toggleModelLock s modelId in
  let a2 := VariantA.toggleModelLock a1 modelId in
  let b1 := VariantB.toggleModelLock s modelId in
  let b2 := VariantB.toggleModelLock b1 modelId in
  VariantA.transformModel a1 modelId delta = a1 /\
  VariantB.transformModel b1 modelId delta = b1 /\
  sceneState (VariantA.transformModel a2 modelId delta)
    = sceneState (VariantA.transformModel s modelId delta) /\
  State.heap (VariantA.transformModel s modelId delta)
    = alter (VariantA.applyDelta (State.controlMode s) delta)
            (ARModel.model m) (State.heap s) /\
  VariantB.transformModel b2 modelId delta
    = VariantB.transformModel s modelId delta.
Proof.
  intros Hin Hnd Hl. cbv zeta.
  pose proof (find_unique_id _ m Hnd Hin) as Hf.
  split; [|split; [|split; [|split]]].
  - unfold VariantA.transformModel at 1. unfold VariantA.findModel.
    unfold VariantA.toggleModelLock at 1. simpl.
    rewrite find_toggle, Hf. simpl. rewrite String.eqb_refl. simpl.
    now rewrite Hl.
  - apply transformB_none. simpl. intros m' Hm'.
    apply in_map_iff in Hm' as (m0 & <- & Hm0). unfold moveTest.
    destruct (String.eqb_spec (ARModel.id m0) (ARModel.id m)) as [Heq|Hne].
    + assert (m0 = m) by (eapply NoDup_map_inj; eauto). subst m0.
      simpl. rewrite String.eqb_refl, Hl. reflexivity.
    + apply String.eqb_neq in Hne. now rewrite Hne.
  - unfold VariantA.transformModel, VariantA.findModel, VariantA.toggleModelLock.
    simpl. rewrite toggle_twice, Hf, Hl. reflexivity.
  - unfold VariantA.transformModel, VariantA.findModel. now rewrite Hf, Hl.
  - unfold VariantB.toggleModelLock. simpl. rewrite toggle_twice.
    now destruct s.
Qed.

(** X7.  A request that names no placed model changes no model, no object
    and not the scene.  [transformModel] of either variant and variant B's
    [toggleModelLock] return the state as it was.  Variant A's
    [toggleModelLock] and [handleMaterialSelect] still announce [Model
    Locked] and [Material Applied], although nothing was locked or
    recoloured. *)
Theorem unknown_id_changes_nothing s modelId :
  (forall m, In m (State.arModels s) -> ARModel.id m <> modelId) ->
  (forall delta, VariantA.transformModel s modelId delta = s) /\
  (forall delta, VariantB.transformModel s modelId delta = s) /\
  VariantB.toggleModelLock s modelId = s /\
  (let s' := VariantA.toggleModelLock s modelId in
   sceneState s' = sceneState s /\
   List.map Toast.title (State.toasts s')
     = List.map Toast.title (State.toasts s) ++ ["Model Locked"]) /\
  (forall materialId,
     let s' := VariantA.handleMaterialSelect s modelId materialId in
     sceneState s' = sceneState s /\
     List.map Toast.title (State.toasts s')
       = List.map Toast.title (State.toasts s) ++ ["Material Applied"]).
Proof.
  intros Hl. pose proof (find_absent _ _ Hl) as Hf.
  split; [|split; [|split; [|split]]].
  - intros delta. unfold VariantA.transformModel, VariantA.findModel.
    now rewrite Hf.
  - intros delta. apply transformB_none. intros m Hm. unfold moveTest.
    apply Hl in Hm. apply String.eqb_neq in Hm. now rewrite Hm.
  - unfold VariantB.toggleModelLock. rewrite toggle_absent by exact Hl.
    apply with_arModels_same.
  - cbv zeta. unfold sceneState, VariantA.toggleModelLock, VariantA.findModel.
    simpl. rewrite toggle_absent by exact Hl. rewrite Hf. simpl.
    split; [reflexivity|]. now rewrite map_app.
  - intros materialId. cbv zeta.
    destruct (handleMaterialSelect_walk s modelId materialId) as (Hm & Hh & Ht).
    rewrite walk_none in Hm, Hh
      by (intros m Hin; unfold selectTest; apply Hl in Hin;
          now apply String.eqb_neq).
    simpl in Hm, Hh. unfold sceneState. rewrite Hm, Hh, Ht, map_app. split.
    + f_equal. f_equal. unfold VariantA.handleMaterialSelect.
      now destruct (mapStore _ _ _).
    + reflexivity.
Qed.

End ViewerMore.

(** The sample model, locked and unlocked again in variant A: two
    announcements, the scene as before. *)
Lemma toggleModelLock_involutive_witness :
  let s := Sample.state ModeMove in
  let modelId := ARModel.id Sample.model in
  let s2 := VariantA.toggleModelLock (VariantA.toggleModelLock s modelId) modelId in
  sceneState s2 = sceneState s /\
  List.map Toast.title (State.toasts s2) = ["Model Locked"; "Model Unlocked"].
Proof.
  intros s modelId s2.
  destruct (toggleModelLock_involutive s modelId)
    as (_ & _ & _ & Hscene & _ & _ & Htoasts).
  split; [exact Hscene|]. exact (Htoasts Sample.model eq_refl).
Defined.

Lemma lock_gates_transform_witness :
  let delta := Delta.mk Q (Some 1%Q) None None in
  let s := Sample.state ModeMove in
  let modelId := ARModel.id Sample.model in
  VariantA.transformModel (VariantA.toggleModelLock s modelId) modelId delta
    = VariantA.toggleModelLock s modelId /\
  VariantB.transformModel (VariantB.toggleModelLock s modelId) modelId delta
    = VariantB.toggleModelLock s modelId.
Proof.
  intros delta s modelId.
  destruct (lock_gates_transform s Sample.model delta
              (or_introl eq_refl) (sample_ids ModeMove) eq_refl)
    as (HA & HB & _).
  split; [exact HA | exact HB].
Defined.

Lemma unknown_id_changes_nothing_witness :
  let s := Sample.state ModeMove in
  let s' := VariantA.toggleModelLock s "sofa-1" in
  sceneState s' = sceneState s /\
  List.map Toast.title (State.toasts s') = ["Model Locked"].
Proof.
  intros s s'.
  assert (Habsent : forall m, In m (State.arModels s) -> ARModel.id m <> "sofa-1").
  { intros m [<-|[]]. discriminate. }
  exact (proj1 (proj2 (proj2 (proj2 (unknown_id_changes_nothing s "sofa-1" Habsent))))).
Defined.

(** ** The viewer: removing a model, the sidecar request *)

Section ViewerFlows.
Context {num : Type} `{JsNumber num}.
Implicit Type s : State.t num.

Lemma filter_all {A : Type} (f : A -> bool) (l : list A) :
  (forall a, In a l -> f a = true) -> List.filter f l = l.
Proof.
  induction l as [|a l IH]; intros Hl; [reflexivity|]. simpl.
  rewrite (Hl a) by (simpl; auto). f_equal. apply IH. intros b Hb.
  apply Hl. simpl. auto.
Qed.

(** X8.  Variant B's remove button does not undo a spawn.  After a load has
    completed and the new model, which the load selected, is removed again,
    the list is the old one without the models that carried the new id (the
    old list itself when the id was fresh) and nothing is selected; but the
    object is still a child of the scene and still in the store: it is
    never taken out of the scene. *)
Theorem removeSelected_keeps_object s i modelName asset now children :
  State.inflight s !! i = Some (Pending.mk num modelName Pending.AwaitGlb) ->
  State.sceneRef s = Some children ->
  let newId := modelName +:+ "-" +:+ Js.showN now in
  let s1 := VariantB.onLoad s i asset now in
  let s2 := VariantB.removeSelected s1 in
  State.selectedModel s1 = Some newId /\
  State.arModels s2
    = List.filter (fun m => negb (String.eqb (ARModel.id m) newId))
                  (State.arModels s) /\
  ((forall m, In m (State.arModels s) -> ARModel.id m <> newId) ->
   State.arModels s2 = State.arModels s) /\
  State.selectedModel s2 = None /\
  State.sceneRef s2 = Some (children ++ [length (State.heap s)]) /\
  State.heap s2 = State.heap s ++ [placedB s asset].
Proof.
  intros Hi Hsc. cbv zeta. unfold VariantB.onLoad. rewrite Hi, Hsc.
  unfold VariantB.removeSelected. simpl.
  assert (Hfilter :
    List.filter (fun m => negb (String.eqb (ARModel.id m)
                                  (modelName +:+ "-" +:+ Js.showN now)))
      (State.arModels s ++
         [newModel modelName (length (State.heap s)) (placedB s asset) now])
    = List.filter (fun m => negb (String.eqb (ARModel.id m)
                                    (modelName +:+ "-" +:+ Js.showN now)))
        (State.arModels s)).
  { rewrite List.filter_app. simpl. rewrite String.eqb_refl. simpl.
    apply app_nil_r. }
  split; [reflexivity|]. split; [exact Hfilter|].
  split; [|split; [reflexivity|split; reflexivity]].
  intros Hfresh. unfold placedB in Hfilter. rewrite Hfilter.
  apply filter_all. intros m Hm. apply Hfresh in Hm.
  apply String.eqb_neq in Hm. now rewrite Hm.
Qed.

(** X9.  How the request for the tracking file ends never decides whether
    the model is placed: whatever the outcome, the same model is appended,
    the same object joins the scene and the load ends the same way.  The
    outcomes differ in one announcement only, the [Tracking Data Loaded] of
    a successful request; the three ways to fail cannot be told apart. *)
Theorem mind_outcome_is_cosmetic s i now :
  (forall o1 o2,
     let s1 := VariantA.onMind s i o1 now in
     let s2 := VariantA.onMind s i o2 now in
     sceneState s1 = sceneState s2 /\
     State.selectedModel s1 = State.selectedModel s2 /\
     State.isLoading s1 = State.isLoading s2 /\
     State.inflight s1 = State.inflight s2) /\
  (forall o1 o2, o1 <> MindOk -> o2 <> MindOk ->
     VariantA.onMind s i o1 now = VariantA.onMind s i o2 now) /\
  (forall modelName gltf,
     State.inflight s !! i
       = Some (Pending.mk num modelName (Pending.AwaitMind gltf)) ->
     List.map Toast.title (State.toasts (VariantA.onMind s i MindOk now))
     = List.map Toast.title (State.toasts s) ++ ["Tracking Data Loaded"] ++
       drop (length (State.toasts s))
         (List.map Toast.title
            (State.toasts (VariantA.onMind s i MindNotOk now)))).
Proof.
  split; [|split].
  - intros o1 o2. cbv zeta. unfold VariantA.onMind.
    destruct (State.inflight s !! i) as [[modelName [|gltf]]|]; auto.
    destruct o1, o2; simpl; destruct (State.sceneRef s); auto.
  - intros o1 o2 H1 H2. unfold VariantA.onMind.
    destruct (State.inflight s !! i) as [[modelName [|gltf]]|]; auto.
    destruct o1, o2; try congruence; reflexivity.
  - intros modelName gltf Hi. unfold VariantA.onMind. rewrite Hi. simpl.
    destruct (State.sceneRef s); simpl; rewrite !map_app; simpl;
      rewrite drop_app_length'; try (now rewrite length_map);
      now rewrite <- app_assoc.
Qed.

End ViewerFlows.

(** ** The ids of the placed models *)

Section Ids.
Context {num : Type} `{JsNumber num}.
Implicit Type s : State.t num.

Lemma showN_inj a b : Js.showN a = Js.showN b -> a = b.
Proof.
  unfold Js.showN. intros Heq.
  apply (f_equal DecimalString.NilEmpty.uint_of_string) in Heq.
  rewrite !DecimalString.NilEmpty.usu in Heq. inversion Heq as [Hu].
  apply (f_equal N.of_uint) in Hu. now rewrite !DecimalN.Unsigned.of_to in Hu.
Qed.

Lemma digits_no_dash d pre suf :
  DecimalString.NilEmpty.string_of_uint d <> pre +:+ String "-" suf.
Proof.
  revert pre. induction d; intros pre; simpl;
    (destruct pre as [|c pre];
     [rewrite append_nil; discriminate
     |rewrite append_cons; intros Heq; inversion Heq; subst;
      try discriminate; eapply IHd; eassumption]).
Qed.

(** The id [name-stamp] determines the stamp. *)
Lemma id_stamp n1 n2 (a b : N) :
  n1 +:+ "-" +:+ Js.showN a = n2 +:+ "-" +:+ Js.showN b -> a = b.
Proof.
  rewrite !append_cons, !append_nil. revert n2.
  induction n1 as [|c n1 IH]; intros [|c2 n2];
    rewrite ?append_nil, ?append_cons; intros Heq; inversion Heq; subst.
  - now apply showN_inj.
  - exfalso. eapply digits_no_dash. unfold Js.showN in *. eassumption.
  - exfalso. eapply digits_no_dash. unfold Js.showN in *. symmetry. eassumption.
  - eapply IH. eassumption.
Qed.

Lemma stamped_weaken seen seen' (l : list (ARModel.t num)) :
  (forall now, In now seen -> In now seen') -> stamped seen l -> stamped seen' l.
Proof.
  intros Hsub [Hnd Hid]. split; [exact Hnd|].
  intros m Hm. destruct (Hid m Hm) as (now & Hnow & Heq). eauto.
Qed.

Lemma stamped_ext seen (l l' : list (ARModel.t num)) :
  List.map idName l' = List.map idName l -> stamped seen l -> stamped seen l'.
Proof.
  intros Hmap [Hnd Hid].
  assert (Hids : List.map ARModel.id l' = List.map ARModel.id l).
  { apply (f_equal (List.map fst)) in Hmap. now rewrite !map_map in Hmap. }
  split; [now rewrite Hids|]. intros m Hm.
  apply (in_map idName) in Hm. rewrite Hmap in Hm.
  apply in_map_iff in Hm as (m0 & Hkey & Hm0).
  destruct (Hid m0 Hm0) as (now & Hnow & Heq). exists now. split; [exact Hnow|].
  unfold idName in Hkey. inversion Hkey as [[Hi Hn]]. congruence.
Qed.

Lemma stamped_filter seen (f : ARModel.t num -> bool) l :
  stamped seen l -> stamped seen (List.filter f l).
Proof.
  intros [Hnd Hid]. split.
  - clear Hid. induction l as [|a l IH]; [constructor|]. simpl in *.
    apply NoDup_cons in Hnd as [Hnotin Hnd]. destruct (f a); [|auto].
    simpl. apply NoDup_cons. split; [|auto]. intros Hin. apply Hnotin.
    apply list_elem_of_In in Hin. apply list_elem_of_In.
    apply in_map_iff in Hin as (m & Hm & Hin). apply filter_In in Hin as [Hin _].
    rewrite <- Hm. now apply in_map.
  - intros m Hm. apply filter_In in Hm as [Hm _]. auto.
Qed.

Lemma stamped_new seen (l : list (ARModel.t num)) modelName h gltf now :
  ~ In now seen -> stamped seen l ->
  stamped (seen ++ [now]) (l ++ [newModel modelName h gltf now]).
Proof.
  intros Hnew [Hnd Hid]. split.
  - rewrite map_app. simpl. apply NoDup_app. split; [exact Hnd|].
    split; [|apply NoDup_singleton].
    intros i Hi Hi'. apply list_elem_of_In in Hi. apply list_elem_of_In in Hi'.
    destruct Hi' as [<-|[]]. apply in_map_iff in Hi as (m & Hm & Hin).
    destruct (Hid m Hin) as (now' & Hnow' & Heq). rewrite Heq in Hm.
    apply id_stamp in Hm. congruence.
  - intros m Hm. apply in_app_iff in Hm as [Hm|[<-|[]]].
    + destruct (Hid m Hm) as (now' & Hnow' & Heq). exists now'.
      split; [apply in_app_iff; auto | exact Heq].
    + exists now. split; [apply in_app_iff; simpl; auto | reflexivity].
Qed.

Lemma walk_idName test touch upd (l : list (ARModel.t num)) heap :
  (forall m o, idName (upd m o) = idName m) ->
  List.map idName (mapStore (visit test touch upd) l heap).1 = List.map idName l.
Proof.
  intros Hupd. revert heap. induction l as [|a l IH]; intros heap; [reflexivity|].
  rewrite mapStore_cons. simpl. rewrite IH. f_equal.
  unfold visit. destruct (test a); simpl; [apply Hupd | reflexivity].
Qed.

Lemma toggle_idName (l : list (ARModel.t num)) modelId :
  List.map idName
    (List.map (fun model =>
       if String.eqb (ARModel.id model) modelId
       then ARModel.with_locked (negb (ARModel.locked model)) model
       else model) l)
  = List.map idName l.
Proof.
  rewrite map_map. apply map_ext. intros m.
  now destruct (String.eqb (ARModel.id m) modelId).
Qed.

End Ids.

(** ** Ids along a run *)

Section IdsRun.
Context {num : Type} `{JsNumber num}.
Implicit Type s : State.t num.

Lemma stamped_stepB seen s e :
  stamped seen (State.arModels s) ->
  (forall now, In now (stampsB [e]) -> ~ In now seen) ->
  stamped (seen ++ stampsB [e]) (State.arModels (VariantB.step s e)).
Proof.
  intros Hs Hnew.
  assert (Hw : stamped (seen ++ stampsB [e]) (State.arModels s)).
  { revert Hs. apply stamped_weaken. intros now Hn. apply in_app_iff. auto. }
  destruct e; simpl; try exact Hw.
  - unfold VariantB.initScene. destruct mounted; exact Hw.
  - unfold VariantB.startCamera. destruct video, granted; exact Hw.
  - unfold VariantB.spawnModel.
    destruct (State.sceneRef s); [destruct (State.isLoading s)|]; exact Hw.
  - unfold VariantB.onProgress. case_pending; exact Hw.
  - unfold VariantB.onLoad. case_pending; try exact Hw.
    destruct (State.sceneRef s); [|exact Hw]. simpl.
    apply stamped_new; [|exact Hs]. apply Hnew. simpl. auto.
  - unfold VariantB.onError. case_pending; exact Hw.
  - unfold VariantB.toggleSelected.
    destruct (State.selectedModel s); [|exact Hw].
    destruct (List.find _ _); [|exact Hw].
    revert Hw. apply stamped_ext. apply toggle_idName.
  - unfold VariantB.removeSelected.
    destruct (State.selectedModel s); [|exact Hw]. simpl.
    now apply stamped_filter.
  - destruct (transformB_walk s modelId delta) as [Hm _]. rewrite Hm.
    revert Hw. apply stamped_ext. now apply walk_idName.
Qed.

Lemma stamped_stepA seen s e :
  stamped seen (State.arModels s) ->
  (forall now, In now (stampsA [e]) -> ~ In now seen) ->
  stamped (seen ++ stampsA [e]) (State.arModels (VariantA.step s e)).
Proof.
  intros Hs Hnew.
  assert (Hw : stamped (seen ++ stampsA [e]) (State.arModels s)).
  { revert Hs. apply stamped_weaken. intros now Hn. apply in_app_iff. auto. }
  destruct e; simpl; try exact Hw.
  - unfold VariantA.startCamera. destruct granted, video; exact Hw.
  - unfold VariantA.spawnModel.
    destruct (State.sceneRef s); [destruct (State.isLoading s)|]; exact Hw.
  - unfold VariantA.onProgress. case_pending; exact Hw.
  - unfold VariantA.onLoad. case_pending; exact Hw.
  - unfold VariantA.onError. case_pending; exact Hw.
  - unfold VariantA.onMind. case_pending; try exact Hw.
    destruct outcome; simpl; (destruct (State.sceneRef s); [|exact Hw]);
      simpl; (apply stamped_new; [|exact Hs]); apply Hnew; simpl; auto.
  - revert Hw. apply stamped_ext. apply toggle_idName.
  - unfold VariantA.transformModel.
    destruct (VariantA.findModel s modelId) as [m|]; [|exact Hw].
    destruct (ARModel.locked m); exact Hw.
  - destruct (handleMaterialSelect_walk s modelId materialId) as (Hm & _).
    rewrite Hm. revert Hw. apply stamped_ext. now apply walk_idName.
Qed.

Lemma stamped_fold {E : Type} (step : State.t num -> E -> State.t num)
    (stamps : list E -> list N) :
  (forall e es, stamps (e :: es) = stamps [e] ++ stamps es) ->
  stamps [] = [] ->
  (forall seen s e,
     stamped seen (State.arModels s) ->
     (forall now, In now (stamps [e]) -> ~ In now seen) ->
     stamped (seen ++ stamps [e]) (State.arModels (step s e))) ->
  forall es seen s,
    stamped seen (State.arModels s) -> NoDup (seen ++ stamps es) ->
    stamped (seen ++ stamps es) (State.arModels (List.fold_left step es s)).
Proof.
  intros Hcons Hnil Hstep es.
  induction es as [|e es IH]; intros seen s Hs Hnd; simpl.
  - rewrite Hnil, app_nil_r. exact Hs.
  - rewrite Hcons in Hnd |- *. rewrite app_assoc in Hnd |- *.
    apply IH; [|exact Hnd]. apply Hstep; [exact Hs|].
    intros now Hnow Hseen. apply NoDup_app in Hnd as [Hnd _].
    apply NoDup_app in Hnd as (_ & Hdisj & _).
    apply (Hdisj now); now apply list_elem_of_In.
Qed.

(** X10.  In variant B the ids of the placed models are pairwise different
    in every state the component reaches, provided no two loads complete in
    the same millisecond; each id is the model's name, a dash and the time
    stamp of its load. *)
Theorem ids_unique_B (es : list (VariantB.Event num)) :
  NoDup (stampsB es) ->
  NoDup (List.map ARModel.id (State.arModels (VariantB.run es))) /\
  forall m, In m (State.arModels (VariantB.run es)) ->
    exists now, In now (stampsB es) /\
      ARModel.id m = ARModel.name m +:+ "-" +:+ Js.showN now.
Proof.
  intros Hnd.
  apply (stamped_fold VariantB.step stampsB) with (seen := []) (es := es)
                                                  (s := State.initial).
  - intros e es'. unfold stampsB. simpl. now rewrite app_nil_r.
  - reflexivity.
  - apply stamped_stepB.
  - split; [constructor | intros m []].
  - exact Hnd.
Qed.

(** X11.  The same in variant A, where the time stamp is taken when the
    request for the tracking file is over. *)
Theorem ids_unique_A (es : list (VariantA.Event num)) :
  NoDup (stampsA es) ->
  NoDup (List.map ARModel.id (State.arModels (VariantA.run es))) /\
  forall m, In m (State.arModels (VariantA.run es)) ->
    exists now, In now (stampsA es) /\
      ARModel.id m = ARModel.name m +:+ "-" +:+ Js.showN now.
Proof.
  intros Hnd.
  apply (stamped_fold VariantA.step stampsA) with (seen := []) (es := es)
                                                  (s := State.initial).
  - intros e es'. unfold stampsA. simpl. now rewrite app_nil_r.
  - reflexivity.
  - apply stamped_stepA.
  - split; [constructor | intros m []].
  - exact Hnd.
Qed.

End IdsRun.

(** Two chairs loaded one after the other, a millisecond apart. *)
Lemma ids_unique_B_witness :
  let es := [VariantB.Mount true;
             VariantB.Spawn "chair"; VariantB.Loaded 0 Sample.asset 1%N;
             VariantB.Spawn "chair"; VariantB.Loaded 0 Sample.asset 2%N] in
  List.map ARModel.id (State.arModels (VariantB.run es)) = ["chair-1"; "chair-2"] /\
  NoDup (List.map ARModel.id (State.arModels (VariantB.run es))).
Proof.
  intros es. split; [reflexivity|].
  refine (proj1 (ids_unique_B es _)).
  apply (bool_decide_unpack _). vm_compute. reflexivity.
Defined.

Lemma ids_unique_A_witness :
  let es := [VariantA.StartCamera true true;
             VariantA.Spawn "chair";
             VariantA.Loaded 0 Sample.asset 0%Q 0%Q;
             VariantA.Mind 0 MindNotOk 1%N;
             VariantA.Spawn "chair";
             VariantA.Loaded 0 Sample.asset 0%Q 0%Q;
             VariantA.Mind 0 MindOk 2%N] in
  List.map ARModel.id (State.arModels (VariantA.run es)) = ["chair-1"; "chair-2"] /\
  NoDup (List.map ARModel.id (State.arModels (VariantA.run es))).
Proof.
  intros es. split; [reflexivity|].
  refine (proj1 (ids_unique_A es _)).
  apply (bool_decide_unpack _). vm_compute. reflexivity.
Defined.

(** ** From the index files to the viewer's lists and panels *)

Section AssetLists.

Lemma startsWith_refl pat : startsWith pat pat = true.
Proof. induction pat as [|c pat IH]; simpl; [reflexivity|]. now rewrite Ascii.eqb_refl. Qed.

Lemma skip_all s : JsReplace.skip (String.length s) s = "".
Proof. induction s as [|c s IH]; simpl; auto. Qed.

Lemma replaceFirst_unfold pat s :
  JsReplace.replaceFirst pat s
  = if startsWith s pat then JsReplace.skip (String.length pat) s
    else match s with
         | EmptyString => EmptyString
         | String c r => String c (JsReplace.replaceFirst pat r)
         end.
Proof. destruct s; reflexivity. Qed.

(** A name without a dot in front of the extension: the extension is what
    [replace] takes away. *)
Lemma replaceFirst_stem rest stem :
  includes stem "." = false ->
  JsReplace.replaceFirst (String "." rest) (stem +:+ String "." rest) = stem.
Proof.
  induction stem as [|c stem IH]; intros Hdot.
  - rewrite append_nil, replaceFirst_unfold, startsWith_refl.
    apply (skip_all (String "." rest)).
  - simpl in Hdot. apply orb_false_elim in Hdot as [Hc Hrest].
    rewrite append_cons, replaceFirst_unfold.
    assert (Hs : startsWith (String c (stem +:+ String "." rest)) (String "." rest)
                 = false).
    { simpl. simpl in Hc. destruct (Ascii.eqb c "."); [discriminate|reflexivity]. }
    rewrite Hs. f_equal. now apply IH.
Qed.

(** What a successful run of the script leaves in the two index files. *)
Lemma main_result publicDir fs fs' :
  Indexer.main publicDir fs = inr fs' ->
  let p3 := publicDir ++ ["3d"] in
  let pm := publicDir ++ ["minds"] in
  fs' !! (p3 ++ ["index.json"])
    = Some (Fs.File (JSON.stringify (listing fs' p3 ".glb"))) /\
  fs' !! (pm ++ ["index.json"])
    = Some (Fs.File (JSON.stringify (listing fs' pm ".mind"))).
Proof.
  unfold Indexer.main. unfold mbind at 1, result_bind at 1.
  destruct (Indexer.generateIndex publicDir fs "3d" ".glb") as [e|fsA] eqn:H3;
    [discriminate|].
  intros Hm. cbv zeta.
  set (p3 := publicDir ++ ["3d"]). set (pm := publicDir ++ ["minds"]).
  destruct (generateIndex_result publicDir fs "3d" ".glb" fsA eq_refl H3)
    as [_ Hidx3].
  destruct (generateIndex_result publicDir fsA "minds" ".mind" fs' eq_refl Hm)
    as [_ Hidxm].
  split; [|exact Hidxm].
  apply generateIndex_inv in Hm as (fsB & HensB & _ & _ & Hfs').
  apply ensureDir_frame in HensB as [_ Hframe].
  change (Fs.join publicDir "3d") with p3 in *.
  change (Fs.join publicDir "minds") with pm in *.
  assert (Hchild : forall n, fs' !! (p3 ++ [n]) = fsA !! (p3 ++ [n])).
  { intros n.
    destruct (index_paths_apart publicDir "3d" "minds" n) as [Hne Hpre];
      [discriminate|].
    rewrite Hfs', lookup_insert_ne; [now apply Hframe|].
    intros Heq. apply Hne. symmetry. exact Heq. }
  rewrite Hchild, Hidx3. do 3 f_equal.
  apply listing_ext. intros n _. now rewrite Hchild.
Qed.

Lemma existsb_name (glbFiles : list AssetFile.t) name :
  List.existsb (fun glb => String.eqb (AssetFile.name glb) name) glbFiles = true
  <-> exists glb, In glb glbFiles /\ AssetFile.name glb = name.
Proof.
  rewrite existsb_exists. split; intros (g & Hg & Heq); exists g;
    (split; [exact Hg|]); now apply String.eqb_eq.
Qed.

(** X13.  The script and the page agree on names.  After a successful run of
    [main] the page reads both index files back as the script's listings:
    one entry per listed file, in the listing's order.  For a file whose
    name has no dot in front of its extension the entry's display name is
    the name without the extension, the path [spawnModel] requests is that
    of the file, and when both the model and the tracking file of a name are
    there, the panel offers the name with its button enabled. *)
Theorem index_feeds_viewer publicDir fs fs' :
  Indexer.main publicDir fs = inr fs' ->
  let p3 := publicDir ++ ["3d"] in
  let pm := publicDir ++ ["minds"] in
  exists glbText mindText glbFiles mindFiles,
    fs' !! (p3 ++ ["index.json"]) = Some (Fs.File glbText) /\
    fs' !! (pm ++ ["index.json"]) = Some (Fs.File mindText) /\
    Assets.loadModels (Body glbText) = Some glbFiles /\
    Assets.loadMindFiles (Body mindText) = Some mindFiles /\
    List.map AssetFile.file glbFiles = listing fs' p3 ".glb" /\
    List.map AssetFile.file mindFiles = listing fs' pm ".mind" /\
    forall stem, includes stem "." = false ->
      (is_Some (fs' !! (p3 ++ [stem +:+ ".glb"])) ->
       In (AssetFile.mk stem (stem +:+ ".glb")) glbFiles /\
       Assets.glbPath stem = "/3d/" +:+ (stem +:+ ".glb")) /\
      (is_Some (fs' !! (pm ++ [stem +:+ ".mind"])) ->
       In (AssetFile.mk stem (stem +:+ ".mind")) mindFiles /\
       Assets.mindPath stem = "/minds/" +:+ (stem +:+ ".mind")) /\
      (is_Some (fs' !! (p3 ++ [stem +:+ ".glb"])) ->
       is_Some (fs' !! (pm ++ [stem +:+ ".mind"])) ->
       In (Assets.mkButton stem true)
          (Assets.availableModels true mindFiles glbFiles)).
Proof.
  intros Hrun p3 pm. destruct (main_result _ _ _ Hrun) as [H3 Hm].
  fold p3 in H3. fold pm in Hm.
  set (glbs := listing fs' p3 ".glb") in *.
  set (minds := listing fs' pm ".mind") in *.
  exists (JSON.stringify glbs), (JSON.stringify minds).
  exists (List.map (fun file =>
            AssetFile.mk (JsReplace.replaceFirst ".glb" file) file) glbs).
  exists (List.map (fun file =>
            AssetFile.mk (JsReplace.replaceFirst ".mind" file) file) minds).
  split; [exact H3|]. split; [exact Hm|].
  split; [unfold Assets.loadModels; now rewrite parse_stringify|].
  split; [unfold Assets.loadMindFiles; now rewrite parse_stringify|].
  split; [rewrite map_map; apply map_id|].
  split; [rewrite map_map; apply map_id|].
  intros stem Hdot.
  assert (Hglb : is_Some (fs' !! (p3 ++ [stem +:+ ".glb"])) ->
            In (AssetFile.mk stem (stem +:+ ".glb"))
               (List.map (fun file =>
                  AssetFile.mk (JsReplace.replaceFirst ".glb" file) file) glbs)).
  { intros Hin. apply in_map_iff. exists (stem +:+ ".glb"). split.
    - f_equal. now apply replaceFirst_stem.
    - apply list_elem_of_In, elem_of_listing. split; [exact Hin|].
      now exists stem. }
  assert (Hmind : is_Some (fs' !! (pm ++ [stem +:+ ".mind"])) ->
            In (AssetFile.mk stem (stem +:+ ".mind"))
               (List.map (fun file =>
                  AssetFile.mk (JsReplace.replaceFirst ".mind" file) file) minds)).
  { intros Hin. apply in_map_iff. exists (stem +:+ ".mind"). split.
    - f_equal. now apply replaceFirst_stem.
    - apply list_elem_of_In, elem_of_listing. split; [exact Hin|].
      now exists stem. }
  split; [|split].
  - intros Hin. split; [now apply Hglb|].
    reflexivity.
  - intros Hin. split; [now apply Hmind|].
    reflexivity.
  - intros Hin3 Hinm. apply Hglb in Hin3. apply Hmind in Hinm.
    unfold Assets.availableModels.
    destruct (List.map _ minds) as [|m0 ms] eqn:Em; [destruct Hinm|].
    destruct (List.map _ glbs) as [|g0 gs] eqn:Eg; [destruct Hin3|].
    simpl andb. cbv iota. apply in_map_iff.
    exists (AssetFile.mk stem (stem +:+ ".mind")). split; [|exact Hinm].
    simpl AssetFile.name. f_equal. apply existsb_name.
    exists (AssetFile.mk stem (stem +:+ ".glb")). split; [exact Hin3|reflexivity].
Qed.

(** X14.  What the panel of available models can do.  It shows nothing
    unless the camera is active and both lists have entries; when it shows,
    there is one button per tracking file, in the list's order.  A click
    that changes anything is a [spawnModel] for a display name that an entry
    of each list carries, made while a scene exists and nothing is loading.
    The match is by display name only, so the file then requested need not
    be a listed one: with [my.glb.backup.glb] and [my.backup.glb.mind] in
    the index files both display names are [my.backup.glb], the button is
    enabled, and the request goes to [/3d/my.backup.glb.glb]. *)
Theorem availableModels_sound {num} `{JsNumber num} cameraActive
    (mindFiles glbFiles : list AssetFile.t) :
  (cameraActive = false \/ mindFiles = [] \/ glbFiles = [] ->
   Assets.availableModels cameraActive mindFiles glbFiles = []) /\
  List.map Assets.label (Assets.availableModels true mindFiles glbFiles)
    = match glbFiles with
      | [] => []
      | _ :: _ => List.map AssetFile.name mindFiles
      end /\
  (forall b (s : State.t num),
     In b (Assets.availableModels cameraActive mindFiles glbFiles) ->
     Assets.clickModel s b <> s ->
     (exists glb, In glb glbFiles /\ AssetFile.name glb = Assets.label b) /\
     (exists mindFile,
        In mindFile mindFiles /\ AssetFile.name mindFile = Assets.label b) /\
     Assets.clickModel s b = VariantA.spawnModel s (Assets.label b) /\
     is_Some (State.sceneRef s) /\ State.isLoading s = false) /\
  (let glbs := ["my.glb.backup.glb"] in
   let minds := ["my.backup.glb.mind"] in
   exists listedGlbs listedMinds,
     Assets.loadModels (Body (JSON.stringify glbs)) = Some listedGlbs /\
     Assets.loadMindFiles (Body (JSON.stringify minds)) = Some listedMinds /\
     Assets.availableModels true listedMinds listedGlbs
       = [Assets.mkButton "my.backup.glb" true] /\
     Assets.glbPath "my.backup.glb" = "/3d/my.backup.glb.glb" /\
     forall file, In file glbs ->
       Assets.glbPath "my.backup.glb" <> "/3d/" +:+ file).
Proof.
  split; [|split; [|split]].
  - unfold Assets.availableModels. intros [->|[->| ->]]; [reflexivity| |].
    + now rewrite andb_false_r.
    + simpl. now rewrite !andb_false_r.
  - unfold Assets.availableModels.
    destruct glbFiles as [|g gs]; [simpl; now rewrite andb_false_r|].
    destruct mindFiles as [|m ms]; [reflexivity|].
    simpl andb. change (0 <? S (length gs))%nat with true. cbv iota.
    rewrite map_map. reflexivity.
  - intros b s Hb Hclick. unfold Assets.availableModels in Hb.
    destruct (cameraActive && _); [|destruct Hb].
    apply in_map_iff in Hb as (mf & <- & Hmf).
    unfold Assets.clickModel in *. simpl in *.
    destruct (List.existsb _ glbFiles) eqn:Hglb; [|congruence].
    apply existsb_name in Hglb.
    split; [exact Hglb|]. split; [now exists mf|]. split; [reflexivity|].
    unfold VariantA.spawnModel in Hclick.
    destruct (State.sceneRef s); [|congruence].
    destruct (State.isLoading s); [congruence|]. split; [eauto | reflexivity].
  - cbv zeta. eexists _, _.
    split; [vm_compute; reflexivity|]. split; [vm_compute; reflexivity|].
    split; [vm_compute; reflexivity|]. split; [vm_compute; reflexivity|].
    intros file [<-|[]]. vm_compute. discriminate.
Qed.

End AssetLists.

Lemma index_feeds_viewer_witness :
  exists glbText glbFiles,
    SampleRun.built !! ["app"; "public"; "3d"; "index.json"]
      = Some (Fs.File glbText) /\
    Assets.loadModels (Body glbText) = Some glbFiles /\
    In (AssetFile.mk "chair" "chair.glb") glbFiles.
Proof.
  destruct (index_feeds_viewer SampleFs.publicDir SampleFs.fs SampleRun.built)
    as (glbText & mindText & glbFiles & mindFiles & H3 & _ & Hload & _ & _ & _ & Hstem).
  - vm_cast_no_check (eq_refl (inr (A := Fs.error) SampleRun.built)).
  - exists glbText, glbFiles. split; [exact H3|]. split; [exact Hload|].
    apply (Hstem "chair" eq_refl). vm_compute. eauto.
Defined.

(** ** The material panel and the catalogs the models carry *)

Section MaterialPanel.
Context {num : Type} `{JsNumber num}.
Implicit Type s : State.t num.

Lemma find_selectMaterial modelId materialId (l : list (ARModel.t num)) heap :
  List.find (fun m => String.eqb (ARModel.id m) modelId)
    (mapStore (VariantA.selectMaterial modelId materialId) l heap).1
  = ARModel.with_selectedMaterial (Some materialId)
      <$> List.find (fun m => String.eqb (ARModel.id m) modelId) l.
Proof.
  revert heap. induction l as [|a l IH]; intros heap; [reflexivity|].
  rewrite mapStore_cons.
  assert (Hfst : (VariantA.selectMaterial modelId materialId a heap).1
                 = if String.eqb (ARModel.id a) modelId
                   then ARModel.with_selectedMaterial (Some materialId) a
                   else a).
  { unfold VariantA.selectMaterial.
    now destruct (String.eqb (ARModel.id a) modelId). }
  cbn [fst List.find]. rewrite Hfst.
  destruct (String.eqb (ARModel.id a) modelId) eqn:E; simpl; rewrite E;
    [reflexivity | apply IH].
Qed.

Lemma mapStore_length {A S : Type} (f : A -> S -> A * S) l st :
  length (mapStore f l st).1 = length l.
Proof.
  revert st. induction l as [|a l IH]; intros st; [reflexivity|].
  rewrite mapStore_cons. simpl. now rewrite IH.
Qed.

(** X15.  A click on a swatch shows in the panel.  When the material panel
    is shown and one of its swatches is clicked, the panel is shown again
    with the same swatches in the same order, and the swatches marked
    [selected] are exactly those with the key of the clicked one. *)
Theorem clickSwatch_marks_swatch s swatches sw :
  Panel.materialPanel s = Some swatches ->
  In sw swatches ->
  exists swatches',
    Panel.materialPanel (Panel.clickSwatch s sw) = Some swatches' /\
    swatches'
      = List.map (fun x => Swatch.mk (Swatch.key x)
                             (String.eqb (Swatch.key sw) (Swatch.key x))
                             (Swatch.background x) (Swatch.label x)) swatches /\
    forall x, In x swatches' ->
      (Swatch.selected x = true <-> Swatch.key x = Swatch.key sw).
Proof.
  unfold Panel.materialPanel, Panel.clickSwatch. intros Hpanel Hsw.
  destruct (State.cameraActive s) eqn:Hcam; [|discriminate].
  destruct (0 <? length (State.arModels s))%nat eqn:Hlen; [|discriminate].
  simpl in Hpanel.
  destruct (State.selectedModel s) as [sel|] eqn:Hsel; [|discriminate].
  destruct (String.eqb sel "") eqn:Hempty; [discriminate|].
  unfold VariantA.findModel in *.
  destruct (List.find _ (State.arModels s)) as [m|] eqn:Hfind; [|discriminate].
  destruct (0 <? length (ARModel.materials m))%nat eqn:Hmat; [|discriminate].
  inversion Hpanel as [Hsws]. clear Hpanel.
  set (s' := VariantA.handleMaterialSelect s sel (Swatch.key sw)).
  assert (Hfields : State.cameraActive s' = true /\
                    State.selectedModel s' = Some sel /\
                    State.arModels s'
                    = (mapStore (VariantA.selectMaterial sel (Swatch.key sw))
                         (State.arModels s) (State.heap s)).1).
  { subst s'. unfold VariantA.handleMaterialSelect.
    destruct (mapStore _ _ _) as [models heap]. simpl. auto. }
  destruct Hfields as (Hcam' & Hsel' & Hmodels').
  rewrite Hcam', Hsel', Hmodels', mapStore_length, Hlen, Hempty.
  rewrite find_selectMaterial, Hfind. simpl. rewrite Hmat.
  eexists. split; [reflexivity|].
  assert (Heq : MaterialSelector (ARModel.materials m) (Some (Swatch.key sw))
    = List.map (fun x => Swatch.mk (Swatch.key x)
                           (String.eqb (Swatch.key sw) (Swatch.key x))
                           (Swatch.background x) (Swatch.label x))
        (MaterialSelector (ARModel.materials m) (ARModel.selectedMaterial m))).
  { unfold MaterialSelector. rewrite map_map. reflexivity. }
  split; [exact Heq|]. rewrite Heq. intros x Hx.
  apply in_map_iff in Hx as (x0 & <- & _). simpl.
  rewrite String.eqb_eq. split; congruence.
Qed.

Local Abbreviation carries :=
  (fun m : ARModel.t num => ARModel.materials m = getModelMaterials (ARModel.name m)).

Lemma carries_ext (l l' : list (ARModel.t num)) :
  List.map (fun m => (ARModel.name m, ARModel.materials m)) l'
  = List.map (fun m => (ARModel.name m, ARModel.materials m)) l ->
  Forall carries l -> Forall carries l'.
Proof.
  rewrite !Forall_forall. intros Hmap Hl m Hm.
  apply list_elem_of_In in Hm.
  apply (in_map (fun m => (ARModel.name m, ARModel.materials m))) in Hm.
  rewrite Hmap in Hm. apply in_map_iff in Hm as (m0 & Hkey & Hm0).
  apply list_elem_of_In in Hm0. apply Hl in Hm0. inversion Hkey. congruence.
Qed.

Lemma carries_walk test touch upd (l : list (ARModel.t num)) heap :
  (forall m o, ARModel.name (upd m o) = ARModel.name m /\
               ARModel.materials (upd m o) = ARModel.materials m) ->
  Forall carries l -> Forall carries (mapStore (visit test touch upd) l heap).1.
Proof.
  intros Hupd. apply carries_ext. revert heap.
  induction l as [|a l IH]; intros heap; [reflexivity|].
  rewrite mapStore_cons. simpl. rewrite IH. f_equal.
  unfold visit. destruct (test a); simpl; [|reflexivity].
  destruct (Hupd a (alter (touch a) (ARModel.model a) heap !! ARModel.model a))
    as [-> ->]. reflexivity.
Qed.

Lemma carries_toggle (l : list (ARModel.t num)) modelId :
  Forall carries l ->
  Forall carries
    (List.map (fun model =>
       if String.eqb (ARModel.id model) modelId
       then ARModel.with_locked (negb (ARModel.locked model)) model
       else model) l).
Proof.
  apply carries_ext. rewrite map_map. apply map_ext. intros m.
  now destruct (String.eqb (ARModel.id m) modelId).
Qed.

Lemma carries_new (l : list (ARModel.t num)) modelName h gltf now :
  Forall carries l -> Forall carries (l ++ [newModel modelName h gltf now]).
Proof.
  intros Hl. apply Forall_app. split; [exact Hl|]. now repeat constructor.
Qed.

Lemma carries_stepA s e :
  Forall carries (State.arModels s) ->
  Forall carries (State.arModels (VariantA.step s e)).
Proof.
  intros Hs. destruct e; simpl; try exact Hs.
  - unfold VariantA.startCamera. destruct granted, video; exact Hs.
  - unfold VariantA.spawnModel.
    destruct (State.sceneRef s); [destruct (State.isLoading s)|]; exact Hs.
  - unfold VariantA.onProgress. case_pending; exact Hs.
  - unfold VariantA.onLoad. case_pending; exact Hs.
  - unfold VariantA.onError. case_pending; exact Hs.
  - unfold VariantA.onMind. case_pending; try exact Hs.
    destruct outcome; simpl; (destruct (State.sceneRef s); [|exact Hs]);
      simpl; now apply carries_new.
  - now apply carries_toggle.
  - unfold VariantA.transformModel.
    destruct (VariantA.findModel s modelId) as [m|]; [|exact Hs].
    destruct (ARModel.locked m); exact Hs.
  - destruct (handleMaterialSelect_walk s modelId materialId) as (Hm & _).
    rewrite Hm. now apply carries_walk.
Qed.

Lemma carries_stepB s e :
  Forall carries (State.arModels s) ->
  Forall carries (State.arModels (VariantB.step s e)).
Proof.
  intros Hs. destruct e; simpl; try exact Hs.
  - unfold VariantB.initScene. destruct mounted; exact Hs.
  - unfold VariantB.startCamera. destruct video, granted; exact Hs.
  - unfold VariantB.spawnModel.
    destruct (State.sceneRef s); [destruct (State.isLoading s)|]; exact Hs.
  - unfold VariantB.onProgress. case_pending; exact Hs.
  - unfold VariantB.onLoad. case_pending; try exact Hs.
    destruct (State.sceneRef s); [|exact Hs]. simpl. now apply carries_new.
  - unfold VariantB.onError. case_pending; exact Hs.
  - unfold VariantB.toggleSelected.
    destruct (State.selectedModel s); [|exact Hs].
    destruct (List.find _ _); [|exact Hs]. now apply carries_toggle.
  - unfold VariantB.removeSelected.
    destruct (State.selectedModel s); [|exact Hs]. simpl.
    rewrite Forall_forall in *. intros m Hm. apply Hs.
    apply list_elem_of_In in Hm. apply list_elem_of_In.
    now apply filter_In in Hm as [Hm _].
  - destruct (transformB_walk s modelId delta) as [Hm _]. rewrite Hm.
    now apply carries_walk.
Qed.

(** X16.  Every catalog is fit for the panel, and every placed model keeps
    the catalog of its name.  Whatever the name, the ids of the catalog are
    pairwise different and not empty, and every colour is read as a number
    between [0] and [0xffffff], never as [NaN].  In every state either
    variant reaches, each placed model carries exactly the catalog
    [getModelMaterials] gives for its name: no operation edits it. *)
Theorem placed_models_carry_their_catalog :
  (forall modelName,
     NoDup (List.map Material.id (getModelMaterials modelName)) /\
     Forall (fun d =>
               Material.id d <> "" /\
               exists v, VariantA.colorHex d = Some v /\ (0 <= v <= 16777215)%Z)
            (getModelMaterials modelName)) /\
  (forall es (m : ARModel.t num), In m (State.arModels (VariantA.run es)) ->
     ARModel.materials m = getModelMaterials (ARModel.name m)) /\
  (forall es (m : ARModel.t num), In m (State.arModels (VariantB.run es)) ->
     ARModel.materials m = getModelMaterials (ARModel.name m)).
Proof.
  split; [|split].
  - intros modelName. split; [apply catalog_ids_unique|].
    destruct (getModelMaterials_cases modelName) as [E|[E|[E|E]]]; rewrite E;
      repeat constructor; try discriminate;
      (eexists; split; [vm_compute; reflexivity | lia]).
  - intros es.
    assert (Hall : Forall carries (State.arModels (VariantA.run (num := num) es))).
    { unfold VariantA.run.
      apply (fold_left_invariant
               (fun s => Forall carries (State.arModels s)) VariantA.step);
        [apply carries_stepA | constructor]. }
    rewrite Forall_forall in Hall. intros m Hm. apply Hall.
    now apply list_elem_of_In.
  - intros es.
    assert (Hall : Forall carries (State.arModels (VariantB.run (num := num) es))).
    { unfold VariantB.run.
      apply (fold_left_invariant
               (fun s => Forall carries (State.arModels s)) VariantB.step);
        [apply carries_stepB | constructor]. }
    rewrite Forall_forall in Hall. intros m Hm. apply Hall.
    now apply list_elem_of_In.
Qed.

End MaterialPanel.

(** Blue fabric chosen for the sample chair. *)
Lemma clickSwatch_marks_swatch_witness :
  let s := Sample.state ModeMove in
  let sw := Swatch.mk "fabric-blue" false
              "linear-gradient(135deg, #3B82F6, #60A5FA)" "Blue Fabric" in
  exists swatches',
    Panel.materialPanel (Panel.clickSwatch s sw) = Some swatches' /\
    List.map Swatch.selected swatches'
    = [false; false; false; true; false; false; false; false].
Proof.
  intros s sw.
  destruct (clickSwatch_marks_swatch s
              (MaterialSelector chairMaterials (Some "leather-brown")) sw eq_refl)
    as (swatches' & Hpanel & Heq & _).
  - simpl. auto 10.
  - exists swatches'. split; [exact Hpanel|]. rewrite Heq. reflexivity.
Defined.

(** ** The camera of variant A *)

Section DeadCamera.
Context {num : Type} `{JsNumber num}.
Implicit Type s : State.t num.

Local Abbreviation idle s :=
  (State.cameraActive s = false /\ State.sceneRef s = None /\
   State.arModels s = [] /\ State.inflight s = [] /\ State.heap s = []).

Lemma idle_step s (e : VariantA.Event num) :
  idle s ->
  match e with
  | VariantA.StartCamera _ video => video = State.cameraActive s
  | _ => True
  end ->
  idle (VariantA.step s e).
Proof.
  intros (Hcam & Hsc & Hm & Hin & Hh) He.
  destruct e; simpl; try (repeat split; assumption).
  - rewrite Hcam in He. subst video. unfold VariantA.startCamera.
    destruct granted; simpl; repeat split; assumption.
  - unfold VariantA.spawnModel. rewrite Hsc. repeat split; assumption.
  - unfold VariantA.onProgress. rewrite Hin. simpl. repeat split; assumption.
  - unfold VariantA.onLoad. rewrite Hin. simpl. repeat split; assumption.
  - unfold VariantA.onError. rewrite Hin. simpl. repeat split; assumption.
  - unfold VariantA.onMind. rewrite Hin. simpl. repeat split; assumption.
  - rewrite Hm. simpl. repeat split; assumption.
  - unfold VariantA.transformModel, VariantA.findModel. rewrite Hm. simpl.
    repeat split; assumption.
  - unfold VariantA.handleMaterialSelect. rewrite Hm. simpl.
    repeat split; assumption.
Qed.

Lemma idle_fold es : forall s,
  idle s -> videoFollowsRender s es -> idle (List.fold_left VariantA.step es s).
Proof.
  induction es as [|e es IH]; intros s Hs Hv; [exact Hs|].
  destruct Hv as [He Hv]. simpl. apply IH; [|exact Hv]. now apply idle_step.
Qed.

(** X18.  Variant A cannot start its camera.  [startCamera] switches the
    camera on only when the video element is there, and the page renders the
    video element only while the camera is on.  So as long as the reference
    to the element is what the last render left, the camera stays off
    whatever the user does, the scene is never made, and no model is ever
    requested or placed. *)
Theorem camera_never_starts_A (es : list (VariantA.Event num)) :
  videoFollowsRender State.initial es ->
  let s := VariantA.run es in
  State.cameraActive s = false /\ State.sceneRef s = None /\
  State.arModels s = [] /\ State.inflight s = [] /\ State.heap s = [].
Proof.
  intros Hv. apply idle_fold; [|exact Hv]. repeat split.
Qed.

End DeadCamera.

Lemma camera_never_starts_A_witness :
  let es : list (VariantA.Event Q) :=
    [VariantA.StartCamera true false; VariantA.Spawn "chair";
     VariantA.StartCamera true false; VariantA.ToggleLock "chair-1"] in
  State.cameraActive (VariantA.run es) = false /\
  State.sceneRef (VariantA.run es) = None /\
  State.arModels (VariantA.run es) = [].
Proof.
  intros es.
  destruct (camera_never_starts_A es) as (Hcam & Hsc & Hm & _).
  - simpl. repeat split.
  - repeat split; assumption.
Defined.

(** ** The indexer on a directory without matching entries *)

Section EmptyDirectory.

(** X19.  A directory that is missing, or has no entry with the extension,
    gets an index all the same: the call creates the directory if need be
    and writes the empty array, the two characters [[]]. *)
Theorem generateIndex_empty_directory publicDir fs directory extension :
  let p := Fs.join publicDir directory in
  noFileOnPath fs p ->
  fs !! (p ++ ["index.json"]) <> Some Fs.Dir ->
  (forall n, hasSuffix n extension -> fs !! (p ++ [n]) = None) ->
  exists fs',
    Indexer.generateIndex publicDir fs directory extension = inr fs' /\
    Fs.stat fs' p = Some Fs.Dir /\
    fs' !! (p ++ ["index.json"]) = Some (Fs.File "[]").
Proof.
  intros p Hfile Hidx Hnone.
  destruct (generateIndex_effect publicDir fs directory extension Hfile Hidx)
    as (fs' & Hrun & Hwritten & _).
  fold p in Hwritten. exists fs'. split; [exact Hrun|]. split.
  - apply generateIndex_inv in Hrun as (fs1 & _ & Hst & _ & ->). fold p in Hst |- *.
    destruct p as [|a p]; [reflexivity|].
    change (Fs.stat ?m (a :: p)) with (m !! (a :: p)).
    rewrite lookup_insert_ne; [exact Hst|].
    intros Heq; symmetry in Heq; now apply child_ne in Heq.
  - rewrite Hwritten. do 2 f_equal.
    assert (Hempty : listing fs p extension = []).
    { apply elem_of_nil_inv. intros n Hn.
      apply elem_of_listing in Hn as [[v Hv] Hs].
      rewrite (Hnone n Hs) in Hv. discriminate. }
    now rewrite Hempty.
Qed.

Lemma generateIndex_empty_directory_witness :
  exists fs',
    Indexer.generateIndex SampleFs.publicDir SampleFs.fs "minds" ".mind" = inr fs' /\
    Fs.stat fs' ["app"; "public"; "minds"] = Some Fs.Dir /\
    fs' !! ["app"; "public"; "minds"; "index.json"] = Some (Fs.File "[]").
Proof.
  apply (generateIndex_empty_directory SampleFs.publicDir SampleFs.fs
           "minds" ".mind" sample_noFileOnPath_minds).
  - vm_compute. discriminate.
  - intros n _.
    change (Fs.join SampleFs.publicDir "minds" ++ [n])
      with ["app"; "public"; "minds"; n].
    destruct (SampleFs.fs !! ["app"; "public"; "minds"; n]) as [v|] eqn:E;
      [|reflexivity].
    apply elem_of_list_to_map_2 in E.
    repeat (apply elem_of_cons in E as [E|E]; [discriminate E|]).
    now apply elem_of_nil in E.
Defined.

End EmptyDirectory.

(** ** The selection of variant B *)

Section Selection.
Context {num : Type} `{JsNumber num}.
Implicit Type s : State.t num.

Local Abbreviation named l sel :=
  (forall i, sel = Some i -> exists m, In m l /\ ARModel.id m = i).

Lemma named_ext (l l' : list (ARModel.t num)) sel :
  List.map ARModel.id l' = List.map ARModel.id l -> named l sel -> named l' sel.
Proof.
  intros Hmap Hl i Hi. destruct (Hl i Hi) as (m & Hm & Hid).
  apply (in_map ARModel.id) in Hm. rewrite <- Hmap in Hm.
  apply in_map_iff in Hm as (m' & Hid' & Hm'). exists m'. split; congruence.
Qed.

Lemma idName_ids (l l' : list (ARModel.t num)) :
  List.map idName l' = List.map idName l ->
  List.map ARModel.id l' = List.map ARModel.id l.
Proof.
  intros Hmap. apply (f_equal (List.map fst)) in Hmap.
  now rewrite !map_map in Hmap.
Qed.

Lemma named_stepB s e :
  named (State.arModels s) (State.selectedModel s) ->
  named (State.arModels (VariantB.step s e))
        (State.selectedModel (VariantB.step s e)).
Proof.
  intros Hs. destruct e; simpl; try exact Hs.
  - unfold VariantB.initScene. destruct mounted; exact Hs.
  - unfold VariantB.startCamera. destruct video, granted; exact Hs.
  - unfold VariantB.spawnModel.
    destruct (State.sceneRef s); [destruct (State.isLoading s)|]; exact Hs.
  - unfold VariantB.onProgress. case_pending; exact Hs.
  - unfold VariantB.onLoad. case_pending; try exact Hs.
    destruct (State.sceneRef s); [|exact Hs]. simpl.
    intros j Hj. inversion Hj; subst j. eexists. split.
    + apply in_app_iff. right. left. reflexivity.
    + reflexivity.
  - unfold VariantB.onError. case_pending; exact Hs.
  - unfold VariantB.toggleSelected.
    destruct (State.selectedModel s) eqn:Hsel; [|now rewrite Hsel].
    destruct (List.find _ _); [|now rewrite Hsel]. simpl. rewrite Hsel.
    revert Hs. apply named_ext, idName_ids, toggle_idName.
  - unfold VariantB.removeSelected.
    destruct (State.selectedModel s) eqn:Hsel; [|now rewrite Hsel]. simpl.
    intros j Hj. discriminate Hj.
  - destruct (transformB_walk s modelId delta) as [Hm _]. rewrite Hm.
    assert (Hsel : State.selectedModel (VariantB.transformModel s modelId delta)
                   = State.selectedModel s).
    { unfold VariantB.transformModel. now destruct (mapStore _ _ _). }
    rewrite Hsel. revert Hs. apply named_ext, idName_ids. now apply walk_idName.
Qed.

(** X20.  In variant B the selection never dangles.  In every state the
    component reaches, the selected id, if there is one, is the id of a
    placed model: a load selects the model it appends, the remove button
    clears the selection, and nothing else touches either.  So the lock
    button always finds its model, and it toggles exactly the lock of the
    models with the selected id. *)
Theorem selection_names_placed_model_B (es : list (VariantB.Event num)) :
  let s := VariantB.run es in
  (forall sel, State.selectedModel s = Some sel ->
     exists m, In m (State.arModels s) /\ ARModel.id m = sel) /\
  (forall sel, State.selectedModel s = Some sel ->
     VariantB.toggleSelected s = VariantB.toggleModelLock s sel).
Proof.
  cbv zeta.
  assert (Hinv : named (State.arModels (VariantB.run es))
                       (State.selectedModel (VariantB.run es))).
  { unfold VariantB.run.
    apply (fold_left_invariant
             (fun s => named (State.arModels s) (State.selectedModel s))
             VariantB.step); [apply named_stepB | discriminate]. }
  split; [exact Hinv|]. intros sel Hsel.
  destruct (Hinv sel Hsel) as (m & Hm & Hid).
  unfold VariantB.toggleSelected. rewrite Hsel.
  destruct (List.find _ _) as [m'|] eqn:Hf.
  - apply find_some in Hf as [_ Heq]. apply String.eqb_eq in Heq.
    now rewrite Heq.
  - exfalso. apply (find_none _ _ Hf) in Hm. apply String.eqb_neq in Hm.
    contradiction.
Qed.

End Selection.

(** ** Variant A never removes a model *)

Section Growth.
Context {num : Type} `{JsNumber num}.
Implicit Type s : State.t num.

Lemma grows_stepA s (e : VariantA.Event num) :
  List.map idName (State.arModels s)
    `prefix_of` List.map idName (State.arModels (VariantA.step s e)).
Proof.
  destruct e; simpl; try reflexivity.
  - unfold VariantA.startCamera. destruct granted, video; reflexivity.
  - unfold VariantA.spawnModel.
    destruct (State.sceneRef s); [destruct (State.isLoading s)|]; reflexivity.
  - unfold VariantA.onProgress. case_pending; reflexivity.
  - unfold VariantA.onLoad. case_pending; reflexivity.
  - unfold VariantA.onError. case_pending; reflexivity.
  - unfold VariantA.onMind. case_pending; try reflexivity.
    destruct outcome; simpl; (destruct (State.sceneRef s); [|reflexivity]);
      simpl; rewrite map_app; now apply prefix_app_r.
  - now rewrite toggle_idName.
  - unfold VariantA.transformModel.
    destruct (VariantA.findModel s modelId) as [m|]; [|reflexivity].
    destruct (ARModel.locked m); reflexivity.
  - destruct (handleMaterialSelect_walk s modelId materialId) as (Hm & _).
    rewrite Hm, walk_idName; reflexivity.
Qed.

(** X21.  Variant A has no way to take a model away.  Whatever happens after
    a run, the models placed so far are still there afterwards, in their
    places and with their ids and names; later events only append. *)
Theorem models_only_grow_A (es1 es2 : list (VariantA.Event num)) :
  List.map idName (State.arModels (VariantA.run es1))
    `prefix_of` List.map idName (State.arModels (VariantA.run (es1 ++ es2))) /\
  length (State.arModels (VariantA.run es1))
    <= length (State.arModels (VariantA.run (es1 ++ es2))).
Proof.
  assert (Hpre : List.map idName (State.arModels (VariantA.run es1))
    `prefix_of` List.map idName (State.arModels (VariantA.run (es1 ++ es2)))).
  { unfold VariantA.run. rewrite fold_left_app.
    generalize (List.fold_left VariantA.step es1 (State.initial (num := num))).
    induction es2 as [|e es2 IH]; intros s; [reflexivity|]. simpl.
    etransitivity; [apply grows_stepA | apply IH]. }
  split; [exact Hpre|].
  apply prefix_length in Hpre. now rewrite !length_map in Hpre.
Qed.

End Growth.

(** A chair loaded into an empty scene and removed again: the list is
    empty, the scene is not. *)
Lemma removeSelected_keeps_object_witness :
  let s := VariantB.spawnModel Sample.noCamera "chair" in
  let s2 := VariantB.removeSelected (VariantB.onLoad s 0 Sample.asset 7%N) in
  State.arModels s2 = [] /\ State.selectedModel s2 = None /\
  State.sceneRef s2 = Some [0] /\ length (State.heap s2) = 1.
Proof.
  intros s s2.
  destruct (removeSelected_keeps_object s 0 "chair" Sample.asset 7%N []
              eq_refl eq_refl) as (_ & Hmodels & _ & Hsel & Hscene & Hheap).
  split; [exact Hmodels|]. split; [exact Hsel|]. split; [exact Hscene|].
  subst s2. rewrite Hheap. reflexivity.
Defined.
